(** * jiratui: the multi-view synchronisation engine

    A shallow embedding of the parts of the terminal Jira client that
    scope queries to a project ([jira-client.ts]), validate the
    configuration, cache issues per tab, track newly seen issues and edit
    the configuration in the settings modal ([index.tsx]), followed by the
    properties established about them.

    JavaScript strings are sequences of UTF-16 code units; a code unit is
    modelled as an [N] and a string as a [list N].  The state kept by React
    hooks ([useState], [useRef]) is modelled as a record that every handler
    transforms; suspended ([await]ed) calls to the Jira service are
    modelled by the answer the service gives. *)

From Stdlib Require Import NArith ZArith QArith String Ascii List Bool Lia DecimalString.
From stdpp Require Import base option list gmap sets strings.

Local Open Scope N_scope.

(** ** JavaScript strings *)

Abbreviation jsstring := (list N).

(** The code units of an ASCII literal. *)
Definition js (s : string) : jsstring :=
  (λ a, N.of_nat (nat_of_ascii a)) <$> list_ascii_of_string s.

(** [WhiteSpace] and [LineTerminator] of ECMAScript: the code units that
    [String.prototype.trim] strips and that [\s] matches. *)
Definition isWhiteSpace (c : N) : bool :=
  ((9 <=? c) && (c <=? 13)) || (c =? 32) || (c =? 160) || (c =? 5760)
  || ((8192 <=? c) && (c <=? 8202)) || (c =? 8232) || (c =? 8233)
  || (c =? 8239) || (c =? 8287) || (c =? 12288) || (c =? 65279).

(** The word characters of [\b] (no [u] flag): [A-Za-z0-9_]. *)
Definition isWordChar (c : N) : bool :=
  ((48 <=? c) && (c <=? 57)) || ((65 <=? c) && (c <=? 90)) || (c =? 95)
  || ((97 <=? c) && (c <=? 122)).

(** A pattern letter (given in lower case) matched under the [i] flag.
    Without the [u] flag no code unit outside ASCII canonicalises to an
    ASCII letter, so only the two ASCII cases match. *)
Definition ciEq (lower c : N) : bool := (c =? lower) || (c =? lower - 32).

Fixpoint trimStart (s : jsstring) : jsstring :=
  match s with
  | c :: s' => if isWhiteSpace c then trimStart s' else s
  | [] => []
  end.

Definition trimEnd (s : jsstring) : jsstring := reverse (trimStart (reverse s)).

Definition trim (s : jsstring) : jsstring := trimEnd (trimStart s).

(** ** [/\border\s+by\b/i]

    [matchLit lit s] consumes the pattern letters [lit] from the front of
    [s], ignoring case, and returns what follows. *)
Fixpoint matchLit (lit s : jsstring) : option jsstring :=
  match lit with
  | [] => Some s
  | l :: lit' =>
      match s with
      | c :: s' => if ciEq l c then matchLit lit' s' else None
      | [] => None
      end
  end.

(** Does the pattern match at the front of [s], when the code unit before
    [s] is a word character or not ([prevWord]; [false] at the start of the
    input)?  The first [\b] stands before the word character [o], so it
    holds exactly when the previous code unit is no word character.  [\s+]
    is greedy and [b] is no white space, so the only way on is after the
    whole run of white space.  The last [\b] stands after the word
    character [y]. *)
Definition matchHere (prevWord : bool) (s : jsstring) : bool :=
  negb prevWord &&
  match matchLit (js "order") s with
  | Some (c :: s1) =>
      isWhiteSpace c &&
      match matchLit (js "by") (trimStart s1) with
      | Some [] => true
      | Some (d :: _) => negb (isWordChar d)
      | None => false
      end
  | _ => false
  end.

(** [RegExp.prototype.exec]: the index of the leftmost match, scanning
    from index [i] with [s] the rest of the input. *)
Fixpoint execFrom (prevWord : bool) (s : jsstring) (i : nat) : option nat :=
  match s with
  | [] => None
  | c :: s' =>
      if matchHere prevWord s then Some i
      else execFrom (isWordChar c) s' (S i)
  end.

Definition execOrderBy (jql : jsstring) : option nat := execFrom false jql 0%nat.

(** ** jira-client.ts *)

Definition splitOrderBy (jql : jsstring) : jsstring * jsstring :=
  match execOrderBy jql with
  | None => (trim jql, [])
  | Some index => (trim (take index jql), trim (drop index jql))
  end.

Definition injectProjectConstraintAtEnd (customJql project : jsstring) : jsstring :=
  let '(conditions, orderBy) := splitOrderBy customJql in
  let withProject :=
    if (length conditions =? 0)%nat
    then js "project = " ++ project
    else js "(" ++ conditions ++ js ") AND project = " ++ project in
  if (length orderBy =? 0)%nat then withProject
  else withProject ++ js " " ++ orderBy.

(** ** Numbers

    A JavaScript number that the configuration can hold: [NaN] or a finite
    value, kept exact.  [parseInt] of more digits than a double holds would
    round; only the sign of its result is looked at below. *)
Inductive number : Type :=
  | NaN
  | Num (q : Q).

(** [!n]: a number is falsy when it is [NaN] or zero. *)
Definition numberFalsy (n : number) : bool :=
  match n with
  | NaN => true
  | Num q => Qeq_bool q 0
  end.

(** [n <= 0] and [n > 0]; both are false on [NaN]. *)
Definition numberLeZero (n : number) : bool :=
  match n with
  | NaN => false
  | Num q => Qle_bool q 0
  end.

Definition numberGtZero (n : number) : bool :=
  match n with
  | NaN => false
  | Num q => negb (Qle_bool q 0)
  end.

Definition isDigit (c : N) : bool := (48 <=? c) && (c <=? 57).

Fixpoint digitsValue (acc : Z) (s : jsstring) : Z :=
  match s with
  | c :: s' => if isDigit c then digitsValue (10 * acc + Z.of_N (c - 48)) s' else acc
  | [] => acc
  end.

(** [parseInt(s, 10)]: leading white space, an optional sign, then the
    longest run of decimal digits; [NaN] when there is no digit. *)
Definition parseInt (s : jsstring) : number :=
  let s := trimStart s in
  let '(negative, s) :=
    match s return bool * jsstring with
    | 45 :: s' => (true, s')
    | 43 :: s' => (false, s')
    | _ => (false, s)
    end in
  match s with
  | c :: _ =>
      if isDigit c
      then Num (inject_Z (if negative then Z.opp (digitsValue 0 s) else digitsValue 0 s))
      else NaN
  | [] => NaN
  end.

(** The decimal numeral of a natural number, as a template literal prints
    an array index. *)
Definition natToString (n : nat) : jsstring :=
  js (NilEmpty.string_of_uint (Nat.to_uint n)).

(** [Array.prototype.join]. *)
Fixpoint join (sep : jsstring) (parts : list jsstring) : jsstring :=
  match parts with
  | [] => []
  | [p] => p
  | p :: rest => p ++ sep ++ join sep rest
  end.

(** String equality, as [===] on strings. *)
Definition strEq (a b : jsstring) : bool := bool_decide (a = b).

(** ** Configuration (index.tsx) *)

Record View : Type := mkView {
  view_name : jsstring;
  view_jql : jsstring
}.

Record ActivityConfig : Type := mkActivityConfig {
  enabled : bool;
  pollingIntervalMinutes : number;
  activity_jql : jsstring
}.

Record Config : Type := mkConfig {
  project : jsstring;
  domain : jsstring;
  views : list View;
  activity : option ActivityConfig
}.

(** [!s?.trim()] on a string: the trimmed string is empty. *)
Definition blank (s : jsstring) : bool := (length (trim s) =? 0)%nat.

Definition activityEnabledOf (config : Config) : bool :=
  match activity config with
  | Some a => enabled a
  | None => false
  end.

(** The two messages a view can add, for the view at [index]. *)
Definition viewErrors (index : nat) (view : View) : list jsstring :=
  let viewName := trim (view_name view) in
  let label :=
    if (length viewName =? 0)%nat
    then js "View #" ++ natToString (index + 1)
    else js "View " ++ [34] ++ viewName ++ [34] in
  (if (length viewName =? 0)%nat then [label ++ js " is missing a name."] else [])
  ++ (if blank (view_jql view) then [label ++ js " is missing a JQL query."] else []).

Definition activityErrors (config : Config) : list jsstring :=
  match activity config with
  | Some a =>
      if enabled a then
        (if numberFalsy (pollingIntervalMinutes a) || numberLeZero (pollingIntervalMinutes a)
         then [js "Activity polling interval must be a positive number."] else [])
        ++ (if blank (activity_jql a)
            then [js "Activity JQL query is required when activity is enabled."] else [])
      else []
  | None => []
  end.

Definition validateConfig (config : Config) : list jsstring :=
  (if blank (project config) then [js "Missing project key in config.json."] else [])
  ++ (if blank (domain config) then [js "Missing domain in config.json."] else [])
  ++ (if (length (views config) =? 0)%nat
      then [js "At least one view is required in config.json."]
      else concat (imap viewErrors (views config)))
  ++ activityErrors config.

Record NamedQuery : Type := mkNamedQuery {
  query_name : jsstring;
  query_jql : jsstring
}.

Definition buildValidationQueries (config : Config) : list NamedQuery :=
  ((λ view, mkNamedQuery (view_name view)
              (injectProjectConstraintAtEnd (view_jql view) (project config)))
     <$> views config)
  ++ match activity config with
     | Some a =>
         if enabled a
         then [mkNamedQuery (js "Activity")
                 (injectProjectConstraintAtEnd (activity_jql a) (project config))]
         else []
     | None => []
     end.

(** ** The Jira service (jira-client.ts)

    A call either returns or throws an [Error] with a message. *)
Inductive outcome (A : Type) : Type :=
  | Returned (a : A)
  | Thrown (message : jsstring).
Arguments Returned {A} a.
Arguments Thrown {A} message.

Record JiraIssue : Type := mkIssue {
  issue_id : jsstring;
  issue_key : jsstring;
  issue_summary : jsstring;
  issue_status : jsstring
}.

Record JqlParseResult : Type := mkParseResult {
  parse_query : jsstring;
  parse_errors : option (list jsstring);
  parse_warnings : option (list jsstring)
}.

Record JqlValidationResult : Type := mkValidationResult {
  result_query : jsstring;
  valid : bool;
  errors : list jsstring;
  warnings : list jsstring
}.

(** What the service answers: [search n jql] to the [n]-th search request
    of the session (all pages of it), [parse queries] to a validation
    request. *)
Record Jira : Type := mkJira {
  search : nat → jsstring → outcome (list JiraIssue);
  parse : list jsstring → outcome (list JqlParseResult)
}.

(** [JiraClient.validateJql]: a query is valid when no error is reported. *)
Definition toValidationResult (result : JqlParseResult) : JqlValidationResult :=
  mkValidationResult (parse_query result)
    (match parse_errors result with
     | Some es => (length es =? 0)%nat
     | None => true
     end)
    (default [] (parse_errors result))
    (default [] (parse_warnings result)).

Definition validateJql (jira : Jira) (queries : list jsstring)
  : outcome (list JqlValidationResult) :=
  match parse jira queries with
  | Returned results => Returned (toValidationResult <$> results)
  | Thrown message => Thrown message
  end.

(** ** The state of the [App] component (index.tsx) *)

Record IssueCacheEntry : Type := mkEntry {
  issues : list JiraIssue;
  fetchedAt : Z
}.

Definition ISSUE_CACHE_TTL_MS : Z := 30000.

Record ViewValidation : Type := mkViewValidation {
  vv_name : jsstring;
  vv_jql : jsstring;
  vv_valid : bool;
  vv_errors : list jsstring;
  vv_warnings : list jsstring
}.

(** The values held by [useState] and [useRef] in [App], and the pieces of
    the outside world the component writes: [config.json], [console.error]
    and the search requests sent, each with the tab it was sent for. *)
Record App : Type := mkApp {
  config : Config;
  issueCache : gmap nat IssueCacheEntry;
  loading : bool;
  loadingProgress : jsstring;
  error : option jsstring;
  validationErrors : list ViewValidation;
  newIssueIds : gset jsstring;
  lastRefresh : Z;
  showJqlModal : bool;
  showSettings : bool;
  knownIssueIds : gset jsstring;
  jiraClient : bool;
  validationDone : bool;
  prevalidatedInitial : bool;
  issueCacheRef : gmap nat IssueCacheEntry;
  configFile : option Config;
  consoleError : list jsstring;
  searchLog : list (nat * jsstring)
}.

Definition set_config (v : Config) (a : App) : App :=
  mkApp v (issueCache a) (loading a) (loadingProgress a) (error a) (validationErrors a)
    (newIssueIds a) (lastRefresh a) (showJqlModal a) (showSettings a) (knownIssueIds a)
    (jiraClient a) (validationDone a) (prevalidatedInitial a) (issueCacheRef a)
    (configFile a) (consoleError a) (searchLog a).
Definition set_issueCache (v : gmap nat IssueCacheEntry) (a : App) : App :=
  mkApp (config a) v (loading a) (loadingProgress a) (error a) (validationErrors a)
    (newIssueIds a) (lastRefresh a) (showJqlModal a) (showSettings a) (knownIssueIds a)
    (jiraClient a) (validationDone a) (prevalidatedInitial a) (issueCacheRef a)
    (configFile a) (consoleError a) (searchLog a).
Definition set_loading (v : bool) (a : App) : App :=
  mkApp (config a) (issueCache a) v (loadingProgress a) (error a) (validationErrors a)
    (newIssueIds a) (lastRefresh a) (showJqlModal a) (showSettings a) (knownIssueIds a)
    (jiraClient a) (validationDone a) (prevalidatedInitial a) (issueCacheRef a)
    (configFile a) (consoleError a) (searchLog a).
Definition set_loadingProgress (v : jsstring) (a : App) : App :=
  mkApp (config a) (issueCache a) (loading a) v (error a) (validationErrors a)
    (newIssueIds a) (lastRefresh a) (showJqlModal a) (showSettings a) (knownIssueIds a)
    (jiraClient a) (validationDone a) (prevalidatedInitial a) (issueCacheRef a)
    (configFile a) (consoleError a) (searchLog a).
Definition set_error (v : option jsstring) (a : App) : App :=
  mkApp (config a) (issueCache a) (loading a) (loadingProgress a) v (validationErrors a)
    (newIssueIds a) (lastRefresh a) (showJqlModal a) (showSettings a) (knownIssueIds a)
    (jiraClient a) (validationDone a) (prevalidatedInitial a) (issueCacheRef a)
    (configFile a) (consoleError a) (searchLog a).
Definition set_validationErrors (v : list ViewValidation) (a : App) : App :=
  mkApp (config a) (issueCache a) (loading a) (loadingProgress a) (error a) v
    (newIssueIds a) (lastRefresh a) (showJqlModal a) (showSettings a) (knownIssueIds a)
    (jiraClient a) (validationDone a) (prevalidatedInitial a) (issueCacheRef a)
    (configFile a) (consoleError a) (searchLog a).
Definition set_newIssueIds (v : gset jsstring) (a : App) : App :=
  mkApp (config a) (issueCache a) (loading a) (loadingProgress a) (error a) (validationErrors a)
    v (lastRefresh a) (showJqlModal a) (showSettings a) (knownIssueIds a)
    (jiraClient a) (validationDone a) (prevalidatedInitial a) (issueCacheRef a)
    (configFile a) (consoleError a) (searchLog a).
Definition set_lastRefresh (v : Z) (a : App) : App :=
  mkApp (config a) (issueCache a) (loading a) (loadingProgress a) (error a) (validationErrors a)
    (newIssueIds a) v (showJqlModal a) (showSettings a) (knownIssueIds a)
    (jiraClient a) (validationDone a) (prevalidatedInitial a) (issueCacheRef a)
    (configFile a) (consoleError a) (searchLog a).
Definition set_showJqlModal (v : bool) (a : App) : App :=
  mkApp (config a) (issueCache a) (loading a) (loadingProgress a) (error a) (validationErrors a)
    (newIssueIds a) (lastRefresh a) v (showSettings a) (knownIssueIds a)
    (jiraClient a) (validationDone a) (prevalidatedInitial a) (issueCacheRef a)
    (configFile a) (consoleError a) (searchLog a).
Definition set_showSettings (v : bool) (a : App) : App :=
  mkApp (config a) (issueCache a) (loading a) (loadingProgress a) (error a) (validationErrors a)
    (newIssueIds a) (lastRefresh a) (showJqlModal a) v (knownIssueIds a)
    (jiraClient a) (validationDone a) (prevalidatedInitial a) (issueCacheRef a)
    (configFile a) (consoleError a) (searchLog a).
Definition set_knownIssueIds (v : gset jsstring) (a : App) : App :=
  mkApp (config a) (issueCache a) (loading a) (loadingProgress a) (error a) (validationErrors a)
    (newIssueIds a) (lastRefresh a) (showJqlModal a) (showSettings a) v
    (jiraClient a) (validationDone a) (prevalidatedInitial a) (issueCacheRef a)
    (configFile a) (consoleError a) (searchLog a).
Definition set_jiraClient (v : bool) (a : App) : App :=
  mkApp (config a) (issueCache a) (loading a) (loadingProgress a) (error a) (validationErrors a)
    (newIssueIds a) (lastRefresh a) (showJqlModal a) (showSettings a) (knownIssueIds a)
    v (validationDone a) (prevalidatedInitial a) (issueCacheRef a)
    (configFile a) (consoleError a) (searchLog a).
Definition set_validationDone (v : bool) (a : App) : App :=
  mkApp (config a) (issueCache a) (loading a) (loadingProgress a) (error a) (validationErrors a)
    (newIssueIds a) (lastRefresh a) (showJqlModal a) (showSettings a) (knownIssueIds a)
    (jiraClient a) v (prevalidatedInitial a) (issueCacheRef a)
    (configFile a) (consoleError a) (searchLog a).
Definition set_prevalidatedInitial (v : bool) (a : App) : App :=
  mkApp (config a) (issueCache a) (loading a) (loadingProgress a) (error a) (validationErrors a)
    (newIssueIds a) (lastRefresh a) (showJqlModal a) (showSettings a) (knownIssueIds a)
    (jiraClient a) (validationDone a) v (issueCacheRef a)
    (configFile a) (consoleError a) (searchLog a).
Definition set_issueCacheRef (v : gmap nat IssueCacheEntry) (a : App) : App :=
  mkApp (config a) (issueCache a) (loading a) (loadingProgress a) (error a) (validationErrors a)
    (newIssueIds a) (lastRefresh a) (showJqlModal a) (showSettings a) (knownIssueIds a)
    (jiraClient a) (validationDone a) (prevalidatedInitial a) v
    (configFile a) (consoleError a) (searchLog a).
Definition set_configFile (v : option Config) (a : App) : App :=
  mkApp (config a) (issueCache a) (loading a) (loadingProgress a) (error a) (validationErrors a)
    (newIssueIds a) (lastRefresh a) (showJqlModal a) (showSettings a) (knownIssueIds a)
    (jiraClient a) (validationDone a) (prevalidatedInitial a) (issueCacheRef a)
    v (consoleError a) (searchLog a).
Definition set_consoleError (v : list jsstring) (a : App) : App :=
  mkApp (config a) (issueCache a) (loading a) (loadingProgress a) (error a) (validationErrors a)
    (newIssueIds a) (lastRefresh a) (showJqlModal a) (showSettings a) (knownIssueIds a)
    (jiraClient a) (validationDone a) (prevalidatedInitial a) (issueCacheRef a)
    (configFile a) v (searchLog a).
Definition set_searchLog (v : list (nat * jsstring)) (a : App) : App :=
  mkApp (config a) (issueCache a) (loading a) (loadingProgress a) (error a) (validationErrors a)
    (newIssueIds a) (lastRefresh a) (showJqlModal a) (showSettings a) (knownIssueIds a)
    (jiraClient a) (validationDone a) (prevalidatedInitial a) (issueCacheRef a)
    (configFile a) (consoleError a) v.

(** The state [App] starts in, for the configuration read from disk. *)
Definition initialApp (c : Config) (prevalidated : bool) (now : Z) : App :=
  mkApp c ∅ true [] None [] ∅ now false false ∅ false false prevalidated ∅ None [] [].

(** Asynchronous code of [App]: it reads and writes the hooks and either
    returns or throws. *)
Definition M (A : Type) : Type := App → App * outcome A.

Definition ret {A} (a : A) : M A := λ st, (st, Returned a).

Definition bind {A B} (m : M A) (k : A → M B) : M B :=
  λ st, match m st with
        | (st', Returned a) => k a st'
        | (st', Thrown message) => (st', Thrown message)
        end.

Definition modify (f : App → App) : M unit := λ st, (f st, Returned tt).

Notation "'let*' x := m 'in' k" := (bind m (λ x, k))
  (at level 10, x pattern, m at level 100, k at level 200).

(** *** Tabs *)

Definition tabs (c : Config) : list jsstring :=
  (view_name <$> views c) ++ (if activityEnabledOf c then [js "Activity"] else []).

(** [activityTabIndex]; [None] stands for [-1]. *)
Definition activityTabIndex (c : Config) : option nat :=
  if activityEnabledOf c then Some (length (tabs c) - 1)%nat else None.

(** *** [trackNewIssues]

    The loop over [issues]: [known] is [knownIssueIds.current], [newIds]
    the local array of the ids reported as new. *)
Fixpoint trackLoop (isInitial : bool) (issues : list JiraIssue)
    (known : gset jsstring) (newIds : list jsstring) : gset jsstring * list jsstring :=
  match issues with
  | [] => (known, newIds)
  | issue :: rest =>
      let newIds :=
        if negb isInitial && negb (bool_decide (issue_id issue ∈ known))
        then newIds ++ [issue_id issue] else newIds in
      trackLoop isInitial rest ({[issue_id issue]} ∪ known) newIds
  end.

Definition trackNewIssues (issues : list JiraIssue) (isInitial : bool) (st : App) : App :=
  let '(known, newIds) := trackLoop isInitial issues (knownIssueIds st) [] in
  let st := set_knownIssueIds known st in
  if (0 <? length newIds)%nat
  then set_newIssueIds (newIssueIds st ∪ list_to_set newIds) st
  else st.

(** *** Fetching *)

(** [JiraClient.searchWithProjectConstraint], sent for tab [tab]: one
    search request with the scoped query. *)
Definition searchWithProjectConstraint (jira : Jira) (tab : nat)
    (project customJql : jsstring) : M (list JiraIssue) :=
  λ st, let jql := injectProjectConstraintAtEnd customJql project in
        (set_searchLog (searchLog st ++ [(tab, jql)]) st,
         search jira (length (searchLog st)) jql).

Definition fetchIssuesForTab (jira : Jira) (tabIndex : nat) : M (list JiraIssue) :=
  λ st,
    let st := if jiraClient st then st else set_jiraClient true st in
    let c := config st in
    match activity c with
    | Some a =>
        if bool_decide (Some tabIndex = activityTabIndex c)
        then searchWithProjectConstraint jira tabIndex (project c) (activity_jql a) st
        else match views c !! tabIndex with
             | None => ret [] st
             | Some view => searchWithProjectConstraint jira tabIndex (project c) (view_jql view) st
             end
    | None =>
        match views c !! tabIndex with
        | None => ret [] st
        | Some view => searchWithProjectConstraint jira tabIndex (project c) (view_jql view) st
        end
    end.

(** [isFresh && cacheEntry]: the entry to reuse, if any. *)
Definition freshEntry (isInitial force : bool) (now : Z)
    (cacheEntry : option IssueCacheEntry) : option IssueCacheEntry :=
  match cacheEntry with
  | Some e =>
      if negb force && negb isInitial && (now - fetchedAt e <? ISSUE_CACHE_TTL_MS)%Z
      then Some e else None
  | None => None
  end.

Definition loadingMessage (c : Config) (i : nat) : jsstring :=
  js "Loading " ++ default [] (tabs c !! i) ++ js "... ("
  ++ natToString (i + 1) ++ js "/" ++ natToString (length (tabs c)) ++ js ")".

(** The [for] loop of [fetchAllTabs] over the tab indices still to visit:
    [newCache] and [didFetch] are its locals. *)
Fixpoint fetchTabs (jira : Jira) (now : Z) (isInitial force : bool) (indices : list nat)
    (newCache : gmap nat IssueCacheEntry) (didFetch : bool)
  : M (gmap nat IssueCacheEntry * bool) :=
  match indices with
  | [] => ret (newCache, didFetch)
  | i :: rest =>
      λ st,
        if bool_decide (Some i = activityTabIndex (config st))
        then fetchTabs jira now isInitial force rest newCache didFetch st
        else
          match freshEntry isInitial force now (issueCacheRef st !! i) with
          | Some cacheEntry =>
              fetchTabs jira now isInitial force rest (<[i := cacheEntry]> newCache) didFetch st
          | None =>
              (let* _ := modify (λ st, set_loadingProgress (loadingMessage (config st) i) st) in
               let* issues := fetchIssuesForTab jira i in
               let* _ := modify (trackNewIssues issues isInitial) in
               fetchTabs jira now isInitial force rest
                 (<[i := mkEntry issues now]> newCache) true) st
          end
  end.

(** [fetchAllTabs(isInitial, force)], started at time [now] and finished at
    time [later]. *)
Definition fetchAllTabs (jira : Jira) (now later : Z) (isInitial force : bool)
    (st : App) : App :=
  match fetchTabs jira now isInitial force (seq 0 (length (tabs (config st)))) ∅ false st with
  | (st, Returned (newCache, didFetch)) =>
      let st := set_issueCache (newCache ∪ issueCache st) st in
      let st := if didFetch || isInitial then set_lastRefresh later st else st in
      set_loading false st
  | (st, Thrown message) =>
      set_loading false (set_error (Some message) st)
  end.

(** [fetchActivityIssues(isInitial)] of the activity effect, whose answer
    arrives at time [now]. *)
Definition fetchActivityIssues (jira : Jira) (now : Z) (isInitial : bool) (st : App) : App :=
  match activity (config st), activityTabIndex (config st) with
  | Some a, Some index =>
      if jiraClient st then
        match searchWithProjectConstraint jira index (project (config st)) (activity_jql a) st with
        | (st, Returned issues) =>
            let st := trackNewIssues issues isInitial st in
            set_issueCache (<[index := mkEntry issues now]> (issueCache st)) st
        | (st, Thrown message) =>
            set_consoleError (consoleError st ++ [js "Activity refresh failed: " ++ message]) st
        end
      else st
  | _, _ => st
  end.

(** *** Settings commit, start-up validation *)

Definition handleSettingsSave (newConfig : Config) (st : App) : App :=
  let st := set_configFile (Some newConfig) st in
  let st := set_config newConfig st in
  let st := set_showSettings false st in
  let st := set_loading true st in
  let st := set_validationDone false st in
  let st := set_issueCache ∅ st in
  set_newIssueIds ∅ st.

Definition toViewValidation (allJql : list NamedQuery) (i : nat)
    (result : JqlValidationResult) : option ViewValidation :=
  match allJql !! i with
  | Some item =>
      Some (mkViewValidation (query_name item) (query_jql item)
              (valid result) (errors result) (warnings result))
  | None => None
  end.

Definition validateAndFetch (jira : Jira) (now later : Z) (st : App) : App :=
  if validationDone st then st else
  let st := set_validationDone true st in
  let configValidation := validateConfig (config st) in
  if (0 <? length configValidation)%nat
  then set_loading false (set_error (Some (join [10] configValidation)) st)
  else if prevalidatedInitial st
  then fetchAllTabs jira now later true false (set_prevalidatedInitial false st)
  else
    let st := if jiraClient st then st else set_jiraClient true st in
    let st := set_loadingProgress (js "Validating JQL queries...") st in
    let allJql := buildValidationQueries (config st) in
    if (length allJql =? 0)%nat
    then set_loading false (set_error (Some (js
           "No views configured. Create config.json (copy config.json.example) or run: bun run start -- --config")) st)
    else
      match validateJql jira (query_jql <$> allJql) with
      | Returned results =>
          let validationResults :=
            filter (λ v, negb (vv_valid v) || (0 <? length (vv_warnings v))%nat = true)
              (omap id (imap (toViewValidation allJql) results)) in
          if existsb (λ v, negb (vv_valid v)) validationResults
          then set_loading false
                 (set_validationErrors
                    (filter (λ v, vv_valid v = false) validationResults) st)
          else fetchAllTabs jira now later true false st
      | Thrown message =>
          set_loading false (set_error (Some message) st)
      end.

(** *** What [App] renders *)

Inductive Screen : Type :=
  | LoadingScreen
  | ValidationErrorScreen
  | ErrorScreen (message : jsstring)
  | MainScreen.

Definition screen (st : App) : Screen :=
  if loading st then LoadingScreen
  else if (0 <? length (validationErrors st))%nat then ValidationErrorScreen
  else match error st with
       | Some (c :: message) => ErrorScreen (c :: message)
       | _ => MainScreen
       end.

(** *** Events

    What happens to a mounted [App]: its effects and timers fire, the user
    presses a key, the settings modal saves or closes.  Each is taken as
    one step; the effect that copies [issueCache] into [issueCacheRef]
    runs after it.  The keys that only move the selection or change the
    sort order, and the keys that end the process, are left out. *)
Inductive AppEvent : Type :=
  | ConfigEffect (jira : Jira) (now later : Z)
  | RefreshTick (jira : Jira) (now later : Z)
  | ActivityEffect (jira : Jira) (now : Z)
  | ActivityTick (jira : Jira) (now : Z)
  | KeyRefresh (jira : Jira) (now later : Z)
  | KeyClear
  | KeySettings
  | KeyJql
  | KeyEscapeJql
  | SettingsSave (newConfig : Config)
  | SettingsClose.

(** The keys of [useKeyboard] reach the main view only while no modal is
    shown. *)
Definition mainKeys (st : App) : bool := negb (showSettings st) && negb (showJqlModal st).

Definition handle (ev : AppEvent) (st : App) : App :=
  match ev with
  | ConfigEffect jira now later => validateAndFetch jira now later st
  | RefreshTick jira now later => fetchAllTabs jira now later false false st
  | ActivityEffect jira now => fetchActivityIssues jira now true st
  | ActivityTick jira now => fetchActivityIssues jira now false st
  | KeyRefresh jira now later =>
      if mainKeys st then fetchAllTabs jira now later false true (set_loading true st) else st
  | KeyClear => if mainKeys st then set_newIssueIds ∅ st else st
  | KeySettings => if mainKeys st then set_showSettings true st else st
  | KeyJql => if mainKeys st then set_showJqlModal true st else st
  | KeyEscapeJql =>
      if negb (showSettings st) && showJqlModal st then set_showJqlModal false st else st
  | SettingsSave newConfig => if showSettings st then handleSettingsSave newConfig st else st
  | SettingsClose => set_showSettings false st
  end.

Definition step (ev : AppEvent) (st : App) : App :=
  let st := handle ev st in
  set_issueCacheRef (issueCache st) st.

Definition run (evs : list AppEvent) (st : App) : App := foldl (λ st ev, step ev st) st evs.

(** ** The settings modal (index.tsx, [SettingsModal]) *)

Inductive SettingsMode : Type :=
  | ModeMenu
  | ModeViews
  | ModeEditView
  | ModeActivity
  | ModeProject.

Inductive EditField : Type :=
  | FieldName
  | FieldJql
  | FieldProject
  | FieldInterval
  | FieldActivityJql.

Record KeyEvent : Type := mkKey {
  key_name : jsstring;
  key_ctrl : bool;
  key_meta : bool;
  key_sequence : jsstring
}.

(** What the modal asks of the outside: of its parent through [onSave]
    and [onClose], and of the validator when a query edit is confirmed. *)
Inductive ModalRequest : Type :=
  | OnSave (newConfig : Config)
  | OnClose
  | ValidateJql (jql : jsstring).

Module SettingsModal.

(** The hooks of the modal; [editingConfig] is the working draft. *)
Record State : Type := mkState {
  mode : SettingsMode;
  menuIndex : nat;
  viewIndex : nat;
  fieldIndex : nat;
  editingConfig : Config;
  editField : option EditField;
  editValue : jsstring;
  cursorPos : nat;
  isNewView : bool;
  validationError : option jsstring;
  validating : bool
}.

(** The modal as it opens on [config]. *)
Definition open (c : Config) : State :=
  mkState ModeMenu 0 0 0 c None [] 0 false None false.

Definition set_mode (v : SettingsMode) (s : State) : State :=
  mkState v (menuIndex s) (viewIndex s) (fieldIndex s) (editingConfig s) (editField s)
    (editValue s) (cursorPos s) (isNewView s) (validationError s) (validating s).
Definition set_menuIndex (v : nat) (s : State) : State :=
  mkState (mode s) v (viewIndex s) (fieldIndex s) (editingConfig s) (editField s)
    (editValue s) (cursorPos s) (isNewView s) (validationError s) (validating s).
Definition set_viewIndex (v : nat) (s : State) : State :=
  mkState (mode s) (menuIndex s) v (fieldIndex s) (editingConfig s) (editField s)
    (editValue s) (cursorPos s) (isNewView s) (validationError s) (validating s).
Definition set_fieldIndex (v : nat) (s : State) : State :=
  mkState (mode s) (menuIndex s) (viewIndex s) v (editingConfig s) (editField s)
    (editValue s) (cursorPos s) (isNewView s) (validationError s) (validating s).
Definition set_editingConfig (v : Config) (s : State) : State :=
  mkState (mode s) (menuIndex s) (viewIndex s) (fieldIndex s) v (editField s)
    (editValue s) (cursorPos s) (isNewView s) (validationError s) (validating s).
Definition set_editField (v : option EditField) (s : State) : State :=
  mkState (mode s) (menuIndex s) (viewIndex s) (fieldIndex s) (editingConfig s) v
    (editValue s) (cursorPos s) (isNewView s) (validationError s) (validating s).
Definition set_editValue (v : jsstring) (s : State) : State :=
  mkState (mode s) (menuIndex s) (viewIndex s) (fieldIndex s) (editingConfig s) (editField s)
    v (cursorPos s) (isNewView s) (validationError s) (validating s).
Definition set_cursorPos (v : nat) (s : State) : State :=
  mkState (mode s) (menuIndex s) (viewIndex s) (fieldIndex s) (editingConfig s) (editField s)
    (editValue s) v (isNewView s) (validationError s) (validating s).
Definition set_isNewView (v : bool) (s : State) : State :=
  mkState (mode s) (menuIndex s) (viewIndex s) (fieldIndex s) (editingConfig s) (editField s)
    (editValue s) (cursorPos s) v (validationError s) (validating s).
Definition set_validationError (v : option jsstring) (s : State) : State :=
  mkState (mode s) (menuIndex s) (viewIndex s) (fieldIndex s) (editingConfig s) (editField s)
    (editValue s) (cursorPos s) (isNewView s) v (validating s).
Definition set_validating (v : bool) (s : State) : State :=
  mkState (mode s) (menuIndex s) (viewIndex s) (fieldIndex s) (editingConfig s) (editField s)
    (editValue s) (cursorPos s) (isNewView s) (validationError s) v.

Definition with_project (v : jsstring) (c : Config) : Config :=
  mkConfig v (domain c) (views c) (activity c).
Definition with_views (v : list View) (c : Config) : Config :=
  mkConfig (project c) (domain c) v (activity c).
Definition with_activity (v : option ActivityConfig) (c : Config) : Config :=
  mkConfig (project c) (domain c) (views c) v.

Definition startEditing (field : EditField) (value : jsstring) (s : State) : State :=
  set_cursorPos (length value) (set_editValue value (set_editField (Some field) s)).

Definition clearEditState (s : State) : State :=
  set_validationError None (set_cursorPos 0 (set_editValue [] (set_editField None s))).

(** [if (x)] on a [string | null]: null and the empty string are falsy. *)
Definition truthy (x : option jsstring) : bool :=
  match x with
  | Some (_ :: _) => true
  | _ => false
  end.

(** The [validateJql] closure of the modal: the message to show, or
    [None] (null) when the query passes. *)
Definition validateJql (jira : Jira) (jql : jsstring) (s : State) : option jsstring :=
  let injected := injectProjectConstraintAtEnd jql (project (editingConfig s)) in
  match validateJql jira [injected] with
  | Returned results =>
      match head results with
      | Some result =>
          if valid result then None
          else Some (default (js "Invalid JQL") (head (errors result)))
      | None => Some (js "Invalid JQL")
      end
  | Thrown message => Some message
  end.

(** The activity record that [{ ...editingConfig.activity! }] spreads;
    spreading an absent record leaves every field undefined. *)
Definition spreadActivity (c : Config) : ActivityConfig :=
  default (mkActivityConfig false NaN []) (activity c).

Definition applyEdit (s : State) : State :=
  let c := editingConfig s in
  match editField s, mode s with
  | Some FieldProject, _ =>
      clearEditState (set_mode ModeMenu (set_editingConfig (with_project (editValue s) c) s))
  | Some FieldName, ModeEditView =>
      if isNewView s then
        let newViews := views c ++ [mkView (editValue s) []] in
        let s := set_viewIndex (length newViews - 1) s in
        let s := set_editingConfig (with_views newViews c) s in
        set_isNewView false (startEditing FieldJql [] s)
      else
        let newViews := alter (λ v, mkView (editValue s) (view_jql v)) (viewIndex s) (views c) in
        clearEditState (set_editingConfig (with_views newViews c) s)
  | Some FieldJql, ModeEditView =>
      let newViews := alter (λ v, mkView (view_name v) (editValue s)) (viewIndex s) (views c) in
      clearEditState (set_editingConfig (with_views newViews c) s)
  | Some FieldInterval, _ =>
      let interval := parseInt (editValue s) in
      clearEditState
        (if numberGtZero interval
         then set_editingConfig
                (with_activity
                   (Some (mkActivityConfig (enabled (spreadActivity c)) interval
                            (activity_jql (spreadActivity c)))) c) s
         else s)
  | Some FieldActivityJql, _ =>
      clearEditState
        (set_editingConfig
           (with_activity
              (Some (mkActivityConfig (enabled (spreadActivity c))
                       (pollingIntervalMinutes (spreadActivity c)) (editValue s))) c) s)
  | _, _ => clearEditState s
  end.

(** The continuation of the validation started by the return key. *)
Definition validated (error : option jsstring) (s : State) : State :=
  let s := set_validating false s in
  if truthy error then set_validationError error s else applyEdit s.

Definition handleMenuSelect (s : State) : State * option ModalRequest :=
  match menuIndex s with
  | 0%nat => (startEditing FieldProject (project (editingConfig s)) (set_mode ModeProject s), None)
  | 1%nat => (set_viewIndex 0 (set_mode ModeViews s), None)
  | 2%nat => (set_mode ModeActivity s, None)
  | 3%nat => (s, Some (OnSave (editingConfig s)))
  | 4%nat => (s, Some OnClose)
  | _ => (s, None)
  end.

Definition handleViewSelect (s : State) : State :=
  let n := length (views (editingConfig s)) in
  if (viewIndex s =? n)%nat then
    startEditing FieldName [] (set_fieldIndex 0 (set_isNewView true (set_mode ModeEditView s)))
  else if (viewIndex s =? n + 1)%nat then set_mode ModeMenu s
  else set_fieldIndex 0 (set_isNewView false (set_mode ModeEditView s)).

Definition handleEditViewSelect (s : State) : State :=
  match views (editingConfig s) !! viewIndex s with
  | None => s
  | Some view =>
      if (fieldIndex s =? 0)%nat then startEditing FieldName (view_name view) s
      else startEditing FieldJql (view_jql view) s
  end.

Definition defaultActivityJql : jsstring :=
  js "(assignee = currentUser() OR reporter = currentUser()) AND updated >= -1h ORDER BY updated DESC".

Definition handleActivitySelect (s : State) : State :=
  let c := editingConfig s in
  match activity c with
  | None =>
      set_editingConfig
        (with_activity (Some (mkActivityConfig true (Num 5) defaultActivityJql)) c) s
  | Some a =>
      set_editingConfig
        (with_activity
           (Some (mkActivityConfig (negb (enabled a)) (pollingIntervalMinutes a)
                    (activity_jql a))) c) s
  end.

(** Pasted text: line endings become line feeds. *)
Fixpoint normalizeLineEndings (s : jsstring) : jsstring :=
  match s with
  | 13 :: s' =>
      10 :: match s' with
            | 10 :: s'' => normalizeLineEndings s''
            | _ => normalizeLineEndings s'
            end
  | c :: s' => c :: normalizeLineEndings s'
  | [] => []
  end.

Definition singleLine (field : EditField) : bool :=
  match field with
  | FieldName | FieldProject | FieldInterval => true
  | _ => false
  end.

Definition insertAtCursor (text : jsstring) (s : State) : State :=
  let v := editValue s in
  set_validationError None
    (set_cursorPos (cursorPos s + length text)
       (set_editValue (take (cursorPos s) v ++ text ++ drop (cursorPos s) v) s)).

Definition isKey (key : KeyEvent) (name : string) : bool := strEq (key_name key) (js name).

(** The handler while a field is being edited. *)
Definition editKeys (clipboard : outcome jsstring) (key : KeyEvent)
    (field : EditField) (s : State) : State * option ModalRequest :=
  let v := editValue s in
  if isKey key "escape" then (clearEditState s, None)
  else if isKey key "return" then
    match field with
    | FieldJql | FieldActivityJql => (set_validating true s, Some (ValidateJql v))
    | _ => (applyEdit s, None)
    end
  else if isKey key "left" then (set_cursorPos (cursorPos s - 1) s, None)
  else if isKey key "right" then (set_cursorPos (length v `min` (cursorPos s + 1)) s, None)
  else if isKey key "home" || (key_ctrl key && isKey key "a") then (set_cursorPos 0 s, None)
  else if isKey key "end" || (key_ctrl key && isKey key "e")
  then (set_cursorPos (length v) s, None)
  else if isKey key "backspace" then
    (set_validationError None
       (if (0 <? cursorPos s)%nat
        then set_cursorPos (cursorPos s - 1)
               (set_editValue (take (cursorPos s - 1) v ++ drop (cursorPos s) v) s)
        else s), None)
  else if isKey key "delete" then
    (set_validationError None
       (if (cursorPos s <? length v)%nat
        then set_editValue (take (cursorPos s) v ++ drop (cursorPos s + 1) v) s
        else s), None)
  else if (key_ctrl key || key_meta key) && isKey key "v" then
    match clipboard with
    | Returned (c :: pastedText) =>
        let normalizedText := normalizeLineEndings (c :: pastedText) in
        let normalizedText :=
          if singleLine field
          then trim ((λ c, if c =? 10 then 32 else c) <$> normalizedText)
          else normalizedText in
        (insertAtCursor normalizedText s, None)
    | _ => (s, None)
    end
  else
    match filter (λ c, 32 ≤ c) (key_sequence key) with
    | [] => (s, None)
    | printable => (insertAtCursor printable s, None)
    end.

(** The handler while no field is being edited. *)
Definition menuKeys (key : KeyEvent) (s : State) : State * option ModalRequest :=
  let n := length (views (editingConfig s)) in
  if isKey key "escape" then
    match mode s with
    | ModeMenu => (s, Some OnClose)
    | _ => (set_validationError None (set_mode ModeMenu s), None)
    end
  else if isKey key "up" || isKey key "k" then
    match mode s with
    | ModeMenu => (set_menuIndex (menuIndex s - 1) s, None)
    | ModeViews => (set_viewIndex (viewIndex s - 1) s, None)
    | ModeEditView => (set_fieldIndex (fieldIndex s - 1) s, None)
    | _ => (s, None)
    end
  else if isKey key "down" || isKey key "j" then
    match mode s with
    | ModeMenu => (set_menuIndex (4 `min` (menuIndex s + 1)) s, None)
    | ModeViews => (set_viewIndex ((n + 1) `min` (viewIndex s + 1)) s, None)
    | ModeEditView => (set_fieldIndex (1 `min` (fieldIndex s + 1)) s, None)
    | _ => (s, None)
    end
  else if isKey key "return" then
    match mode s with
    | ModeMenu => handleMenuSelect s
    | ModeViews => (handleViewSelect s, None)
    | ModeEditView => (handleEditViewSelect s, None)
    | ModeActivity => (handleActivitySelect s, None)
    | ModeProject => (startEditing FieldProject (project (editingConfig s)) s, None)
    end
  else if isKey key "d"
          && match mode s with ModeViews => true | _ => false end
          && (viewIndex s <? n)%nat then
    let newViews := delete (viewIndex s) (views (editingConfig s)) in
    (set_viewIndex (viewIndex s `min` length newViews)
       (set_editingConfig (with_views newViews (editingConfig s)) s), None)
  else (s, None).

(** The key handler the modal registers on every render. *)
Definition handler (clipboard : outcome jsstring) (key : KeyEvent) (s : State)
  : State * option ModalRequest :=
  if validating s then (s, None)
  else match editField s with
       | Some field => editKeys clipboard key field s
       | None => menuKeys key s
       end.

Section ActivityKeys.

(** [String(n)] for a number. *)
Variable numberToString : number → jsstring.

(** The handler registered on entering the activity mode with no field
    being edited; [None] when the key is not handled. *)
Definition activityHandler (key : KeyEvent) (s : State) : option State :=
  match activity (editingConfig s) with
  | Some a =>
      if enabled a then
        if isKey key "i"
        then Some (startEditing FieldInterval (numberToString (pollingIntervalMinutes a)) s)
        else if isKey key "j" || isKey key "J"
        then Some (startEditing FieldActivityJql (activity_jql a) s)
        else None
      else None
  | None => None
  end.

End ActivityKeys.

End SettingsModal.

(** ** The configuration wizard (config-wizard.ts) *)

Module Wizard.

(** [askMenu]: the index chosen among [options] for the line typed, or
    [None] for [-1]. *)
Definition askMenu (answer : jsstring) (options : list jsstring) : option nat :=
  match parseInt (trim answer) with
  | Num q =>
      if Qle_bool 1 q && Qle_bool q (inject_Z (Z.of_nat (length options)))
      then Some (Z.to_nat (Qnum q) - 1)%nat
      else None
  | NaN => None
  end.

(** [askYesNo]: the answer, in lower case, starts with [y]. *)
Definition askYesNo (answer : jsstring) : bool :=
  match answer with
  | c :: _ => (c =? 121) || (c =? 89)
  | [] => false
  end.

(** [removeView], given the lines typed at its menu and at its
    confirmation: the configuration afterwards, whether it was written
    to disk, and the lines printed (headers apart). *)
Definition removeView (menuAnswer confirmAnswer : jsstring) (c : Config)
  : Config * bool * list jsstring :=
  if (length (views c) =? 0)%nat then (c, false, [[10] ++ js "No views to remove."])
  else if (length (views c) =? 1)%nat
  then (c, false, [[10] ++ js "Cannot remove the last view. At least one view is required."])
  else
    let viewNames := (view_name <$> views c) ++ [js "Cancel"] in
    match askMenu menuAnswer viewNames with
    | None => (c, false, [js "Cancelled."])
    | Some choice =>
        if (choice =? length viewNames - 1)%nat then (c, false, [js "Cancelled."])
        else match views c !! choice with
             | None => (c, false, [])
             | Some view =>
                 if askYesNo confirmAnswer
                 then (SettingsModal.with_views (delete choice (views c)) c, true,
                       [[10003] ++ js " Removed " ++ [34] ++ view_name view ++ [34]])
                 else (c, false, [js "Cancelled."])
             end
    end.

End Wizard.

(** ** What the properties speak of

    What it means for the keyword to stand at index [i] of [q]: the letters
    of "order" in either case, then white space, then the letters of "by",
    the whole between two word boundaries. *)
Definition ciChar (lower c : N) : Prop := c = lower ∨ c = lower - 32.

Definition OrderByAt (q : jsstring) (i : nat) : Prop :=
  ∃ pre kw1 ws kw2 post,
    q = pre ++ kw1 ++ ws ++ kw2 ++ post
    ∧ length pre = i
    ∧ Forall2 ciChar (js "order") kw1
    ∧ ws ≠ [] ∧ Forall (λ c, isWhiteSpace c = true) ws
    ∧ Forall2 ciChar (js "by") kw2
    ∧ (∀ c, last pre = Some c → isWordChar c = false)
    ∧ (∀ c, head post = Some c → isWordChar c = false).

(** The first keyword of [q] stands at [i]. *)
Definition FirstOrderByAt (q : jsstring) (i : nat) : Prop :=
  OrderByAt q i ∧ ∀ j, (j < i)%nat → ¬ OrderByAt q j.

(** The conditions clause [conditions] scoped to [project]. *)
Definition scoped (conditions project : jsstring) : jsstring :=
  match conditions with
  | [] => js "project = " ++ project
  | _ => js "(" ++ conditions ++ js ") AND project = " ++ project
  end.

(** Is the code unit before index [i] of [q] a word character, when the
    code unit before [q] itself is one or not ([prevWord])? *)
Definition wordBeforeFrom (prevWord : bool) (q : jsstring) (i : nat) : bool :=
  match i with
  | O => prevWord
  | S j => from_option isWordChar false (q !! j)
  end.

Definition wordBefore (q : jsstring) (i : nat) : bool := wordBeforeFrom false q i.

(** The pattern matches at index [i] of [q]. *)
Definition matchAt (q : jsstring) (i : nat) : bool :=
  matchHere (wordBefore q i) (drop i q).

(** The search requests sent for tab [i]. *)
Definition requestsFor (i : nat) (log : list (nat * jsstring)) : list (nat * jsstring) :=
  filter (λ r, r.1 = i) log.



(** The ids of a list of issues, and the ids that [trackNewIssues] reports
    as new for it: its local array [newIds]. *)
Definition issueIds (issues : list JiraIssue) : gset jsstring :=
  list_to_set (issue_id <$> issues).

Definition reportedNew (issues : list JiraIssue) (isInitial : bool) (st : App)
  : list jsstring :=
  (trackLoop isInitial issues (knownIssueIds st) []).2.

(** Between two states of [App]: the ids seen only grow, and an id is
    highlighted afterwards only if it was highlighted before or was not
    yet seen. *)
Definition tracks (st st' : App) : Prop :=
  knownIssueIds st ⊆ knownIssueIds st'
  ∧ ∀ x, x ∈ newIssueIds st' → x ∈ newIssueIds st ∨ x ∉ knownIssueIds st.

(** An asynchronous computation keeps the relation, however it ends. *)
Definition tracking {A} (m : M A) : Prop := ∀ st, tracks st (m st).1.

(** What a pass over the tabs leaves alone. *)
Definition sameCaches (st st' : App) : Prop :=
  config st' = config st ∧ issueCacheRef st' = issueCacheRef st
  ∧ issueCache st' = issueCache st ∧ error st' = error st
  ∧ consoleError st' = consoleError st ∧ lastRefresh st' = lastRefresh st.

(** The request a pass sends for the view at index [j]. *)
Definition requestOf (c : Config) (j : nat) : option (nat * jsstring) :=
  if bool_decide (Some j = activityTabIndex c) then None
  else (λ v, (j, injectProjectConstraintAtEnd (view_jql v) (project c))) <$> views c !! j.

(** The requests of a pass that reuses no entry: one per view, in order. *)
Definition forcedRequests (c : Config) : list (nat * jsstring) :=
  imap (λ j v, (j, injectProjectConstraintAtEnd (view_jql v) (project c))) (views c).

(** ** Sample data *)

Definition issueA : JiraIssue :=
  mkIssue (js "10001") (js "PROJ-1") (js "Printer on fire") (js "Open").
Definition issueB : JiraIssue :=
  mkIssue (js "10002") (js "PROJ-2") (js "Cannot log in") (js "Open").
Definition issueC : JiraIssue :=
  mkIssue (js "10003") (js "PROJ-3") (js "Laptop request") (js "Open").
Definition issueD : JiraIssue :=
  mkIssue (js "10004") (js "PROJ-4") (js "VPN is down") (js "Open").

Definition oneView : Config :=
  mkConfig (js "PROJ") (js "example.atlassian.net")
    [mkView (js "Open") (js "status = Open ORDER BY created DESC")] None.

(** A service that answers every search with the issues A, B and C. *)
Definition jiraABC : Jira :=
  mkJira (λ _ _, Returned [issueA; issueB; issueC]) (λ _, Returned []).

(** A service whose every request fails. *)
Definition jiraDown : Jira :=
  mkJira (λ _ _, Thrown (js "Jira API error: 503 Service Unavailable - "))
         (λ _, Thrown (js "Jira API error: 503 Service Unavailable - ")).

Definition twoViews : Config :=
  mkConfig (js "PROJ") (js "example.atlassian.net")
    [mkView (js "Open") (js "status = Open ORDER BY created DESC");
     mkView (js "Mine") (js "assignee = currentUser()")] None.

Definition withActivity : Config :=
  mkConfig (js "PROJ") (js "example.atlassian.net")
    [mkView (js "Open") (js "status = Open ORDER BY created DESC")]
    (Some (mkActivityConfig true (Num 5) (js "updated >= -1h ORDER BY updated DESC"))).

(** The application after its initial load at time 1000, for each of the
    sample configurations; with an activity tab, after the first activity
    fetch as well. *)
Definition loadedApp : App :=
  run [ConfigEffect jiraABC 1000 1001] (initialApp oneView true 0).

Definition loadedTwoViews : App :=
  run [ConfigEffect jiraABC 1000 1001] (initialApp twoViews true 0).

Definition loadedWithActivity : App :=
  run [ConfigEffect jiraABC 1000 1001; ActivityEffect jiraABC 1002]
      (initialApp withActivity true 0).

Definition entryABC (time : Z) : IssueCacheEntry := mkEntry [issueA; issueB; issueC] time.

(** A key with a name only (return, escape, arrows), and a letter key. *)
Definition named (name : string) : KeyEvent := mkKey (js name) false false [].
Definition letter (c : string) : KeyEvent := mkKey (js c) false false (js c).

(** The keys [keys] pressed one after the other with nothing on the
    clipboard; the requests raised are gathered in order. *)
Fixpoint pressAll (keys : list KeyEvent) (s : SettingsModal.State)
  : SettingsModal.State * list ModalRequest :=
  match keys with
  | [] => (s, [])
  | key :: rest =>
      let '(s, request) := SettingsModal.handler (Returned []) key s in
      let '(s, requests) := pressAll rest s in
      (s, option_list request ++ requests)
  end.

(** A validator that reports the single error [message] for every query. *)
Definition jiraRejecting (message : jsstring) : Jira :=
  mkJira (λ _ _, Returned [])
         (λ queries, Returned ((λ q, mkParseResult q (Some [message]) None) <$> queries)).

(** A validator that accepts every query, with a warning. *)
Definition jiraWarning : Jira :=
  mkJira (λ _ _, Returned [])
         (λ queries,
            Returned ((λ q, mkParseResult q None (Some [js "deprecated field"])) <$> queries)).

(** The key that types the code unit [c]. *)
Definition typed (c : N) : KeyEvent := mkKey [c] false false [c].

(** The modal opened on the one-view configuration, the query of the view
    put under edit, erased with the backspace key and [text] typed in its
    place. *)
Definition editingQuery (text : jsstring) : SettingsModal.State :=
  (pressAll
     ([named "down"; named "return"; named "return"; named "down"; named "return"]
      ++ replicate 35 (named "backspace") ++ (typed <$> text))
     (SettingsModal.open oneView)).1.

Definition disabledActivity : Config :=
  mkConfig (js "PROJ") (js "example.atlassian.net")
    [mkView (js "Open") (js "status = Open")]
    (Some (mkActivityConfig false (Num (inject_Z (-3))) (js "   "))).

(** ** Paged search (jira-client.ts, [JiraClient.searchIssues]) *)

Record JqlSearchResponse : Type := mkSearchResponse {
  response_issues : list JiraIssue;
  response_nextPageToken : option jsstring
}.

(** [if (nextPageToken)] on a [string | undefined]. *)
Definition hasToken (token : option jsstring) : bool :=
  match token with
  | Some (_ :: _) => true
  | _ => false
  end.

(** The [do ... while] loop of [searchIssues].  [fetch n token] is the
    answer to the [n]-th request of the search, whose body carries
    [token]; [fuel] bounds the number of requests, and [None] says that
    the loop is still running when the bound is reached. *)
Fixpoint searchPages (fetch : nat → option jsstring → outcome JqlSearchResponse)
    (fuel n : nat) (nextPageToken : option jsstring) (allIssues : list JiraIssue)
  : option (outcome (list JiraIssue)) :=
  match fuel with
  | O => None
  | S fuel =>
      match fetch n (if hasToken nextPageToken then nextPageToken else None) with
      | Thrown message => Some (Thrown message)
      | Returned response =>
          let allIssues := allIssues ++ response_issues response in
          if hasToken (response_nextPageToken response)
          then searchPages fetch fuel (S n) (response_nextPageToken response) allIssues
          else Some (Returned allIssues)
      end
  end.

Definition searchIssues (fetch : nat → option jsstring → outcome JqlSearchResponse)
    (fuel : nat) : option (outcome (list JiraIssue)) :=
  searchPages fetch fuel 0 None [].

(** The token that the [n]-th request of a search must carry when the
    answers so far were [pages]: none for the first request, then the
    token of the page before. *)
Definition tokenFor (pages : list JqlSearchResponse) (n : nat) : option jsstring :=
  match n with
  | O => None
  | S m => pages !! m ≫= response_nextPageToken
  end.

(** ** Start-up (index.tsx) *)

Definition shouldAutoRunWizard (config : Config) : bool :=
  (length (views config) =? 0)%nat || forallb (λ view, blank (view_jql view)) (views config).

(** [preflightConfigAndJql], for what [loadConfigFromDisk] gives
    ([loaded]), whether the environment holds the credentials that the
    constructor of [JiraClient] asks for ([credentials]), and the service. *)
Definition preflightConfigAndJql (loaded : outcome Config) (credentials : bool)
    (jira : Jira) : outcome unit :=
  match loaded with
  | Thrown message =>
      Thrown (js "Failed to load config.json. Copy config.json.example or run: bun run start -- --config"
              ++ [10] ++ message)
  | Returned config =>
      let configValidation := validateConfig config in
      if (0 <? length configValidation)%nat
      then Thrown (js "Config validation failed:" ++ [10]
                   ++ join [10] ((λ error, js "- " ++ error) <$> configValidation))
      else
        let validationQueries := buildValidationQueries config in
        if (length validationQueries =? 0)%nat
        then Thrown (js
               "No views configured. Create config.json (copy config.json.example) or run: bun run start -- --config")
        else if negb credentials
        then Thrown (js "Missing required environment variables: JIRA_API_KEY, JIRA_EMAIL")
        else
          match validateJql jira (query_jql <$> validationQueries) with
          | Thrown message => Thrown message
          | Returned results =>
              let failures :=
                filter (λ entry, is_Some entry.2 ∧ valid entry.1 = false)
                  (imap (λ index result, (result, validationQueries !! index)) results) in
              if (0 <? length failures)%nat
              then
                let lines :=
                  failures ≫= (λ failure,
                    let name := from_option query_name (js "Unknown") failure.2 in
                    let errors :=
                      if (0 <? length (errors failure.1))%nat then errors failure.1
                      else [js "Invalid JQL"] in
                    (λ error, js "- " ++ name ++ js ": " ++ error) <$> errors) in
                Thrown (js "JQL validation failed:" ++ [10] ++ join [10] lines)
              else Returned tt
          end
  end.

(** What [main] goes on to do. *)
Inductive Launch : Type :=
  | RunConfigWizard
  | Exit (code : nat) (printed : jsstring)
  | Render (prevalidated : bool).

(** [main]: [argv] is [process.argv.slice(2)], [configExists] what
    [existsSync] answers, [first] and [second] what the two calls of
    [loadConfigFromDisk] give. *)
Definition main (argv : list jsstring) (configExists : bool)
    (first second : outcome Config) (credentials : bool) (jira : Jira) : Launch :=
  if bool_decide (js "--config" ∈ argv) then RunConfigWizard
  else if negb configExists then RunConfigWizard
  else if match first with
          | Returned existingConfig => shouldAutoRunWizard existingConfig
          | Thrown _ => false
          end
  then RunConfigWizard
  else match preflightConfigAndJql second credentials jira with
       | Returned _ => Render true
       | Thrown message => Exit 1 message
       end.

(** ** The issue table (index.tsx) *)

(** [text.slice(0, end)]: a negative [end] counts from the end of [text]. *)
Definition sliceTo (text : jsstring) (e : Z) : jsstring :=
  if (e <? 0)%Z then take (Z.to_nat (Z.of_nat (length text) + e)) text
  else take (Z.to_nat e) text.

(** [text.padEnd(width)]. *)
Definition padEnd (text : jsstring) (width : Z) : jsstring :=
  text ++ replicate (Z.to_nat (width - Z.of_nat (length text))) 32.

Definition truncateOrPad (text : jsstring) (width : Z) : jsstring :=
  if (width <? Z.of_nat (length text))%Z then sliceTo text (width - 3) ++ js "..."
  else padEnd text width.

(** The updaters of the selected tab (shift-tab and tab) for [n] tabs. *)
Definition previousTab (n prev : Z) : Z := if (0 <? prev)%Z then (prev - 1)%Z else (n - 1)%Z.
Definition nextTab (n prev : Z) : Z := if (prev <? n - 1)%Z then (prev + 1)%Z else 0%Z.

(** A JavaScript [Set] of strings: its elements in insertion order. *)
Definition setAdd (x : jsstring) (s : list jsstring) : list jsstring :=
  if bool_decide (x ∈ s) then s else s ++ [x].

Definition setDelete (x : jsstring) (s : list jsstring) : list jsstring :=
  filter (λ y, y ≠ x) s.

(** [new Set(array)]. *)
Definition newSet (array : list jsstring) : list jsstring :=
  foldl (λ s x, setAdd x s) [] array.

(** [toggleFlagSelectedIssue]: the flagged keys to write to the state file
    and to keep, or [None] when no issue is selected and nothing is done. *)
Definition toggleFlagSelectedIssue (selectedIssue : option JiraIssue)
    (flaggedIssueKeys : list jsstring) : option (list jsstring) :=
  match selectedIssue with
  | None => None
  | Some issue =>
      let newFlaggedKeys := newSet flaggedIssueKeys in
      Some (if bool_decide (issue_key issue ∈ newFlaggedKeys)
            then setDelete (issue_key issue) newFlaggedKeys
            else setAdd (issue_key issue) newFlaggedKeys)
  end.

(** ** What the properties speak of, continued *)

(** A configuration that [validateConfig] has nothing to say about. *)
Definition ValidView (view : View) : Prop :=
  blank (view_name view) = false ∧ blank (view_jql view) = false.

Definition ValidActivity (a : ActivityConfig) : Prop :=
  enabled a = true →
  numberGtZero (pollingIntervalMinutes a) = true ∧ blank (activity_jql a) = false.

Definition ValidConfig (c : Config) : Prop :=
  blank (project c) = false ∧ blank (domain c) = false
  ∧ views c ≠ [] ∧ Forall ValidView (views c)
  ∧ ∀ a, activity c = Some a → ValidActivity a.

(** ** Sample data, continued *)

(** A search answered in two pages, the second asked for by the token of
    the first; one whose second page fails; one whose every answer names a
    next page. *)
Definition twoPages (n : nat) (token : option jsstring) : outcome JqlSearchResponse :=
  match n, token with
  | 0%nat, None => Returned (mkSearchResponse [issueA; issueB] (Some (js "page-2")))
  | 1%nat, Some t =>
      if strEq t (js "page-2") then Returned (mkSearchResponse [issueC] None)
      else Thrown (js "Jira API error: 400 Bad Request - ")
  | _, _ => Thrown (js "Jira API error: 400 Bad Request - ")
  end.

Definition secondPageFails (n : nat) (token : option jsstring)
  : outcome JqlSearchResponse :=
  match n with
  | 0%nat => Returned (mkSearchResponse [issueA; issueB] (Some (js "page-2")))
  | _ => Thrown (js "Jira API error: 503 Service Unavailable - ")
  end.

Definition endlessPages (n : nat) (token : option jsstring) : outcome JqlSearchResponse :=
  Returned (mkSearchResponse [issueA] (Some (js "more"))).

Definition noViews : Config := mkConfig (js "PROJ") (js "example.atlassian.net") [] None.

(** What no request to the service changes: the hooks of the start-up
    validation and of the modals, and the configuration file. *)
Definition sameSession (st st' : App) : Prop :=
  validationDone st' = validationDone st
  ∧ prevalidatedInitial st' = prevalidatedInitial st
  ∧ configFile st' = configFile st
  ∧ showSettings st' = showSettings st ∧ showJqlModal st' = showJqlModal st
  ∧ validationErrors st' = validationErrors st ∧ loading st' = loading st.

(** The entry that a pass over the views leaves for the view [view] at
    index [i]: the entry it reuses when there is a fresh one, and
    otherwise the answer of the service to the scoped query of the view,
    stamped with the time the pass started. *)
Definition entryOfPass (jira : Jira) (now : Z) (isInitial force : bool) (st : App)
    (i : nat) (view : View) (entry : option IssueCacheEntry) : Prop :=
  match freshEntry isInitial force now (issueCacheRef st !! i) with
  | Some e => entry = Some e
  | None =>
      ∃ issues n,
        entry = Some (mkEntry issues now)
        ∧ search jira n (injectProjectConstraintAtEnd (view_jql view) (project (config st)))
          = Returned issues
  end.

(** The state of the settings modal is in range: the cursor stands within
    the text being edited and each selection within its list (the list of
    views ends with the entries to add a view and to go back). *)
Definition ModalInRange (s : SettingsModal.State) : Prop :=
  (SettingsModal.cursorPos s ≤ length (SettingsModal.editValue s))%nat
  ∧ (SettingsModal.menuIndex s ≤ 4)%nat
  ∧ (SettingsModal.fieldIndex s ≤ 1)%nat
  ∧ (SettingsModal.viewIndex s
     ≤ length (views (SettingsModal.editingConfig s)) + 1)%nat.

(** The polling interval of the draft is positive whenever the draft has
    an activity section, and an activity query is edited only when it has
    one. *)
Definition ModalIntervalPositive (s : SettingsModal.State) : Prop :=
  (∀ a, activity (SettingsModal.editingConfig s) = Some a →
        numberGtZero (pollingIntervalMinutes a) = true)
  ∧ (SettingsModal.editField s = Some FieldActivityJql →
     is_Some (activity (SettingsModal.editingConfig s))).

(** ** The configuration wizard, continued (config-wizard.ts)

    Each function is given the lines typed at its prompts; what it prints
    is left out.  It gives the configuration as it leaves it in memory and
    whether it called [saveConfig], which writes that configuration to
    [config.json]. *)

Module ConfigWizard.

(** The line handler of [readMultilineJql] over the lines still to come:
    [lines] are the lines gathered so far.  [None] when the input ends
    before the prompt is answered; otherwise the query and the lines left
    for the prompts that follow. *)
Fixpoint readLines (input lines : list jsstring) : option (jsstring * list jsstring) :=
  match input with
  | [] => None
  | line :: rest =>
      if (length line =? 0)%nat
      then if (0 <? length lines)%nat then Some (trim (join [10] lines), rest)
           else readLines rest lines
      else readLines rest (lines ++ [line])
  end.

Definition readMultilineJql (input : list jsstring) : option (jsstring * list jsstring) :=
  readLines input [].

(** [validateJql] of the wizard: the verdict and the messages to print. *)
Definition validateJql (jira : Jira) (domain jql project : jsstring)
  : bool * list jsstring :=
  if blank domain then (false, [js "Missing domain in config.json. Set it first."])
  else
    match validateJql jira [injectProjectConstraintAtEnd jql project] with
    | Returned results =>
        match head results with
        | None => (false, [js "Validation failed - no response"])
        | Some result => (valid result, errors result)
        end
    | Thrown message => (false, [message])
    end.

(** [addView], for the name typed and the query that [readMultilineJql]
    resolves with. *)
Definition addView (jira : Jira) (viewName jql : jsstring) (c : Config) : Config * bool :=
  if blank viewName then (c, false)
  else if blank jql then (c, false)
  else if negb (validateJql jira (domain c) jql (project c)).1 then (c, false)
  else (SettingsModal.with_views (views c ++ [mkView (trim viewName) (trim jql)]) c, true).

Definition editOptions : list jsstring :=
  [js "Edit name"; js "Edit JQL"; js "Edit both"; js "Cancel"].

(** [editView], for the lines typed at its two menus, the new name typed
    and the new query. *)
Definition editView (jira : Jira) (menuAnswer editAnswer newName newJql : jsstring)
    (c : Config) : Config * bool :=
  if (length (views c) =? 0)%nat then (c, false)
  else
    let viewNames := (view_name <$> views c) ++ [js "Cancel"] in
    match Wizard.askMenu menuAnswer viewNames with
    | None => (c, false)
    | Some choice =>
        if (choice =? length viewNames - 1)%nat then (c, false)
        else match views c !! choice with
             | None => (c, false)
             | Some _ =>
                 match Wizard.askMenu editAnswer editOptions with
                 | None => (c, false)
                 | Some editChoice =>
                     if (editChoice =? 3)%nat then (c, false)
                     else
                       let c :=
                         if ((editChoice =? 0)%nat || (editChoice =? 2)%nat)
                            && negb (blank newName)
                         then SettingsModal.with_views
                                (alter (λ view, mkView (trim newName) (view_jql view))
                                   choice (views c)) c
                         else c in
                       if ((editChoice =? 1)%nat || (editChoice =? 2)%nat)
                          && negb (blank newJql)
                       then
                         if negb (validateJql jira (domain c) newJql (project c)).1
                         then (c, false)
                         else (SettingsModal.with_views
                                 (alter (λ view, mkView (view_name view) (trim newJql))
                                    choice (views c)) c, true)
                       else (c, true)
                 end
             end
    end.

Definition defaultJql : jsstring :=
  js "(assignee = currentUser() OR reporter = currentUser()) AND updated >= -1h ORDER BY updated DESC".

(** [configureActivity] on the activity section [a] of [c], which the
    wizard takes to be present, for the lines typed at its menu and at the
    interval prompt and the query that [readMultilineJql] resolves with:
    the section afterwards. *)
Definition configureActivity (jira : Jira) (menuAnswer intervalInput jql : jsstring)
    (c : Config) (a : ActivityConfig) : ActivityConfig * bool :=
  if enabled a then
    match Wizard.askMenu menuAnswer
            [js "Disable"; js "Change polling interval"; js "Change JQL"; js "Cancel"] with
    | Some 0%nat => (mkActivityConfig false (pollingIntervalMinutes a) [], true)
    | Some 1%nat =>
        let parsed := parseInt (trim intervalInput) in
        if numberGtZero parsed
        then (mkActivityConfig (enabled a) parsed (activity_jql a), true)
        else (a, false)
    | Some 2%nat =>
        if negb (blank jql) then
          if negb (validateJql jira (domain c) jql (project c)).1 then (a, false)
          else (mkActivityConfig (enabled a) (pollingIntervalMinutes a) (trim jql), true)
        else (a, false)
    | _ => (a, false)
    end
  else
    match Wizard.askMenu menuAnswer
            [js "Enable with defaults"; js "Enable with custom JQL"; js "Cancel"] with
    | Some 0%nat => (mkActivityConfig true (Num 5) defaultJql, true)
    | Some 1%nat =>
        if negb (blank jql) then
          if negb (validateJql jira (domain c) jql (project c)).1 then (a, false)
          else
            let parsed := parseInt (trim intervalInput) in
            (mkActivityConfig true (if numberGtZero parsed then parsed else Num 5)
               (trim jql), true)
        else (a, false)
    | _ => (a, false)
    end.

(** What [configureActivity] does to the configuration. *)
Definition withConfiguredActivity (jira : Jira) (menuAnswer intervalInput jql : jsstring)
    (c : Config) (a : ActivityConfig) : Config :=
  SettingsModal.with_activity
    (Some (configureActivity jira menuAnswer intervalInput jql c a).1) c.

Definition changeProject (newProject confirmAnswer : jsstring) (c : Config)
  : Config * bool :=
  if blank newProject then (c, false)
  else if negb (Wizard.askYesNo confirmAnswer) then (c, false)
  else (SettingsModal.with_project (trim newProject) c, true).

(** One round of the loop of [runFullWizard] that adds views: the name
    typed, the query, and the answer to the question that ends the round
    (whether to try again after a query that is rejected, whether to add
    another view after one that is added). *)
Record Round : Type := mkRound {
  round_name : jsstring;
  round_jql : jsstring;
  round_answer : jsstring
}.

(** The loop, over the rounds still to come; [None] when the input ends
    while the loop is still asking. *)
Fixpoint addViews (jira : Jira) (domain project : jsstring) (rounds : list Round)
    (views : list View) : option (list View) :=
  match rounds with
  | [] => None
  | round :: rest =>
      if blank (round_name round) then addViews jira domain project rest views
      else if blank (round_jql round) then addViews jira domain project rest views
      else if negb (validateJql jira domain (round_jql round) project).1
      then addViews jira domain project rest views
      else
        let views := views ++ [mkView (trim (round_name round)) (trim (round_jql round))] in
        if Wizard.askYesNo (round_answer round)
        then addViews jira domain project rest views
        else Some views
  end.

(** [runFullWizard]: [existing] is what [loadExistingConfig] gives.  The
    result is [None] when the input ends too early, [Some None] when the
    wizard gives up (it returns null). *)
Definition runFullWizard (jira : Jira) (existing : option Config)
    (domainAnswer projectAnswer : jsstring) (rounds : list Round)
    (enableAnswer useDefaultAnswer activityJqlTyped pollingInput : jsstring)
  : option (option Config) :=
  let defaultDomain := from_option (λ c, trim (domain c)) [] existing in
  let domain :=
    trim (if (0 <? length (trim domainAnswer))%nat then trim domainAnswer
          else defaultDomain) in
  if (length domain =? 0)%nat then Some None
  else if blank projectAnswer then Some None
  else
    match addViews jira domain (trim projectAnswer) rounds [] with
    | None => None
    | Some views =>
        if (length views =? 0)%nat then Some None
        else
          let enableActivity := Wizard.askYesNo enableAnswer in
          let activityJql :=
            if enableActivity then
              if Wizard.askYesNo useDefaultAnswer then defaultJql
              else if negb (blank activityJqlTyped) then
                if negb (validateJql jira domain activityJqlTyped (trim projectAnswer)).1
                then defaultJql
                else trim activityJqlTyped
              else defaultJql
            else [] in
          let activityPollingMinutes :=
            if enableActivity then
              let parsed := parseInt (trim pollingInput) in
              if numberGtZero parsed then parsed else Num 5
            else Num 5 in
          Some (Some (mkConfig (trim projectAnswer) domain views
                        (Some (mkActivityConfig enableActivity activityPollingMinutes
                                 activityJql))))
    end.

End ConfigWizard.

(** ** The JQL helper (jql-helper.ts) *)

(** [s.replace(/c/g, by)] for a single code unit [c]. *)
Definition replaceAll (c : N) (replacement : jsstring) (s : jsstring) : jsstring :=
  s ≫= (λ x, if x =? c then replacement else [x]).

(** [s.replace(/\s+/g, " ")]: every run of white space becomes one space,
    put out when the run ends. *)
Fixpoint collapseWhiteSpace (s : jsstring) : jsstring :=
  match s with
  | [] => []
  | c :: s' =>
      if isWhiteSpace c then
        match s' with
        | d :: _ => if isWhiteSpace d then collapseWhiteSpace s'
                    else 32 :: collapseWhiteSpace s'
        | [] => [32]
        end
      else c :: collapseWhiteSpace s'
  end.

(** The last five calls of the chain of [escapeForJson], which deal with
    white space. *)
Definition squeeze (s : jsstring) : jsstring :=
  trim (collapseWhiteSpace (replaceAll 9 [32] (replaceAll 13 [] (replaceAll 10 [32] s)))).

Definition escapeForJson (jql : jsstring) : jsstring :=
  squeeze (replaceAll 34 [92; 34] (replaceAll 92 [92; 92] jql)).

Definition formatConfigEntry (name jql : jsstring) : jsstring :=
  let escaped := escapeForJson jql in
  [123; 10] ++ js "  " ++ [34] ++ js "name" ++ [34] ++ js ": " ++ [34] ++ name ++ [34]
  ++ js "," ++ [10] ++ js "  " ++ [34] ++ js "jql" ++ [34] ++ js ": " ++ [34] ++ escaped
  ++ [34; 10; 125].

(** The variables of the script and its handler of a line: the state
    afterwards and what is printed. *)
Record Helper : Type := mkHelper {
  jqlLines : list jsstring;
  awaitingName : bool;
  collectedJql : jsstring
}.

Definition onLine (line : jsstring) (h : Helper) : Helper * list jsstring :=
  if awaitingName h then
    let name := if (0 <? length (trim line))%nat then trim line else js "My View" in
    (mkHelper [] false [],
     [[10] ++ js "--- Config Entry ---" ++ [10];
      formatConfigEntry name (collectedJql h);
      [10] ++ js "--- Raw Escaped JQL ---" ++ [10];
      escapeForJson (collectedJql h);
      [10];
      js "Enter another JQL query, or Ctrl+C to exit." ++ [10]])
  else if (length line =? 0)%nat then
    if (length (jqlLines h) =? 0)%nat then (h, [])
    else (mkHelper (jqlLines h) true (join [32] (jqlLines h)),
          [[10] ++ js "Enter a name for this view (default: My View):"])
  else (mkHelper (jqlLines h ++ [line]) (awaitingName h) (collectedJql h), []).

(** The value of the contents of a JSON string: a code unit below 32 and
    a bare quote are errors, a backslash starts an escape.  The escapes
    by code point ([\uXXXX]) are not needed to read what [escapeForJson]
    gives and are read as an error here. *)
Definition jsonEscape (e : N) : option N :=
  if e =? 34 then Some 34 else if e =? 92 then Some 92 else if e =? 47 then Some 47
  else if e =? 98 then Some 8 else if e =? 102 then Some 12 else if e =? 110 then Some 10
  else if e =? 114 then Some 13 else if e =? 116 then Some 9 else None.

Fixpoint jsonStringValue (s : jsstring) : option jsstring :=
  match s with
  | [] => Some []
  | c :: rest =>
      if c =? 92 then
        match rest with
        | [] => None
        | e :: rest' =>
            match jsonEscape e with
            | Some d => cons d <$> jsonStringValue rest'
            | None => None
            end
        end
      else if (c <? 32) || (c =? 34) then None
      else cons c <$> jsonStringValue rest
  end.

(** The quote and the backslash written as escapes, every other code
    unit as it is. *)
Definition escapeUnit (x : N) : jsstring :=
  if x =? 92 then [92; 92] else if x =? 34 then [92; 34] else [x].

(** The lines [lines] typed into the helper one after the other: the
    variables afterwards and all that is printed. *)
Definition typeLines (lines : list jsstring) (h : Helper) : Helper * list jsstring :=
  foldl (λ run line, ((onLine line run.1).1, run.2 ++ (onLine line run.1).2)) (h, []) lines.

(** * Properties *)

#[global] Arguments isWhiteSpace : simpl never.
#[global] Arguments isWordChar : simpl never.
#[global] Arguments ciEq : simpl never.
#[global] Arguments js : simpl never.

(** ** Strings *)

Lemma trimStart_app_nonspace (ws s : jsstring) :
  Forall (λ c, isWhiteSpace c = true) ws →
  (∀ c, head s = Some c → isWhiteSpace c = false) →
  trimStart (ws ++ s) = s.
Proof.
  intros Hws Hs. induction Hws as [|c ws Hc _ IH]; simpl.
  - destruct s as [|c s]; [done|]. simpl. by rewrite (Hs c eq_refl).
  - by rewrite Hc.
Qed.

Lemma trimStart_split (s : jsstring) :
  ∃ ws, s = ws ++ trimStart s ∧ Forall (λ c, isWhiteSpace c = true) ws.
Proof.
  induction s as [|c s [ws [IH1 IH2]]]; simpl.
  - by exists [].
  - destruct (isWhiteSpace c) eqn:Hc.
    + exists (c :: ws). split; [by simpl; rewrite <- IH1 | by constructor].
    + by exists [].
Qed.

Lemma trimStart_head (s : jsstring) (c : N) :
  head (trimStart s) = Some c → isWhiteSpace c = false.
Proof.
  induction s as [|d s IH]; simpl; [done|].
  destruct (isWhiteSpace d) eqn:Hd; [done|]. simpl. by intros [= <-].
Qed.

Lemma trimStart_nonspace (c : N) (s : jsstring) :
  isWhiteSpace c = false → trimStart (c :: s) = c :: s.
Proof. intros H. simpl. by rewrite H. Qed.

Lemma trimStart_idemp (s : jsstring) : trimStart (trimStart s) = trimStart s.
Proof.
  induction s as [|c s IH]; simpl; [done|].
  destruct (isWhiteSpace c) eqn:Hc; [done|]. simpl. by rewrite Hc.
Qed.

Lemma ciEq_spec (lower c : N) : ciEq lower c = true ↔ ciChar lower c.
Proof.
  unfold ciEq, ciChar. rewrite orb_true_iff, !N.eqb_eq. tauto.
Qed.

Lemma matchLit_spec (lit s rest : jsstring) :
  matchLit lit s = Some rest ↔ ∃ kw, s = kw ++ rest ∧ Forall2 ciChar lit kw.
Proof.
  revert s. induction lit as [|l lit IH]; intros s; simpl.
  - split.
    + intros [= ->]. by exists [].
    + intros (kw & -> & Hkw). by inversion Hkw.
  - destruct s as [|c s].
    + split; [done|]. intros (kw & Hs & Hkw). inversion Hkw; subst. done.
    + destruct (ciEq l c) eqn:Hc.
      * rewrite IH. apply ciEq_spec in Hc. split.
        -- intros (kw & -> & Hkw). exists (c :: kw). split; [done|]. by constructor.
        -- intros (kw & Hs & Hkw). inversion Hkw as [|? c' ? kw' Hc' Hkw']; subst.
           simplify_eq/=. by exists kw'.
      * split; [done|]. intros (kw & Hs & Hkw).
        inversion Hkw as [|? c' ? kw' Hc' Hkw']; subst. simplify_eq/=.
        apply ciEq_spec in Hc'. congruence.
Qed.

(** ** The pattern *)

Lemma matchHere_nil pw : matchHere pw [] = false.
Proof. unfold matchHere. by destruct pw. Qed.

Lemma ciChar_letter_not_space (lower c : N) :
  97 ≤ lower → lower ≤ 122 → ciChar lower c → isWhiteSpace c = false.
Proof.
  intros Hlo Hhi [-> | ->]; unfold isWhiteSpace;
    repeat (apply orb_false_intro); try apply andb_false_iff;
    rewrite ?N.eqb_neq, ?N.leb_gt; lia.
Qed.

Lemma ciChar_letter_word (lower c : N) :
  97 ≤ lower → lower ≤ 122 → ciChar lower c → isWordChar c = true.
Proof.
  intros Hlo Hhi [-> | ->]; unfold isWordChar;
    rewrite !orb_true_iff, !andb_true_iff, !N.leb_le; lia.
Qed.

(** The declarative reading of a match at the front of [s]. *)
Lemma matchHere_spec (prevWord : bool) (s : jsstring) :
  matchHere prevWord s = true ↔
  prevWord = false ∧
  ∃ kw1 ws kw2 post,
    s = kw1 ++ ws ++ kw2 ++ post
    ∧ Forall2 ciChar (js "order") kw1
    ∧ ws ≠ [] ∧ Forall (λ c, isWhiteSpace c = true) ws
    ∧ Forall2 ciChar (js "by") kw2
    ∧ (∀ c, head post = Some c → isWordChar c = false).
Proof.
  unfold matchHere. split.
  - intros H. apply andb_true_iff in H as [Hpw H]. apply negb_true_iff in Hpw.
    split; [done|].
    destruct (matchLit (js "order") s) as [[|c s1]|] eqn:H1; try done.
    apply andb_true_iff in H as [Hc H].
    destruct (matchLit (js "by") (trimStart s1)) as [s2|] eqn:H2; [|done].
    apply matchLit_spec in H1 as (kw1 & -> & Hkw1).
    apply matchLit_spec in H2 as (kw2 & Hs1 & Hkw2).
    destruct (trimStart_split s1) as (ws & Hws & Hall).
    exists kw1, (c :: ws), kw2, s2. repeat split; try done.
    + simpl. by rewrite <- Hs1, <- Hws.
    + by constructor.
    + intros d Hd. destruct s2 as [|d' s2]; [done|]. simpl in Hd. simplify_eq.
      by apply negb_true_iff.
  - intros (-> & kw1 & ws & kw2 & post & -> & Hkw1 & Hne & Hws & Hkw2 & Hpost).
    destruct ws as [|c ws]; [done|]. inversion Hws as [|? ? Hc Hws']; subst.
    assert (matchLit (js "order") (kw1 ++ (c :: ws) ++ kw2 ++ post)
            = Some (c :: ws ++ kw2 ++ post)) as ->.
    { apply matchLit_spec. by exists kw1. }
    rewrite Hc. cbn [andb].
    rewrite trimStart_app_nonspace; [ | done | ].
    + assert (matchLit (js "by") (kw2 ++ post) = Some post) as ->.
      { apply matchLit_spec. by exists kw2. }
      destruct post as [|d post]; [done|]. apply negb_true_iff. by apply Hpost.
    + intros d Hd. inversion Hkw2 as [|? b ? kw2' Hb _]; subst. simpl in Hd. simplify_eq.
      apply (ciChar_letter_not_space 98); [lia | lia | done].
Qed.

Lemma wordBeforeFrom_app (pre rest : jsstring) :
  wordBefore (pre ++ rest) (length pre) = from_option isWordChar false (last pre).
Proof.
  unfold wordBefore. destruct pre as [|c pre _] using rev_ind; [done|].
  rewrite length_app, last_snoc. simpl. rewrite Nat.add_1_r. simpl.
  rewrite <- (assoc_L (++)). simpl. by rewrite list_lookup_middle.
Qed.

Lemma OrderByAt_matchAt (q : jsstring) (i : nat) :
  OrderByAt q i ↔ matchAt q i = true.
Proof.
  unfold OrderByAt, matchAt. rewrite matchHere_spec. split.
  - intros (pre & kw1 & ws & kw2 & post & -> & <- & Hkw1 & Hne & Hws & Hkw2 & Hpre & Hpost).
    rewrite wordBeforeFrom_app, drop_app_length. split.
    + destruct (last pre) as [c|]; [by apply Hpre | done].
    + by exists kw1, ws, kw2, post.
  - intros (Hpre & kw1 & ws & kw2 & post & Hq & Hkw1 & Hne & Hws & Hkw2 & Hpost).
    assert (i < length q)%nat as Hi.
    { destruct (decide (i < length q)%nat); [done|].
      rewrite drop_ge in Hq by lia. inversion Hkw1; subst. done. }
    exists (take i q), kw1, ws, kw2, post. repeat split; try done.
    + by rewrite <- Hq, take_drop.
    + rewrite length_take. lia.
    + intros c Hc.
      pose proof (wordBeforeFrom_app (take i q) (drop i q)) as Hw.
      rewrite take_drop, length_take, Nat.min_l, Hc in Hw by lia.
      simpl in Hw. congruence.
Qed.

Lemma wordBeforeFrom_cons (prevWord : bool) (c : N) (s : jsstring) (d : nat) :
  wordBeforeFrom prevWord (c :: s) (S d) = wordBeforeFrom (isWordChar c) s d.
Proof. by destruct d. Qed.

(** [execFrom] returns the offset of the leftmost match. *)
Lemma execFrom_Some (prevWord : bool) (s : jsstring) (k i : nat) :
  execFrom prevWord s k = Some i ↔
  ∃ d, i = (k + d)%nat
       ∧ matchHere (wordBeforeFrom prevWord s d) (drop d s) = true
       ∧ ∀ d', (d' < d)%nat → matchHere (wordBeforeFrom prevWord s d') (drop d' s) = false.
Proof.
  revert prevWord k. induction s as [|c s IH]; intros prevWord k.
  - simpl. split; [done|]. intros (d & _ & H & _).
    rewrite drop_nil, matchHere_nil in H. done.
  - cbn [execFrom]. destruct (matchHere prevWord (c :: s)) eqn:Hm.
    + split.
      * intros [= <-]. exists 0%nat. split; [lia|]. split; [done|]. intros; lia.
      * intros (d & -> & Hd & Hmin). destruct d as [|d]; [f_equal; lia|].
        specialize (Hmin 0%nat ltac:(lia)). simpl in Hmin. congruence.
    + rewrite IH. split.
      * intros (d & -> & Hd & Hmin). exists (S d). split; [lia|].
        rewrite wordBeforeFrom_cons. split; [done|].
        intros [|d'] Hlt; [done|]. rewrite wordBeforeFrom_cons. apply Hmin. lia.
      * intros (d & -> & Hd & Hmin). destruct d as [|d]; [simpl in Hd; congruence|].
        exists d. split; [lia|]. rewrite wordBeforeFrom_cons in Hd. split; [done|].
        intros d' Hlt. specialize (Hmin (S d') ltac:(lia)).
        by rewrite wordBeforeFrom_cons in Hmin.
Qed.

Lemma execFrom_None (prevWord : bool) (s : jsstring) (k : nat) :
  execFrom prevWord s k = None ↔
  ∀ d, matchHere (wordBeforeFrom prevWord s d) (drop d s) = false.
Proof.
  revert prevWord k. induction s as [|c s IH]; intros prevWord k.
  - simpl. split; [|done]. intros _ d. by rewrite drop_nil, matchHere_nil.
  - cbn [execFrom]. destruct (matchHere prevWord (c :: s)) eqn:Hm.
    + split; [done|]. intros H. specialize (H 0%nat). simpl in H. congruence.
    + rewrite IH. split.
      * intros H [|d]; [done|]. rewrite wordBeforeFrom_cons. apply H.
      * intros H d. specialize (H (S d)). by rewrite wordBeforeFrom_cons in H.
Qed.

(** [exec] finds the first keyword, and none only when there is none. *)
Lemma execOrderBy_Some (q : jsstring) (i : nat) :
  execOrderBy q = Some i ↔ FirstOrderByAt q i.
Proof.
  unfold execOrderBy, FirstOrderByAt. rewrite execFrom_Some. split.
  - intros (d & -> & Hd & Hmin). simpl. split.
    + by apply OrderByAt_matchAt.
    + intros j Hj Hat. apply OrderByAt_matchAt in Hat.
      unfold matchAt, wordBefore in Hat. rewrite Hmin in Hat; done.
  - intros [Hat Hmin]. exists i. split; [done|]. split.
    + by apply OrderByAt_matchAt.
    + intros j Hj. apply not_true_is_false. intros Hj'. apply (Hmin j Hj).
      by apply OrderByAt_matchAt.
Qed.

Lemma execOrderBy_None (q : jsstring) :
  execOrderBy q = None ↔ ∀ i, ¬ OrderByAt q i.
Proof.
  unfold execOrderBy. rewrite execFrom_None. split.
  - intros H i Hat. apply OrderByAt_matchAt in Hat.
    unfold matchAt, wordBefore in Hat. by rewrite H in Hat.
  - intros H d. apply not_true_is_false. intros Hat. apply (H d).
    by apply OrderByAt_matchAt.
Qed.

(** ** Scoping a query to the project *)

Lemma trimStart_nil_iff (s : jsstring) :
  trimStart s = [] ↔ Forall (λ c, isWhiteSpace c = true) s.
Proof.
  induction s as [|c s IH]; simpl; [done|].
  destruct (isWhiteSpace c) eqn:Hc.
  - rewrite IH. split; [by constructor | by inversion 1].
  - split; [done|]. inversion 1; congruence.
Qed.

Lemma trimEnd_nil_iff (s : jsstring) :
  trimEnd s = [] ↔ Forall (λ c, isWhiteSpace c = true) s.
Proof.
  unfold trimEnd. rewrite <- (reverse_involutive []) at 1.
  split.
  - intros H. apply (inj reverse) in H. apply trimStart_nil_iff in H.
    rewrite <- (reverse_involutive s). by apply Forall_reverse.
  - intros H. f_equal. apply trimStart_nil_iff. by apply Forall_reverse.
Qed.

Lemma trim_nil_iff (s : jsstring) :
  trim s = [] ↔ Forall (λ c, isWhiteSpace c = true) s.
Proof.
  unfold trim. rewrite trimEnd_nil_iff. split.
  - intros H. destruct (trimStart_split s) as (ws & Hs & Hws).
    rewrite Hs. by apply Forall_app.
  - intros H. destruct (trimStart_split s) as (ws & Hs & Hws).
    rewrite Hs in H. by apply Forall_app in H as [_ H].
Qed.

Lemma length_eqb_0 {A} (l : list A) : (length l =? 0)%nat = bool_decide (l = []).
Proof. by destruct l. Qed.

Lemma OrderByAt_drop_head (q : jsstring) (i : nat) :
  OrderByAt q i →
  ∃ c rest, drop i q = c :: rest ∧ isWhiteSpace c = false ∧ isWordChar c = true.
Proof.
  intros (pre & kw1 & ws & kw2 & post & -> & <- & Hkw1 & _).
  rewrite drop_app_length. inversion Hkw1 as [|? c ? kw1' Hc _]; subst.
  exists c, (kw1' ++ ws ++ kw2 ++ post). split; [done|]. split.
  - apply (ciChar_letter_not_space 111); [lia | lia | done].
  - apply (ciChar_letter_word 111); [lia | lia | done].
Qed.

Lemma splitOrderBy_none (q : jsstring) :
  (∀ i, ¬ OrderByAt q i) → splitOrderBy q = (trim q, []).
Proof. intros H. apply execOrderBy_None in H. unfold splitOrderBy. by rewrite H. Qed.

Lemma splitOrderBy_first (q : jsstring) (i : nat) :
  FirstOrderByAt q i → splitOrderBy q = (trim (take i q), trim (drop i q)).
Proof. intros H. apply execOrderBy_Some in H. unfold splitOrderBy. by rewrite H. Qed.

Lemma inject_scoped (q p : jsstring) :
  injectProjectConstraintAtEnd q p
  = match (splitOrderBy q).2 with
    | [] => scoped (splitOrderBy q).1 p
    | orderBy => scoped (splitOrderBy q).1 p ++ js " " ++ orderBy
    end.
Proof.
  unfold injectProjectConstraintAtEnd, scoped.
  destruct (splitOrderBy q) as [[|c conditions] [|o orderBy]]; simpl; try done.
  all: by rewrite <- ?(assoc_L (++)).
Qed.

(** C1.  [injectProjectConstraintAtEnd] (ScopeToProject) splits the query
    at the first keyword ORDER BY, matched in either case between word
    boundaries: without a keyword the whole trimmed query is the
    conditions clause and nothing is appended; with the first keyword at
    index [i] the conditions clause is the trimmed text before [i] and the
    ordering clause, the trimmed text from [i] on, is not empty and follows
    the scoped conditions after one space.  An empty conditions clause is
    scoped to "project = p", any other to "(conditions) AND project = p".
    The two worked queries of the specification give the stated results. *)
Theorem C1_scope_to_project :
  (∀ q p : jsstring,
     ((∀ i, ¬ OrderByAt q i) →
        injectProjectConstraintAtEnd q p = scoped (trim q) p)
     ∧ (∀ i, FirstOrderByAt q i →
          trim (drop i q) ≠ []
          ∧ injectProjectConstraintAtEnd q p
            = scoped (trim (take i q)) p ++ js " " ++ trim (drop i q)))
  ∧ (∀ p : jsstring, scoped [] p = js "project = " ++ p)
  ∧ (∀ c conditions p,
       scoped (c :: conditions) p = js "(" ++ (c :: conditions) ++ js ") AND project = " ++ p)
  ∧ injectProjectConstraintAtEnd (js "status = Open ORDER BY created DESC") (js "PROJ")
    = js "(status = Open) AND project = PROJ ORDER BY created DESC"
  ∧ injectProjectConstraintAtEnd (js "") (js "PROJ") = js "project = PROJ".
Proof.
  split; [|repeat split; vm_compute; reflexivity].
  intros q p. split.
  - intros Hnone. by rewrite inject_scoped, splitOrderBy_none.
  - intros i Hfirst.
    assert (trim (drop i q) ≠ []) as Hne.
    { intros Hnil. apply trim_nil_iff in Hnil.
      destruct (OrderByAt_drop_head q i (proj1 Hfirst)) as (c & rest & Hd & Hc & _).
      rewrite Hd in Hnil. inversion Hnil; congruence. }
    split; [done|].
    rewrite inject_scoped, (splitOrderBy_first q i Hfirst). simpl.
    by destruct (trim (drop i q)).
Qed.

Lemma C1_scope_to_project_witness :
  FirstOrderByAt (js "a = 1  order   by x ") 7
  ∧ injectProjectConstraintAtEnd (js "a = 1  order   by x ") (js "P")
    = scoped (trim (take 7 (js "a = 1  order   by x "))) (js "P")
      ++ js " " ++ trim (drop 7 (js "a = 1  order   by x ")).
Proof.
  assert (FirstOrderByAt (js "a = 1  order   by x ") 7) as H.
  { apply execOrderBy_Some. vm_compute. reflexivity. }
  split; [exact H|].
  exact (proj2 (proj2 (proj1 C1_scope_to_project (js "a = 1  order   by x ") (js "P")) 7%nat H)).
Defined.

Example inject_plain :
  injectProjectConstraintAtEnd (js "status = Open") (js "PROJ")
  = js "(status = Open) AND project = PROJ".
Proof. vm_compute. reflexivity. Qed.

Example inject_spaces_and_case :
  injectProjectConstraintAtEnd (js "  a = 1   oRdEr    bY  x  ") (js "P")
  = js "(a = 1) AND project = P oRdEr    bY  x".
Proof. vm_compute. reflexivity. Qed.

Example inject_no_word_boundary :
  injectProjectConstraintAtEnd (js "reorder by x") (js "P")
  = js "(reorder by x) AND project = P".
Proof. vm_compute. reflexivity. Qed.

Example inject_only_ordering :
  injectProjectConstraintAtEnd (js "order by created") (js "P")
  = js "project = P order by created".
Proof. vm_compute. reflexivity. Qed.

(** ** Scoping twice *)

















Lemma trimEnd_split (s : jsstring) :
  ∃ ws, s = trimEnd s ++ ws ∧ Forall (λ c, isWhiteSpace c = true) ws.
Proof.
  unfold trimEnd. destruct (trimStart_split (reverse s)) as (ws & Hs & Hws).
  exists (reverse ws). split; [|by apply Forall_reverse].
  rewrite <- reverse_app, <- Hs. by rewrite reverse_involutive.
Qed.

Lemma trimEnd_last (s : jsstring) (c : N) :
  last (trimEnd s) = Some c → isWhiteSpace c = false.
Proof. unfold trimEnd. rewrite last_reverse. apply trimStart_head. Qed.

Lemma trimEnd_id (s : jsstring) :
  (∀ c, last s = Some c → isWhiteSpace c = false) → trimEnd s = s.
Proof.
  intros H. unfold trimEnd. rewrite <- (reverse_involutive s) at 2. f_equal.
  destruct (reverse s) as [|c r] eqn:Hr; [done|].
  apply trimStart_nonspace. apply H. by rewrite <- head_reverse, Hr.
Qed.

Lemma trimStart_id (s : jsstring) :
  (∀ c, head s = Some c → isWhiteSpace c = false) → trimStart s = s.
Proof. intros H. destruct s as [|c s]; [done|]. apply trimStart_nonspace. by apply H. Qed.

Lemma trimEnd_app_spaces (s ws : jsstring) :
  Forall (λ c, isWhiteSpace c = true) ws → trimEnd (s ++ ws) = trimEnd s.
Proof.
  intros Hws. unfold trimEnd. f_equal. rewrite reverse_app.
  induction (reverse ws) as [|c r IH] eqn:Hr in ws, Hws |- *; [done|].
  assert (Forall (λ c, isWhiteSpace c = true) (c :: r)) as Hall.
  { rewrite <- Hr. by apply Forall_reverse. }
  inversion Hall as [|? ? Hc Hr']; subst. simpl. rewrite Hc.
  apply (IH (reverse r)); [by apply Forall_reverse | by rewrite reverse_involutive].
Qed.

Lemma trim_split (s : jsstring) :
  ∃ lead trail, s = lead ++ trim s ++ trail
    ∧ Forall (λ c, isWhiteSpace c = true) lead
    ∧ Forall (λ c, isWhiteSpace c = true) trail.
Proof.
  destruct (trimStart_split s) as (lead & Hs & Hlead).
  destruct (trimEnd_split (trimStart s)) as (trail & Ht & Htrail).
  exists lead, trail. split; [|done]. unfold trim. by rewrite <- Ht.
Qed.

Lemma trim_head (s : jsstring) (c : N) : head (trim s) = Some c → isWhiteSpace c = false.
Proof.
  unfold trim. intros Hc. destruct (trimEnd_split (trimStart s)) as (ws & Hs & _).
  apply (trimStart_head s). rewrite Hs.
  destruct (trimEnd (trimStart s)); [done|]. exact Hc.
Qed.

Lemma trim_last (s : jsstring) (c : N) : last (trim s) = Some c → isWhiteSpace c = false.
Proof. apply trimEnd_last. Qed.

Lemma trim_id (s : jsstring) :
  (∀ c, head s = Some c → isWhiteSpace c = false) →
  (∀ c, last s = Some c → isWhiteSpace c = false) → trim s = s.
Proof. intros Hh Hl. unfold trim. rewrite trimStart_id by done. by apply trimEnd_id. Qed.

Lemma trim_idemp (s : jsstring) : trim (trim s) = trim s.
Proof. apply trim_id; [apply trim_head | apply trim_last]. Qed.

























(** With an empty project key, or one that holds the keyword, the second
    application wraps something else than the first one's scoped
    conditions. *)
Example double_scoping_odd_keys :
  (splitOrderBy (injectProjectConstraintAtEnd (js "x") (js ""))).1
  = js "(x) AND project ="
  ∧ scoped (splitOrderBy (js "x")).1 (js "") = js "(x) AND project = "
  ∧ injectProjectConstraintAtEnd
      (injectProjectConstraintAtEnd (js "a") (js "X ORDER BY y")) (js "X ORDER BY y")
    = js "((a) AND project = X) AND project = X ORDER BY y ORDER BY y".
Proof. vm_compute. repeat split. Qed.

(** ** The new-issue tracker *)

Lemma trackLoop_known (isInitial : bool) (issues : list JiraIssue)
    (known : gset jsstring) (newIds : list jsstring) :
  (trackLoop isInitial issues known newIds).1 = known ∪ issueIds issues.
Proof.
  unfold issueIds. revert known newIds.
  induction issues as [|issue rest IH]; intros known newIds; simpl.
  - set_solver.
  - rewrite IH. set_solver.
Qed.

Lemma trackLoop_initial (issues : list JiraIssue) (known : gset jsstring)
    (newIds : list jsstring) :
  (trackLoop true issues known newIds).2 = newIds.
Proof.
  revert known newIds. induction issues as [|issue rest IH]; intros known newIds; simpl; [done|].
  by rewrite IH.
Qed.

Lemma trackLoop_reported (issues : list JiraIssue) (known : gset jsstring)
    (newIds : list jsstring) (x : jsstring) :
  x ∈ (trackLoop false issues known newIds).2
  ↔ x ∈ newIds ∨ (x ∈ issueIds issues ∧ x ∉ known).
Proof.
  unfold issueIds. revert known newIds.
  induction issues as [|issue rest IH]; intros known newIds; simpl.
  - set_solver.
  - rewrite IH. clear IH.
    change (list_fmap JiraIssue jsstring issue_id rest) with (issue_id <$> rest).
    generalize (list_to_set (issue_id <$> rest) : gset jsstring). intros ids.
    case_bool_decide; simpl;
      rewrite ?elem_of_app, ?list_elem_of_singleton, !elem_of_union, !elem_of_singleton;
      destruct (decide (x = issue_id issue)) as [->|]; tauto.
Qed.

Lemma trackLoop_NoDup (issues : list JiraIssue) (known : gset jsstring)
    (newIds : list jsstring) :
  NoDup newIds → (∀ x, x ∈ newIds → x ∈ known) →
  NoDup (trackLoop false issues known newIds).2.
Proof.
  revert known newIds. induction issues as [|issue rest IH]; intros known newIds Hnd Hin; simpl.
  - done.
  - apply IH.
    + case_bool_decide; simpl; [done|].
      apply NoDup_app. split; [done|]. split; [|apply NoDup_singleton].
      intros x Hx Hx'. apply list_elem_of_singleton in Hx' as ->. auto.
    + intros x. case_bool_decide; simpl; [set_solver|].
      rewrite elem_of_app. set_solver.
Qed.

Lemma reportedNew_initial (issues : list JiraIssue) (st : App) :
  reportedNew issues true st = [].
Proof. apply trackLoop_initial. Qed.

Lemma reportedNew_spec (issues : list JiraIssue) (st : App) (x : jsstring) :
  x ∈ reportedNew issues false st ↔ x ∈ issueIds issues ∧ x ∉ knownIssueIds st.
Proof. unfold reportedNew. rewrite trackLoop_reported. set_solver. Qed.

Lemma trackNewIssues_known (issues : list JiraIssue) (isInitial : bool) (st : App) :
  knownIssueIds (trackNewIssues issues isInitial st) = knownIssueIds st ∪ issueIds issues.
Proof.
  unfold trackNewIssues. pose proof (trackLoop_known isInitial issues (knownIssueIds st) []) as H.
  destruct (trackLoop isInitial issues (knownIssueIds st) []) as [known newIds].
  simpl in H. subst known. by destruct (0 <? length newIds)%nat.
Qed.

Lemma trackNewIssues_newIssueIds (issues : list JiraIssue) (isInitial : bool) (st : App) :
  newIssueIds (trackNewIssues issues isInitial st)
  = newIssueIds st ∪ list_to_set (reportedNew issues isInitial st).
Proof.
  unfold trackNewIssues, reportedNew.
  destruct (trackLoop isInitial issues (knownIssueIds st) []) as [known newIds]. simpl.
  destruct newIds as [|x newIds]; simpl; [set_solver | done].
Qed.

(** ** The seen ids only grow *)

Lemma tracks_refl (st : App) : tracks st st.
Proof. split; [done | by left]. Qed.

Lemma tracks_trans (st1 st2 st3 : App) : tracks st1 st2 → tracks st2 st3 → tracks st1 st3.
Proof.
  intros [Hk Hn] [Hk' Hn']. split; [by etrans|].
  intros x Hx. destruct (Hn' x Hx) as [Hx'|Hx'].
  - by apply Hn.
  - right. intros Hk1. apply Hx'. by apply Hk.
Qed.

Lemma tracks_same (st st' : App) :
  knownIssueIds st' = knownIssueIds st → newIssueIds st' = newIssueIds st → tracks st st'.
Proof. intros Hk Hn. split; [by rewrite Hk | intros x; rewrite Hn; by left]. Qed.

Lemma tracks_cleared (st st' : App) :
  knownIssueIds st' = knownIssueIds st → newIssueIds st' = ∅ → tracks st st'.
Proof. intros Hk Hn. split; [by rewrite Hk | intros x; rewrite Hn; set_solver]. Qed.

Lemma tracks_trackNewIssues (issues : list JiraIssue) (isInitial : bool) (st : App) :
  tracks st (trackNewIssues issues isInitial st).
Proof.
  split.
  - rewrite trackNewIssues_known. set_solver.
  - intros x. rewrite trackNewIssues_newIssueIds, elem_of_union, elem_of_list_to_set.
    intros [Hx|Hx]; [by left|]. right. destruct isInitial.
    + by rewrite reportedNew_initial in Hx; apply elem_of_nil in Hx.
    + by apply reportedNew_spec in Hx as [_ Hx].
Qed.

Lemma tracking_ret {A} (a : A) : tracking (ret a).
Proof. intros st. apply tracks_refl. Qed.

Lemma tracking_bind {A B} (m : M A) (k : A → M B) :
  tracking m → (∀ a, tracking (k a)) → tracking (bind m k).
Proof.
  intros Hm Hk st. unfold bind. specialize (Hm st).
  destruct (m st) as [st' [a|message]]; simpl in *; [|done].
  eapply tracks_trans; [done | apply Hk].
Qed.

Lemma tracking_modify (f : App → App) : (∀ st, tracks st (f st)) → tracking (modify f).
Proof. intros Hf st. apply Hf. Qed.

Lemma tracking_search (jira : Jira) (tab : nat) (p jql : jsstring) :
  tracking (searchWithProjectConstraint jira tab p jql).
Proof. intros st. by apply tracks_same. Qed.

Lemma tracking_fetchIssuesForTab (jira : Jira) (i : nat) :
  tracking (fetchIssuesForTab jira i).
Proof.
  intros st. unfold fetchIssuesForTab.
  set (st0 := if jiraClient st then st else set_jiraClient true st).
  assert (tracks st st0) as H0 by (unfold st0; destruct (jiraClient st); by apply tracks_same).
  assert (config st0 = config st) as -> by (unfold st0; by destruct (jiraClient st)).
  eapply tracks_trans; [exact H0|].
  destruct (activity (config st)) as [a|]; [case_bool_decide|];
    try destruct (views (config st) !! i);
    first [apply tracking_search | apply tracking_ret].
Qed.

Lemma tracking_fetchTabs (jira : Jira) (now : Z) (isInitial force : bool)
    (indices : list nat) (newCache : gmap nat IssueCacheEntry) (didFetch : bool) :
  tracking (fetchTabs jira now isInitial force indices newCache didFetch).
Proof.
  revert newCache didFetch.
  induction indices as [|i rest IH]; intros newCache didFetch st; simpl.
  - apply tracks_refl.
  - case_bool_decide; [apply IH|].
    destruct (freshEntry isInitial force now (issueCacheRef st !! i)); [apply IH|].
    apply tracking_bind; [apply tracking_modify; intros; by apply tracks_same|].
    intros _. apply tracking_bind; [apply tracking_fetchIssuesForTab|].
    intros issues. apply tracking_bind.
    + apply tracking_modify. apply tracks_trackNewIssues.
    + intros _. apply IH.
Qed.

Lemma tracks_fetchAllTabs (jira : Jira) (now later : Z) (isInitial force : bool) (st : App) :
  tracks st (fetchAllTabs jira now later isInitial force st).
Proof.
  unfold fetchAllTabs.
  pose proof (tracking_fetchTabs jira now isInitial force
                (seq 0 (length (tabs (config st)))) ∅ false st) as H.
  destruct (fetchTabs _ _ _ _ _ _ _ st) as [st' [[newCache didFetch]|message]]; simpl in H.
  - eapply tracks_trans; [exact H|]. apply tracks_same; by destruct (didFetch || isInitial).
  - eapply tracks_trans; [exact H|]. by apply tracks_same.
Qed.

Lemma tracks_fetchActivityIssues (jira : Jira) (now : Z) (isInitial : bool) (st : App) :
  tracks st (fetchActivityIssues jira now isInitial st).
Proof.
  unfold fetchActivityIssues.
  destruct (activity (config st)) as [a|]; [|apply tracks_refl].
  destruct (activityTabIndex (config st)) as [index|]; [|apply tracks_refl].
  destruct (jiraClient st); [|apply tracks_refl].
  pose proof (tracking_search jira index (project (config st)) (activity_jql a) st) as H.
  destruct (searchWithProjectConstraint _ _ _ _ st) as [st' [issues|message]]; simpl in H.
  - eapply tracks_trans; [exact H|].
    eapply tracks_trans; [apply (tracks_trackNewIssues issues isInitial)|]. by apply tracks_same.
  - eapply tracks_trans; [exact H|]. by apply tracks_same.
Qed.

Lemma tracks_handleSettingsSave (newConfig : Config) (st : App) :
  tracks st (handleSettingsSave newConfig st).
Proof. by apply tracks_cleared. Qed.

Lemma tracks_validateAndFetch (jira : Jira) (now later : Z) (st : App) :
  tracks st (validateAndFetch jira now later st).
Proof.
  unfold validateAndFetch.
  destruct (validationDone st); [apply tracks_refl|].
  destruct (0 <? length _)%nat; [by apply tracks_same|].
  simpl. destruct (prevalidatedInitial st).
  - eapply tracks_trans; [|apply tracks_fetchAllTabs]. by apply tracks_same.
  - match goal with |- context [if (length ?l =? 0)%nat then _ else _] =>
      destruct (length l =? 0)%nat end.
    + apply tracks_same; by destruct (jiraClient st).
    + match goal with |- context [validateJql ?j ?qs] => destruct (validateJql j qs) end.
      * match goal with |- context [existsb ?f ?l] => destruct (existsb f l) end.
        -- apply tracks_same; by destruct (jiraClient st).
        -- eapply tracks_trans; [|apply tracks_fetchAllTabs].
           apply tracks_same; by destruct (jiraClient st).
      * apply tracks_same; by destruct (jiraClient st).
Qed.

Lemma tracks_handle (ev : AppEvent) (st : App) : tracks st (handle ev st).
Proof.
  destruct ev; simpl.
  - apply tracks_validateAndFetch.
  - apply tracks_fetchAllTabs.
  - apply tracks_fetchActivityIssues.
  - apply tracks_fetchActivityIssues.
  - destruct (mainKeys st); [|apply tracks_refl].
    eapply tracks_trans; [|apply tracks_fetchAllTabs]. by apply tracks_same.
  - destruct (mainKeys st); [by apply tracks_cleared | apply tracks_refl].
  - destruct (mainKeys st); [by apply tracks_same | apply tracks_refl].
  - destruct (mainKeys st); [by apply tracks_same | apply tracks_refl].
  - destruct (negb (showSettings st) && showJqlModal st);
      [by apply tracks_same | apply tracks_refl].
  - destruct (showSettings st); [apply tracks_handleSettingsSave | apply tracks_refl].
  - by apply tracks_same.
Qed.

Lemma tracks_step (ev : AppEvent) (st : App) : tracks st (step ev st).
Proof.
  unfold step. eapply tracks_trans; [apply tracks_handle|]. by apply tracks_same.
Qed.

Lemma tracks_run (evs : list AppEvent) (st : App) : tracks st (run evs st).
Proof.
  unfold run. revert st. induction evs as [|ev evs IH]; intros st; simpl.
  - apply tracks_refl.
  - eapply tracks_trans; [apply tracks_step | apply IH].
Qed.

(** C3.  [trackNewIssues] (the fold of an issue list into the tracker):
    on an initial load every id joins the seen ids and none is reported
    as new, so the highlighted set is unchanged; otherwise exactly the ids
    of the list that were not among the seen ids before the fold are
    reported (each once), they join the highlighted set, and every id of
    the list joins the seen ids.  Feeding [A, B] as an initial load and
    then [A, B, C] reports exactly C; feeding [A, B, C] again reports
    nothing. *)
Theorem C3_new_issue_tracker :
  (∀ (issues : list JiraIssue) (st : App),
     reportedNew issues true st = []
     ∧ newIssueIds (trackNewIssues issues true st) = newIssueIds st
     ∧ knownIssueIds (trackNewIssues issues true st) = knownIssueIds st ∪ issueIds issues)
  ∧ (∀ (issues : list JiraIssue) (st : App),
       (∀ x, x ∈ reportedNew issues false st
             ↔ x ∈ issueIds issues ∧ x ∉ knownIssueIds st)
       ∧ NoDup (reportedNew issues false st)
       ∧ newIssueIds (trackNewIssues issues false st)
         = newIssueIds st ∪ list_to_set (reportedNew issues false st)
       ∧ knownIssueIds (trackNewIssues issues false st)
         = knownIssueIds st ∪ issueIds issues)
  ∧ (∀ (a b c : JiraIssue) (st : App),
       issue_id c ≠ issue_id a → issue_id c ≠ issue_id b →
       issue_id c ∉ knownIssueIds st →
       let st1 := trackNewIssues [a; b] true st in
       let st2 := trackNewIssues [a; b; c] false st1 in
       reportedNew [a; b; c] false st1 = [issue_id c]
       ∧ newIssueIds st2 = newIssueIds st ∪ {[issue_id c]}
       ∧ reportedNew [a; b; c] false st2 = []).
Proof.
  split; [|split].
  - intros issues st. split; [apply reportedNew_initial|]. split.
    + rewrite trackNewIssues_newIssueIds, reportedNew_initial. set_solver.
    + apply trackNewIssues_known.
  - intros issues st. split; [apply reportedNew_spec|]. split.
    + apply trackLoop_NoDup; [apply NoDup_nil_2 | by intros x Hx%elem_of_nil].
    + split; [apply trackNewIssues_newIssueIds | apply trackNewIssues_known].
  - intros a b c st Hca Hcb Hc st1 st2.
    assert (knownIssueIds st1 = knownIssueIds st ∪ {[issue_id a; issue_id b]}) as Hk1.
    { unfold st1. rewrite trackNewIssues_known. unfold issueIds. simpl. set_solver. }
    assert (newIssueIds st1 = newIssueIds st) as Hn1.
    { unfold st1. rewrite trackNewIssues_newIssueIds, reportedNew_initial. set_solver. }
    assert (reportedNew [a; b; c] false st1 = [issue_id c]) as Hr1.
    { unfold reportedNew. rewrite Hk1. simpl.
      repeat case_bool_decide; simpl; try done; exfalso; set_solver. }
    split; [done|]. split.
    + unfold st2. rewrite trackNewIssues_newIssueIds, Hr1, Hn1. set_solver.
    + unfold reportedNew, st2. rewrite trackNewIssues_known, Hk1. unfold issueIds. simpl.
      repeat case_bool_decide; simpl; try done; exfalso; set_solver.
Qed.

Lemma C3_new_issue_tracker_witness :
  let st := initialApp oneView true 0 in
  let st1 := trackNewIssues [issueA; issueB] true st in
  let st2 := trackNewIssues [issueA; issueB; issueC] false st1 in
  reportedNew [issueA; issueB; issueC] false st1 = [js "10003"]
  ∧ newIssueIds st2 = newIssueIds st ∪ {[js "10003"]}
  ∧ reportedNew [issueA; issueB; issueC] false st2 = [].
Proof.
  apply (proj2 (proj2 C3_new_issue_tracker) issueA issueB issueC (initialApp oneView true 0)).
  - vm_compute. discriminate.
  - vm_compute. discriminate.
  - simpl. apply not_elem_of_empty.
Defined.

(** C10.  Once an issue id is among the seen ids it stays there through
    every later event of the running application, no later fold reports it
    as new, and unless it is highlighted already it never becomes
    highlighted; in particular, after the user clears the highlights, no
    refetch highlights an id seen before. *)
Theorem C10_seen_ids_never_new (evs : list AppEvent) (st : App) (x : jsstring) :
  x ∈ knownIssueIds st →
  x ∈ knownIssueIds (run evs st)
  ∧ (∀ issues isInitial, x ∉ reportedNew issues isInitial (run evs st))
  ∧ (x ∉ newIssueIds st → x ∉ newIssueIds (run evs st))
  ∧ (mainKeys st = true → x ∉ newIssueIds (run (KeyClear :: evs) st)).
Proof.
  intros Hx.
  assert (∀ st evs, x ∈ knownIssueIds st → x ∈ knownIssueIds (run evs st)) as Hknown.
  { intros st0 evs0 H0. by apply (proj1 (tracks_run evs0 st0)). }
  assert (∀ st evs, x ∈ knownIssueIds st → x ∉ newIssueIds st →
                    x ∉ newIssueIds (run evs st)) as Hnew.
  { intros st0 evs0 H0 Hn0 Hn. by destruct (proj2 (tracks_run evs0 st0) x Hn). }
  split; [by apply Hknown|]. split; [|split].
  - intros issues [|] Hr.
    + by rewrite reportedNew_initial in Hr; apply elem_of_nil in Hr.
    + apply reportedNew_spec in Hr as [_ Hr]. apply Hr. by apply Hknown.
  - by apply Hnew.
  - intros Hkeys. change (run (KeyClear :: evs) st) with (run evs (step KeyClear st)).
    apply Hnew.
    + by apply (proj1 (tracks_step KeyClear st)).
    + unfold step. simpl. rewrite Hkeys. simpl. apply not_elem_of_empty.
Qed.

Lemma C10_seen_ids_never_new_witness :
  let st := trackNewIssues [issueA; issueB] true (set_loading false (initialApp oneView true 0)) in
  let evs := [KeyRefresh jiraABC 100 101; RefreshTick jiraABC 60000 60001] in
  js "10001" ∈ knownIssueIds (run evs st)
  ∧ (∀ issues isInitial, js "10001" ∉ reportedNew issues isInitial (run evs st))
  ∧ (js "10001" ∉ newIssueIds st → js "10001" ∉ newIssueIds (run evs st))
  ∧ (mainKeys st = true → js "10001" ∉ newIssueIds (run (KeyClear :: evs) st)).
Proof.
  apply C10_seen_ids_never_new.
  rewrite trackNewIssues_known. apply elem_of_union_r.
  unfold issueIds. simpl. apply elem_of_union_l. by apply elem_of_singleton.
Defined.

(** C6.  Saving the settings empties the issue cache (and, once the
    effect that follows has run, the copy the fetches read) and the set of
    highlighted ids, and installs the new configuration; the seen ids are
    left exactly as they were.  No event of the running application ever
    removes a seen id; the set is empty only in the state the process
    starts in. *)
Theorem C6_settings_commit_keeps_seen_ids (newConfig : Config) (st : App) :
  (let st' := handleSettingsSave newConfig st in
   issueCache st' = ∅ ∧ newIssueIds st' = ∅
   ∧ knownIssueIds st' = knownIssueIds st ∧ config st' = newConfig)
  ∧ (let st' := step (SettingsSave newConfig) st in
     knownIssueIds st' = knownIssueIds st
     ∧ (showSettings st = true →
        issueCache st' = ∅ ∧ issueCacheRef st' = ∅ ∧ newIssueIds st' = ∅
        ∧ config st' = newConfig))
  ∧ (∀ evs, knownIssueIds st ⊆ knownIssueIds (run evs st))
  ∧ (∀ c prevalidated now, knownIssueIds (initialApp c prevalidated now) = ∅).
Proof.
  split; [done|]. split; [|split; [|done]].
  - unfold step. simpl. destruct (showSettings st); simpl; [done|].
    split; [done | discriminate].
  - intros evs. apply (proj1 (tracks_run evs st)).
Qed.

Lemma C6_settings_commit_keeps_seen_ids_witness :
  let st := step KeySettings (trackNewIssues [issueD] false loadedApp) in
  let st' := step (SettingsSave twoViews) st in
  newIssueIds st = {[js "10004"]}
  ∧ knownIssueIds st' = knownIssueIds st
  ∧ issueCache st' = ∅ ∧ issueCacheRef st' = ∅ ∧ newIssueIds st' = ∅
  ∧ config st' = twoViews.
Proof.
  split; [vm_compute; reflexivity|].
  pose proof (proj1 (proj2 (C6_settings_commit_keeps_seen_ids twoViews
                (step KeySettings (trackNewIssues [issueD] false loadedApp))))) as [Hk H].
  split; [exact Hk|]. apply H. vm_compute. reflexivity.
Defined.

(** ** The issue cache *)

Lemma sameCaches_refl st : sameCaches st st.
Proof. by repeat split. Qed.

Lemma sameCaches_trans st1 st2 st3 :
  sameCaches st1 st2 → sameCaches st2 st3 → sameCaches st1 st3.
Proof.
  intros (?&?&?&?&?&?) (?&?&?&?&?&?). repeat split; congruence.
Qed.

Lemma sameCaches_trackNewIssues issues isInitial st :
  sameCaches st (trackNewIssues issues isInitial st).
Proof.
  unfold trackNewIssues. destruct (trackLoop _ _ _ _) as [known newIds].
  destruct (0 <? length newIds)%nat; by repeat split.
Qed.

(** [fetchIssuesForTab] on a tab that is not the activity tab. *)
Lemma fetchIssuesForTab_view (jira : Jira) (j : nat) (st : App) :
  Some j ≠ activityTabIndex (config st) →
  let st0 := if jiraClient st then st else set_jiraClient true st in
  fetchIssuesForTab jira j st
  = match requestOf (config st) j with
    | Some r => (set_searchLog (searchLog st ++ [r]) st0,
                 search jira (length (searchLog st)) r.2)
    | None => (st0, Returned [])
    end.
Proof.
  intros Hj st0. unfold fetchIssuesForTab, requestOf. fold st0.
  assert (config st0 = config st) as -> by (unfold st0; by destruct (jiraClient st)).
  assert (searchLog st0 = searchLog st) as Hlog by (unfold st0; by destruct (jiraClient st)).
  rewrite (bool_decide_eq_false_2 _ Hj).
  destruct (activity (config st)) as [a|];
    destruct (views (config st) !! j) as [v|]; simpl; try done;
    unfold searchWithProjectConstraint; by rewrite Hlog.
Qed.

Lemma fetchIssuesForTab_sameCaches (jira : Jira) (j : nat) (st : App) :
  sameCaches st (fetchIssuesForTab jira j st).1.
Proof.
  unfold fetchIssuesForTab.
  set (st0 := if jiraClient st then st else set_jiraClient true st).
  assert (sameCaches st st0) as H0 by (unfold st0; destruct (jiraClient st); by repeat split).
  eapply sameCaches_trans; [exact H0|].
  destruct (activity (config st0)) as [a|]; [case_bool_decide|];
    try destruct (views (config st0) !! j); by repeat split.
Qed.

Lemma fetchTabs_sameCaches (jira : Jira) (now : Z) (isInitial force : bool)
    (indices : list nat) (newCache : gmap nat IssueCacheEntry) (didFetch : bool) (st : App) :
  sameCaches st (fetchTabs jira now isInitial force indices newCache didFetch st).1.
Proof.
  revert newCache didFetch st.
  induction indices as [|i rest IH]; intros newCache didFetch st; simpl.
  - apply sameCaches_refl.
  - case_bool_decide; [apply IH|].
    destruct (freshEntry isInitial force now (issueCacheRef st !! i)); [apply IH|].
    unfold bind, modify.
    pose proof (fetchIssuesForTab_sameCaches jira i
                  (set_loadingProgress (loadingMessage (config st) i) st)) as H1.
    destruct (fetchIssuesForTab jira i _) as [st1 [issues|message]]; simpl in *.
    + eapply sameCaches_trans; [|apply IH].
      eapply sameCaches_trans; [|apply sameCaches_trackNewIssues].
      eapply sameCaches_trans; [|exact H1]. by repeat split.
    + eapply sameCaches_trans; [|exact H1]. by repeat split.
Qed.

Lemma requestOf_tab (c : Config) (j : nat) (r : nat * jsstring) :
  requestOf c j = Some r → r.1 = j.
Proof.
  unfold requestOf. case_bool_decide; [done|].
  destruct (views c !! j); simpl; [|done]. by intros [= <-].
Qed.

Lemma requestsFor_app (i : nat) (l1 l2 : list (nat * jsstring)) :
  requestsFor i (l1 ++ l2) = requestsFor i l1 ++ requestsFor i l2.
Proof. unfold requestsFor. apply filter_app. Qed.

(** One step of the loop on a tab that is fetched. *)
Lemma fetchTabs_fetch (jira : Jira) (now : Z) (isInitial force : bool) (i : nat)
    (rest : list nat) (newCache : gmap nat IssueCacheEntry) (didFetch : bool) (st : App) :
  Some i ≠ activityTabIndex (config st) →
  freshEntry isInitial force now (issueCacheRef st !! i) = None →
  ∃ st1, sameCaches st st1
    ∧ searchLog st1 = searchLog st ++ option_list (requestOf (config st) i)
    ∧ fetchTabs jira now isInitial force (i :: rest) newCache didFetch st
      = match from_option (λ r, search jira (length (searchLog st)) r.2) (Returned [])
                (requestOf (config st) i) with
        | Returned issues =>
            fetchTabs jira now isInitial force rest (<[i := mkEntry issues now]> newCache) true
              (trackNewIssues issues isInitial st1)
        | Thrown message => (st1, Thrown message)
        end.
Proof.
  intros Hi Hfresh. simpl. rewrite (bool_decide_eq_false_2 _ Hi), Hfresh.
  unfold bind, modify. rewrite fetchIssuesForTab_view by done. simpl.
  set (st' := set_loadingProgress (loadingMessage (config st) i) st).
  set (st0 := if jiraClient st' then st' else set_jiraClient true st').
  assert (sameCaches st st0 ∧ searchLog st0 = searchLog st) as [Hsame Hlog].
  { unfold st0, st'. simpl. destruct (jiraClient st); by repeat split. }
  destruct (requestOf (config st) i) as [r|]; simpl.
  - exists (set_searchLog (searchLog st ++ [r]) st0). split; [|split; [done|]].
    + eapply sameCaches_trans; [exact Hsame|]. by repeat split.
    + by destruct (search jira (length (searchLog st)) r.2).
  - exists st0. split; [done|]. split; [|done]. by rewrite Hlog, (right_id_L [] (++)).
Qed.

(** A tab whose entry is reused, or that the loop does not visit, gets no
    request. *)
Lemma fetchTabs_no_request (jira : Jira) (now : Z) (isInitial force : bool) (i : nat)
    (indices : list nat) (newCache : gmap nat IssueCacheEntry) (didFetch : bool) (st : App) :
  i ∉ indices ∨ Some i = activityTabIndex (config st)
  ∨ is_Some (freshEntry isInitial force now (issueCacheRef st !! i)) →
  requestsFor i (searchLog (fetchTabs jira now isInitial force indices newCache didFetch st).1)
  = requestsFor i (searchLog st).
Proof.
  revert newCache didFetch st.
  induction indices as [|j rest IH]; intros newCache didFetch st Hi; [done|].
  assert (i ∉ rest ∨ Some i = activityTabIndex (config st)
          ∨ is_Some (freshEntry isInitial force now (issueCacheRef st !! i))) as Hi'.
  { destruct Hi as [Hi|Hi]; [|by right]. left. by apply not_elem_of_cons in Hi as [_ Hi]. }
  destruct (decide (Some j = activityTabIndex (config st))) as [Hj|Hj].
  { simpl. rewrite (bool_decide_eq_true_2 _ Hj). by apply IH. }
  destruct (freshEntry isInitial force now (issueCacheRef st !! j)) as [e|] eqn:Hfresh.
  { simpl. rewrite (bool_decide_eq_false_2 _ Hj), Hfresh. by apply IH. }
  destruct (fetchTabs_fetch jira now isInitial force j rest newCache didFetch st Hj Hfresh)
    as (st1 & Hsame & Hlog & ->).
  assert (i ≠ j) as Hij.
  { intros ->. destruct Hi as [Hi|[Hi|[e He]]]; [set_solver | done | congruence]. }
  assert (requestsFor i (searchLog st1) = requestsFor i (searchLog st)) as Hreq.
  { rewrite Hlog, requestsFor_app. destruct (requestOf (config st) j) as [r|] eqn:Hr; simpl.
    - apply requestOf_tab in Hr. unfold requestsFor at 2.
      rewrite filter_cons_False by (simpl; congruence).
      rewrite filter_nil. apply (right_id_L [] (++)).
    - change (requestsFor i []) with (@nil (nat * jsstring)). apply (right_id_L [] (++)). }
  destruct (from_option _ _ _) as [issues|message]; simpl; [|done].
  rewrite IH.
  - pose proof (sameCaches_trackNewIssues issues isInitial st1) as Hs.
    unfold trackNewIssues. destruct (trackLoop _ _ _ _) as [known newIds].
    by destruct (0 <? length newIds)%nat.
  - pose proof (sameCaches_trackNewIssues issues isInitial st1) as (Hc & Hr & _).
    destruct Hsame as (Hc1 & Hr1 & _). by rewrite Hc, Hr, Hc1, Hr1.
Qed.

(** A reused entry is the one the pass puts back. *)
Lemma fetchTabs_reuses (jira : Jira) (now : Z) (isInitial force : bool) (i : nat)
    (e : IssueCacheEntry) (indices : list nat) (newCache newCache' : gmap nat IssueCacheEntry)
    (didFetch didFetch' : bool) (st : App) :
  Some i ≠ activityTabIndex (config st) →
  freshEntry isInitial force now (issueCacheRef st !! i) = Some e →
  i ∈ indices ∨ newCache !! i = Some e →
  (fetchTabs jira now isInitial force indices newCache didFetch st).2
  = Returned (newCache', didFetch') →
  newCache' !! i = Some e.
Proof.
  intros Hact. revert newCache didFetch st Hact.
  induction indices as [|j rest IH]; intros newCache didFetch st Hact Hfresh Hi Hret.
  { simpl in Hret. destruct Hi as [Hi|Hi]; [by apply elem_of_nil in Hi|]. by simplify_eq. }
  destruct (decide (Some j = activityTabIndex (config st))) as [Hj|Hj].
  { simpl in Hret. rewrite (bool_decide_eq_true_2 _ Hj) in Hret.
    eapply IH; [exact Hact | exact Hfresh | | exact Hret].
    destruct Hi as [Hi|Hi]; [|by right]. apply elem_of_cons in Hi as [->|Hi]; [done|by left]. }
  destruct (freshEntry isInitial force now (issueCacheRef st !! j)) as [e'|] eqn:Hfj.
  { simpl in Hret. rewrite (bool_decide_eq_false_2 _ Hj), Hfj in Hret.
    eapply IH; [exact Hact | exact Hfresh | | exact Hret].
    destruct (decide (i = j)) as [->|Hij].
    - right. rewrite lookup_insert_eq. congruence.
    - rewrite lookup_insert_ne by done.
      destruct Hi as [Hi|Hi]; [|by right]. apply elem_of_cons in Hi as [->|Hi]; [done|by left]. }
  destruct (fetchTabs_fetch jira now isInitial force j rest newCache didFetch st Hj Hfj)
    as (st1 & Hsame & Hlog & Heq).
  rewrite Heq in Hret. clear Heq.
  destruct (from_option _ _ _) as [issues|message]; simpl in Hret; [|done].
  pose proof (sameCaches_trackNewIssues issues isInitial st1) as (Hc & Hr & _).
  destruct Hsame as (Hc1 & Hr1 & _).
  assert (i ≠ j) as Hij by (intros ->; congruence).
  eapply IH; [by rewrite Hc, Hc1 | by rewrite Hr, Hr1 | | exact Hret].
  rewrite lookup_insert_ne by done.
  destruct Hi as [Hi|Hi]; [|by right]. apply elem_of_cons in Hi as [->|Hi]; [done|by left].
Qed.

(** When every tab visited is reused or skipped, the pass changes nothing
    and returns. *)
Lemma fetchTabs_all_fresh (jira : Jira) (now : Z) (isInitial force : bool)
    (indices : list nat) (newCache : gmap nat IssueCacheEntry) (didFetch : bool) (st : App) :
  (∀ j, j ∈ indices → Some j = activityTabIndex (config st)
        ∨ is_Some (freshEntry isInitial force now (issueCacheRef st !! j))) →
  ∃ newCache', fetchTabs jira now isInitial force indices newCache didFetch st
               = (st, Returned (newCache', didFetch)).
Proof.
  revert newCache. induction indices as [|j rest IH]; intros newCache Hall; simpl.
  - by eexists.
  - destruct (Hall j) as [Hj|[e He]]; [by left | |].
    + rewrite (bool_decide_eq_true_2 _ Hj). apply IH. intros k Hk. apply Hall. by right.
    + case_bool_decide; rewrite ?He; apply IH; intros k Hk; apply Hall; by right.
Qed.

Lemma freshEntry_forced (isInitial : bool) (now : Z) (cacheEntry : option IssueCacheEntry) :
  freshEntry isInitial true now cacheEntry = None.
Proof. by destruct cacheEntry. Qed.

Lemma freshEntry_initial (force : bool) (now : Z) (cacheEntry : option IssueCacheEntry) :
  freshEntry true force now cacheEntry = None.
Proof. destruct cacheEntry; [|done]. by destruct force. Qed.

Lemma freshEntry_Some (isInitial force : bool) (now : Z) (cacheEntry : option IssueCacheEntry)
    (e : IssueCacheEntry) :
  freshEntry isInitial force now cacheEntry = Some e
  ↔ cacheEntry = Some e ∧ force = false ∧ isInitial = false
    ∧ (now - fetchedAt e < ISSUE_CACHE_TTL_MS)%Z.
Proof.
  unfold freshEntry. destruct cacheEntry as [e'|]; [|naive_solver].
  destruct force, isInitial; simpl; try naive_solver.
  destruct (now - fetchedAt e' <? ISSUE_CACHE_TTL_MS)%Z eqn:Hlt.
  - apply Z.ltb_lt in Hlt. naive_solver.
  - apply Z.ltb_ge in Hlt. split; [done|]. intros ([= ->] & _ & _ & ?). lia.
Qed.

(** A pass that reuses nothing sends the requests of the tabs it visits,
    in order, up to the first that fails. *)
Lemma fetchTabs_requests (jira : Jira) (now : Z) (isInitial force : bool)
    (indices : list nat) (newCache : gmap nat IssueCacheEntry) (didFetch : bool) (st : App) :
  force || isInitial = true →
  ∃ k, searchLog (fetchTabs jira now isInitial force indices newCache didFetch st).1
       = searchLog st ++ take k (omap (requestOf (config st)) indices).
Proof.
  intros Hforce.
  assert (∀ ce, freshEntry isInitial force now ce = None) as Hnone.
  { intros ce. destruct force; [apply freshEntry_forced|].
    simpl in Hforce. subst. apply freshEntry_initial. }
  revert newCache didFetch st.
  induction indices as [|j rest IH]; intros newCache didFetch st.
  { exists 0%nat. simpl. by rewrite (right_id_L [] (++)). }
  destruct (decide (Some j = activityTabIndex (config st))) as [Hj|Hj].
  { simpl. rewrite (bool_decide_eq_true_2 _ Hj).
    destruct (IH newCache didFetch st) as [k Hk]. exists k. rewrite Hk.
    unfold requestOf at 2. by rewrite (bool_decide_eq_true_2 _ Hj). }
  destruct (fetchTabs_fetch jira now isInitial force j rest newCache didFetch st Hj (Hnone _))
    as (st1 & Hsame & Hlog & ->).
  destruct (from_option _ _ _) as [issues|message]; simpl.
  - destruct (IH (<[j:=mkEntry issues now]> newCache) true (trackNewIssues issues isInitial st1))
      as [k Hk].
    pose proof (sameCaches_trackNewIssues issues isInitial st1) as (Hc & _).
    assert (searchLog (trackNewIssues issues isInitial st1) = searchLog st1) as Hl.
    { unfold trackNewIssues. destruct (trackLoop _ _ _ _) as [known newIds].
      by destruct (0 <? length newIds)%nat. }
    destruct Hsame as (Hc1 & _). rewrite Hk, Hl, Hlog, Hc, Hc1.
    destruct (requestOf (config st) j) as [r|]; simpl.
    + exists (S k). by rewrite <- (assoc_L (++)).
    + exists k. by rewrite (right_id_L [] (++)).
  - rewrite Hlog. destruct (requestOf (config st) j) as [r|]; simpl.
    + by exists 1%nat.
    + exists 0%nat. by rewrite take_0.
Qed.

(** When no request fails, all of them are sent and the pass returns. *)
Lemma fetchTabs_requests_all (jira : Jira) (now : Z) (isInitial force : bool)
    (indices : list nat) (newCache : gmap nat IssueCacheEntry) (didFetch : bool) (st : App) :
  force || isInitial = true →
  (∀ n jql, ∃ issues, search jira n jql = Returned issues) →
  searchLog (fetchTabs jira now isInitial force indices newCache didFetch st).1
  = searchLog st ++ omap (requestOf (config st)) indices
  ∧ ∃ result, (fetchTabs jira now isInitial force indices newCache didFetch st).2
              = Returned result.
Proof.
  intros Hforce Hok.
  assert (∀ ce, freshEntry isInitial force now ce = None) as Hnone.
  { intros ce. destruct force; [apply freshEntry_forced|].
    simpl in Hforce. subst. apply freshEntry_initial. }
  revert newCache didFetch st.
  induction indices as [|j rest IH]; intros newCache didFetch st.
  { simpl. rewrite (right_id_L [] (++)). eauto. }
  destruct (decide (Some j = activityTabIndex (config st))) as [Hj|Hj].
  { simpl. rewrite (bool_decide_eq_true_2 _ Hj).
    destruct (IH newCache didFetch st) as [Hk Hr]. rewrite Hk. split; [|done].
    unfold requestOf at 2. by rewrite (bool_decide_eq_true_2 _ Hj). }
  destruct (fetchTabs_fetch jira now isInitial force j rest newCache didFetch st Hj (Hnone _))
    as (st1 & Hsame & Hlog & ->).
  assert (∃ issues, from_option (λ r, search jira (length (searchLog st)) r.2) (Returned [])
                      (requestOf (config st) j) = Returned issues) as [issues ->].
  { destruct (requestOf (config st) j) as [r|]; simpl; [apply Hok | by eexists]. }
  destruct (IH (<[j:=mkEntry issues now]> newCache) true (trackNewIssues issues isInitial st1))
    as [Hk Hr].
  pose proof (sameCaches_trackNewIssues issues isInitial st1) as (Hc & _).
  assert (searchLog (trackNewIssues issues isInitial st1) = searchLog st1) as Hl.
  { unfold trackNewIssues. destruct (trackLoop _ _ _ _) as [known newIds].
    by destruct (0 <? length newIds)%nat. }
  destruct Hsame as (Hc1 & _). rewrite Hk, Hl, Hlog, Hc, Hc1. split; [|done].
  simpl. destruct (requestOf (config st) j) as [r|]; simpl.
  - by rewrite <- (assoc_L (++)).
  - by rewrite (right_id_L [] (++)).
Qed.

Lemma length_tabs (c : Config) :
  length (tabs c) = (length (views c) + if activityEnabledOf c then 1 else 0)%nat.
Proof.
  unfold tabs. rewrite length_app, length_fmap. by destruct (activityEnabledOf c).
Qed.

Lemma activityTabIndex_views (c : Config) :
  activityTabIndex c = if activityEnabledOf c then Some (length (views c)) else None.
Proof.
  unfold activityTabIndex. rewrite length_tabs. destruct (activityEnabledOf c); [|done].
  f_equal. lia.
Qed.

Lemma requestOf_view (c : Config) (j : nat) (v : View) :
  views c !! j = Some v →
  requestOf c j = Some (j, injectProjectConstraintAtEnd (view_jql v) (project c)).
Proof.
  intros Hv. unfold requestOf. rewrite activityTabIndex_views, Hv.
  apply lookup_lt_Some in Hv.
  rewrite bool_decide_eq_false_2; [done|]. destruct (activityEnabledOf c); [|done].
  intros [= ->]. lia.
Qed.

Lemma requestOf_beyond (c : Config) (j : nat) :
  (length (views c) ≤ j)%nat → requestOf c j = None.
Proof.
  intros Hj. unfold requestOf. case_bool_decide; [done|].
  by rewrite lookup_ge_None_2.
Qed.

(** Over all the tabs, those requests are one per view. *)
Lemma requests_of_tabs (c : Config) :
  omap (requestOf c) (seq 0 (length (tabs c))) = forcedRequests c.
Proof.
  rewrite length_tabs, seq_app, omap_app. simpl.
  assert (omap (requestOf c) (seq (length (views c)) (if activityEnabledOf c then 1 else 0))
          = []) as ->.
  { destruct (activityEnabledOf c); simpl; [|done]. by rewrite requestOf_beyond. }
  rewrite (right_id_L [] (++)). unfold forcedRequests.
  assert (∀ l, (∀ j v, l !! j = Some v → views c !! j = Some v) →
               omap (requestOf c) (seq 0 (length l))
               = imap (λ j v, (j, injectProjectConstraintAtEnd (view_jql v) (project c))) l)
    as H; [|by apply H].
  induction l as [|v l IH] using rev_ind; intros Hl; [done|].
  rewrite length_app, seq_app, omap_app, imap_app, IH. simpl.
  - rewrite (requestOf_view c (length l) v).
    + simpl. by rewrite Nat.add_0_r.
    + apply Hl. by rewrite list_lookup_middle.
  - intros j w Hj. apply Hl. by apply lookup_app_l_Some.
Qed.

Lemma fetchAllTabs_searchLog (jira : Jira) (now later : Z) (isInitial force : bool) (st : App) :
  searchLog (fetchAllTabs jira now later isInitial force st)
  = searchLog
      (fetchTabs jira now isInitial force (seq 0 (length (tabs (config st)))) ∅ false st).1.
Proof.
  unfold fetchAllTabs.
  destruct (fetchTabs _ _ _ _ _ _ _ st) as [st' [[newCache didFetch]|message]]; simpl; [|done].
  by destruct (didFetch || isInitial).
Qed.

(** On failure a pass leaves the cache as it was; on success it lays the
    entries it gathered over it. *)
Lemma fetchAllTabs_issueCache (jira : Jira) (now later : Z) (isInitial force : bool) (st : App) :
  issueCache (fetchAllTabs jira now later isInitial force st)
  = match (fetchTabs jira now isInitial force (seq 0 (length (tabs (config st)))) ∅ false st).2
    with
    | Returned (newCache, _) => newCache ∪ issueCache st
    | Thrown _ => issueCache st
    end.
Proof.
  unfold fetchAllTabs.
  pose proof (fetchTabs_sameCaches jira now isInitial force
                (seq 0 (length (tabs (config st)))) ∅ false st) as (_ & _ & Hc & _).
  destruct (fetchTabs _ _ _ _ _ _ _ st) as [st' [[newCache didFetch]|message]]; simpl in *.
  - rewrite <- Hc. by destruct (didFetch || isInitial).
  - done.
Qed.

Lemma view_index_standard (c : Config) (i : nat) :
  (i < length (views c))%nat →
  Some i ≠ activityTabIndex c ∧ i ∈ seq 0 (length (tabs c)).
Proof.
  intros Hi. rewrite activityTabIndex_views, length_tabs. split.
  - destruct (activityEnabledOf c); [|done]. intros [= ->]. lia.
  - apply elem_of_seq. lia.
Qed.

Lemma filter_imap_none {A B} (f : nat → nat) (g : A → B) (l : list A) (n : nat) :
  (∀ j, (j < length l)%nat → f j ≠ n) →
  filter (λ r : nat * B, r.1 = n) (imap (λ j v, (f j, g v)) l) = [].
Proof.
  revert f. induction l as [|x l IH]; intros f Hf; [done|].
  rewrite imap_cons, filter_cons_False by (simpl; apply Hf; simpl; lia).
  apply (IH (f ∘ S)). intros j Hj. apply Hf. simpl. lia.
Qed.

Lemma requestsFor_forcedRequests (c : Config) (i : nat) (v : View) :
  views c !! i = Some v →
  requestsFor i (forcedRequests c)
  = [(i, injectProjectConstraintAtEnd (view_jql v) (project c))].
Proof.
  intros Hv. unfold forcedRequests, requestsFor.
  apply list_elem_of_split_length in Hv as (l1 & l2 & -> & ->).
  rewrite imap_app, filter_app, imap_cons, Nat.add_0_r.
  rewrite filter_cons_True by done.
  rewrite (filter_imap_none (λ j, j) (λ v, injectProjectConstraintAtEnd (view_jql v) (project c)))
    by (intros; lia).
  change (imap _ l2) with
    (imap (λ j v, ((λ j, (length l1 + S j)%nat) j,
                   (λ v, injectProjectConstraintAtEnd (view_jql v) (project c)) v)) l2).
  by rewrite filter_imap_none by (intros; lia).
Qed.

(** A pass that reuses nothing always sends the request of the first view. *)
Lemma fetchAllTabs_first_request (jira : Jira) (now later : Z) (isInitial force : bool)
    (st : App) :
  force || isInitial = true → views (config st) ≠ [] →
  ∃ k, searchLog (fetchAllTabs jira now later isInitial force st)
       = searchLog st ++ take (S k) (forcedRequests (config st)).
Proof.
  intros Hforce Hviews. rewrite fetchAllTabs_searchLog, <- requests_of_tabs.
  assert (∀ ce, freshEntry isInitial force now ce = None) as Hnone.
  { intros ce. destruct force; [apply freshEntry_forced|].
    simpl in Hforce. subst. apply freshEntry_initial. }
  destruct (views (config st)) as [|v vs] eqn:Hv; [done|].
  assert (length (tabs (config st)) = S (length (tabs (config st)) - 1)) as ->.
  { rewrite length_tabs, Hv. simpl. lia. }
  cbn [seq].
  assert (Some 0%nat ≠ activityTabIndex (config st)) as H0.
  { apply view_index_standard. rewrite Hv. simpl. lia. }
  destruct (fetchTabs_fetch jira now isInitial force 0 (seq 1 (length (tabs (config st)) - 1))
              ∅ false st H0 (Hnone _)) as (st1 & Hsame & Hlog & ->).
  cbn [omap list_omap]. rewrite (requestOf_view _ 0 v) in * by (by rewrite Hv).
  simpl in Hlog |- *.
  destruct (search jira (length (searchLog st)) _) as [issues|message]; simpl.
  - destruct (fetchTabs_requests jira now isInitial force (seq 1 (length (tabs (config st)) - 1))
                (<[0%nat:=mkEntry issues now]> ∅) true (trackNewIssues issues isInitial st1)
                Hforce) as [k Hk].
    pose proof (sameCaches_trackNewIssues issues isInitial st1) as (Hc & _).
    assert (searchLog (trackNewIssues issues isInitial st1) = searchLog st1) as Hl.
    { unfold trackNewIssues. destruct (trackLoop _ _ _ _) as [known newIds].
      by destruct (0 <? length newIds)%nat. }
    destruct Hsame as (Hc1 & _). exists k. rewrite Hk, Hl, Hlog, Hc, Hc1.
    by rewrite <- (assoc_L (++)).
  - exists 0%nat. by rewrite Hlog, take_0.
Qed.

(** C2, as the code has it.  For a view (not the activity tab) whose
    cached entry is younger than [ISSUE_CACHE_TTL_MS], a pass that is
    neither forced nor the initial load sends no request for that view and
    keeps its entry; when all views have such an entry the pass sends no
    request at all and changes neither the seen ids nor the time of the
    last refresh.  A forced pass never looks at the age of an entry: it
    sends the requests of the views in their order, always the first one
    and, as long as no request fails, every one, so that then the view
    is requested whatever the age of its entry. *)
Theorem C2_view_cache_freshness (jira : Jira) (now later : Z) (st : App)
    (i : nat) (v : View) (e : IssueCacheEntry) :
  views (config st) !! i = Some v →
  issueCacheRef st !! i = Some e →
  issueCache st !! i = Some e →
  ((now - fetchedAt e < ISSUE_CACHE_TTL_MS)%Z →
     let st' := fetchAllTabs jira now later false false st in
     requestsFor i (searchLog st') = requestsFor i (searchLog st)
     ∧ issueCache st' !! i = Some e
     ∧ ((∀ j, (j < length (views (config st)))%nat →
              ∃ e', issueCacheRef st !! j = Some e'
                    ∧ (now - fetchedAt e' < ISSUE_CACHE_TTL_MS)%Z) →
        searchLog st' = searchLog st ∧ knownIssueIds st' = knownIssueIds st
        ∧ lastRefresh st' = lastRefresh st))
  ∧ (∀ isInitial,
       let st' := fetchAllTabs jira now later isInitial true st in
       (∃ k, searchLog st' = searchLog st ++ take (S k) (forcedRequests (config st)))
       ∧ ((∀ n jql, ∃ issues, search jira n jql = Returned issues) →
          searchLog st' = searchLog st ++ forcedRequests (config st)
          ∧ requestsFor i (searchLog st')
            = requestsFor i (searchLog st)
              ++ [(i, injectProjectConstraintAtEnd (view_jql v) (project (config st)))])).
Proof.
  intros Hv Href Hcache.
  pose proof (lookup_lt_Some _ _ _ Hv) as Hi.
  destruct (view_index_standard _ _ Hi) as [Hact Hseq].
  split.
  - intros Hage st'.
    assert (freshEntry false false now (issueCacheRef st !! i) = Some e) as Hfresh.
    { by apply freshEntry_Some. }
    split; [|split].
    + unfold st'. rewrite fetchAllTabs_searchLog. apply fetchTabs_no_request.
      right; right. by rewrite Hfresh.
    + unfold st'. rewrite fetchAllTabs_issueCache.
      destruct (fetchTabs _ _ _ _ _ _ _ st) as [st1 [[newCache didFetch]|message]] eqn:Hrun;
        simpl; [|done].
      apply lookup_union_Some_l.
      eapply (fetchTabs_reuses jira now false false i e); [done | done | by left |].
      by rewrite Hrun.
    + intros Hall.
      destruct (fetchTabs_all_fresh jira now false false (seq 0 (length (tabs (config st))))
                  ∅ false st) as [newCache Hrun].
      { intros j Hj. apply elem_of_seq in Hj. rewrite length_tabs in Hj.
        destruct (decide (j < length (views (config st)))%nat) as [Hlt|Hge].
        - right. destruct (Hall j Hlt) as (e' & He' & Hage').
          exists e'. by apply freshEntry_Some.
        - left. rewrite activityTabIndex_views.
          destruct (activityEnabledOf (config st)); [f_equal; lia | lia]. }
      unfold st', fetchAllTabs. by rewrite Hrun.
  - intros isInitial st'. split.
    + apply fetchAllTabs_first_request; [done|]. by destruct (views (config st)).
    + intros Hok.
      assert (searchLog st' = searchLog st ++ forcedRequests (config st)) as Hlog.
      { unfold st'. rewrite fetchAllTabs_searchLog, <- requests_of_tabs.
        by apply fetchTabs_requests_all. }
      split; [done|].
      by rewrite Hlog, requestsFor_app, (requestsFor_forcedRequests _ _ v).
Qed.

(** The claim C2 as it is worded fails on three inputs.  An initial load
    refetches a view whose entry is one second old.  A forced pass sends no
    request for the activity tab, which has an entry.  A forced pass whose
    first request fails sends no request for the second view. *)
Lemma C2_counterexample :
  (issueCacheRef loadedApp !! 0%nat = Some (entryABC 1000)
   ∧ (2000 - fetchedAt (entryABC 1000) < ISSUE_CACHE_TTL_MS)%Z
   ∧ requestsFor 0 (searchLog (fetchAllTabs jiraABC 2000 2001 true false loadedApp))
     = requestsFor 0 (searchLog loadedApp)
       ++ [(0%nat, js "(status = Open) AND project = PROJ ORDER BY created DESC")])
  ∧ (issueCacheRef loadedWithActivity !! 1%nat = Some (entryABC 1002)
     ∧ requestsFor 1 (searchLog (fetchAllTabs jiraABC 90000 90001 false true loadedWithActivity))
       = requestsFor 1 (searchLog loadedWithActivity))
  ∧ (issueCacheRef loadedTwoViews !! 1%nat = Some (entryABC 1000)
     ∧ requestsFor 1 (searchLog (fetchAllTabs jiraDown 90000 90001 false true loadedTwoViews))
       = requestsFor 1 (searchLog loadedTwoViews)).
Proof. vm_compute. repeat split. Qed.

Lemma C2_view_cache_freshness_witness :
  (let st' := fetchAllTabs jiraDown 2000 2001 false false loadedApp in
   requestsFor 0 (searchLog st') = requestsFor 0 (searchLog loadedApp)
   ∧ issueCache st' !! 0%nat = Some (entryABC 1000))
  ∧ (let st' := fetchAllTabs jiraABC 90000 90001 false true loadedApp in
     requestsFor 0 (searchLog st')
     = requestsFor 0 (searchLog loadedApp)
       ++ [(0%nat, js "(status = Open) AND project = PROJ ORDER BY created DESC")]).
Proof.
  assert (views (config loadedApp) !! 0%nat
          = Some (mkView (js "Open") (js "status = Open ORDER BY created DESC"))) as Hv
    by reflexivity.
  assert (issueCacheRef loadedApp !! 0%nat = Some (entryABC 1000)) as Href
    by (vm_compute; reflexivity).
  assert (issueCache loadedApp !! 0%nat = Some (entryABC 1000)) as Hcache
    by (vm_compute; reflexivity).
  split.
  - destruct (proj1 (C2_view_cache_freshness jiraDown 2000 2001 loadedApp 0 _ _ Hv Href Hcache))
      as (H1 & H2 & _); [vm_compute; reflexivity|]. by split.
  - apply (proj2 (C2_view_cache_freshness jiraABC 90000 90001 loadedApp 0 _ _ Hv Href Hcache)
             false).
    intros n jql. by eexists.
Defined.

(** ** Failures of a refresh *)

(** A pass that fails leaves every cache entry as it was, prints nothing
    and stores the message as the error. *)
Lemma fetchAllTabs_failure (jira : Jira) (now later : Z) (isInitial force : bool) (st : App)
    (message : jsstring) :
  (fetchTabs jira now isInitial force (seq 0 (length (tabs (config st)))) ∅ false st).2
  = Thrown message →
  let st' := fetchAllTabs jira now later isInitial force st in
  issueCache st' = issueCache st ∧ consoleError st' = consoleError st
  ∧ error st' = Some message ∧ loading st' = false.
Proof.
  intros Hrun st'. unfold st', fetchAllTabs.
  pose proof (fetchTabs_sameCaches jira now isInitial force
                (seq 0 (length (tabs (config st)))) ∅ false st) as (_ & _ & Hc & _ & Hl & _).
  destruct (fetchTabs _ _ _ _ _ _ _ st) as [st1 [[newCache didFetch]|message']];
    simpl in *; [done|]. by simplify_eq.
Qed.

(** The activity fetch that fails leaves every cache entry and the error
    as they were and prints the failure. *)
Lemma fetchActivityIssues_failure (jira : Jira) (now : Z) (isInitial : bool) (st : App)
    (a : ActivityConfig) (index : nat) (message : jsstring) :
  activity (config st) = Some a → activityTabIndex (config st) = Some index →
  jiraClient st = true →
  search jira (length (searchLog st))
    (injectProjectConstraintAtEnd (activity_jql a) (project (config st))) = Thrown message →
  let st' := fetchActivityIssues jira now isInitial st in
  issueCache st' = issueCache st ∧ error st' = error st
  ∧ consoleError st' = consoleError st ++ [js "Activity refresh failed: " ++ message].
Proof.
  intros Ha Hi Hc Hs st'. unfold st', fetchActivityIssues, searchWithProjectConstraint.
  by rewrite Ha, Hi, Hc, Hs.
Qed.

(** C4.  A refresh of the views that fails while the application is
    running: the service is down at the tick of the 60 s timer.  Every
    cache entry is left as it was, but nothing is printed, the message is
    stored as the error and the error screen replaces the issue list; a
    later tick that succeeds refreshes the cache and still leaves the error
    screen up.  The activity fetch that fails in the same way keeps the
    cache, prints the failure and leaves the issue list on screen. *)
Theorem C4_refresh_failure_is_surfaced :
  let failed := step (RefreshTick jiraDown 100000 100001) loadedApp in
  let later := step (RefreshTick jiraABC 160000 160001) failed in
  screen loadedApp = MainScreen
  ∧ issueCache failed = issueCache loadedApp
  ∧ consoleError failed = []
  ∧ error failed = Some (js "Jira API error: 503 Service Unavailable - ")
  ∧ screen failed = ErrorScreen (js "Jira API error: 503 Service Unavailable - ")
  ∧ issueCache later !! 0%nat = Some (entryABC 160000)
  ∧ screen later = ErrorScreen (js "Jira API error: 503 Service Unavailable - ")
  ∧ (let activityFailed := step (ActivityTick jiraDown 300000) loadedWithActivity in
     issueCache activityFailed = issueCache loadedWithActivity
     ∧ consoleError activityFailed
       = [js "Activity refresh failed: Jira API error: 503 Service Unavailable - "]
     ∧ error activityFailed = None
     ∧ screen activityFailed = MainScreen).
Proof. vm_compute. repeat split. Qed.

(** ** The settings modal *)

(** An error message that is not empty keeps the draft and the field
    being edited, and is shown. *)
Lemma validated_blocks (message : jsstring) (s : SettingsModal.State) :
  message ≠ [] →
  let s' := SettingsModal.validated (Some message) s in
  SettingsModal.editingConfig s' = SettingsModal.editingConfig s
  ∧ SettingsModal.editField s' = SettingsModal.editField s
  ∧ SettingsModal.editValue s' = SettingsModal.editValue s
  ∧ SettingsModal.cursorPos s' = SettingsModal.cursorPos s
  ∧ SettingsModal.mode s' = SettingsModal.mode s
  ∧ SettingsModal.validationError s' = Some message
  ∧ SettingsModal.validating s' = false.
Proof. intros Hne s'. unfold s', SettingsModal.validated. by destruct message. Qed.

(** A query that passes is written into the view being edited, and only
    there. *)
Lemma validated_commits_view (s : SettingsModal.State) (v : View) :
  SettingsModal.editField s = Some FieldJql → SettingsModal.mode s = ModeEditView →
  views (SettingsModal.editingConfig s) !! SettingsModal.viewIndex s = Some v →
  let s' := SettingsModal.validated None s in
  SettingsModal.editingConfig s'
  = SettingsModal.with_views
      (<[SettingsModal.viewIndex s := mkView (view_name v) (SettingsModal.editValue s)]>
         (views (SettingsModal.editingConfig s)))
      (SettingsModal.editingConfig s)
  ∧ SettingsModal.editField s' = None ∧ SettingsModal.validationError s' = None.
Proof.
  intros Hf Hm Hv s'. unfold s', SettingsModal.validated, SettingsModal.applyEdit. simpl.
  rewrite Hf, Hm. simpl. split; [|done]. f_equal.
  apply list_eq. intros j. destruct (decide (j = SettingsModal.viewIndex s)) as [->|Hj].
  - rewrite list_lookup_alter, Hv, decide_True by done. simpl.
    by rewrite list_lookup_insert_eq by (by apply lookup_lt_Some in Hv).
  - by rewrite list_lookup_alter_ne, list_lookup_insert_ne.
Qed.

Lemma validated_commits_activity (s : SettingsModal.State) (a : ActivityConfig) :
  SettingsModal.editField s = Some FieldActivityJql →
  activity (SettingsModal.editingConfig s) = Some a →
  let s' := SettingsModal.validated None s in
  SettingsModal.editingConfig s'
  = SettingsModal.with_activity
      (Some (mkActivityConfig (enabled a) (pollingIntervalMinutes a) (SettingsModal.editValue s)))
      (SettingsModal.editingConfig s)
  ∧ SettingsModal.editField s' = None ∧ SettingsModal.validationError s' = None.
Proof.
  intros Hf Ha s'. unfold s', SettingsModal.validated, SettingsModal.applyEdit,
    SettingsModal.spreadActivity. simpl.
  rewrite Hf, Ha. by destruct (SettingsModal.mode s).
Qed.

(** The query of a view is valid for the modal exactly when the service
    reports no error for its scoped form; warnings play no part. *)
Lemma validateJql_passes (jira : Jira) (jql : jsstring) (s : SettingsModal.State)
    (result : JqlParseResult) (results : list JqlParseResult) :
  parse jira [injectProjectConstraintAtEnd jql (project (SettingsModal.editingConfig s))]
  = Returned (result :: results) →
  parse_errors result = None ∨ parse_errors result = Some [] →
  SettingsModal.validateJql jira jql s = None.
Proof.
  intros Hp He. unfold SettingsModal.validateJql, validateJql. rewrite Hp. simpl.
  by destruct He as [-> | ->].
Qed.

Lemma validateJql_fails (jira : Jira) (jql : jsstring) (s : SettingsModal.State)
    (result : JqlParseResult) (results : list JqlParseResult) (e : jsstring) (es : list jsstring) :
  parse jira [injectProjectConstraintAtEnd jql (project (SettingsModal.editingConfig s))]
  = Returned (result :: results) →
  parse_errors result = Some (e :: es) →
  SettingsModal.validateJql jira jql s = Some e.
Proof.
  intros Hp He. unfold SettingsModal.validateJql, validateJql. rewrite Hp. simpl.
  by rewrite He.
Qed.

(** C7.  A query edit confirmed with the return key is sent for
    validation and blocks the keys meanwhile.  When the service reports an
    error whose text is not empty the draft is kept, the field stays under
    edit and the error is shown; a query reported with a warning only
    passes; when the service reports an error whose text is empty, the
    query is written into the draft as if it had passed and no error is
    shown. *)
Theorem C7_empty_error_commits :
  let s := editingQuery (js "status = ") in
  let '(waiting, request) := SettingsModal.handler (Returned []) (named "return") s in
  let rejected := jiraRejecting (js "Error in the JQL Query: Expecting a value.") in
  let blank := jiraRejecting [] in
  SettingsModal.editField s = Some FieldJql
  ∧ views (SettingsModal.editingConfig s)
    = [mkView (js "Open") (js "status = Open ORDER BY created DESC")]
  ∧ request = Some (ValidateJql (js "status = "))
  ∧ SettingsModal.validating waiting = true
  ∧ (let s' := SettingsModal.validated
                 (SettingsModal.validateJql rejected (js "status = ") waiting) waiting in
     views (SettingsModal.editingConfig s')
     = [mkView (js "Open") (js "status = Open ORDER BY created DESC")]
     ∧ SettingsModal.editField s' = Some FieldJql
     ∧ SettingsModal.validationError s'
       = Some (js "Error in the JQL Query: Expecting a value."))
  ∧ SettingsModal.validateJql jiraWarning (js "status = ") waiting = None
  ∧ SettingsModal.validateJql blank (js "status = ") waiting = Some []
  ∧ (let s' := SettingsModal.validated
                 (SettingsModal.validateJql blank (js "status = ") waiting) waiting in
     views (SettingsModal.editingConfig s') = [mkView (js "Open") (js "status = ")]
     ∧ SettingsModal.editField s' = None
     ∧ SettingsModal.validationError s' = None).
Proof. vm_compute. repeat split. Qed.

(** C5.  In the views list of the modal the key d deletes the selected
    view even when it is the only one: the draft is left with no view, it
    can be saved as it is, and the configuration saved is the one that
    start-up validation refuses.  The wizard's [removeView] on the same
    configuration refuses to remove the view. *)
Theorem C5_last_view_can_be_deleted :
  let '(s, requests) :=
    pressAll [named "down"; named "return"; letter "d";
              named "escape"; named "down"; named "down"; named "return"]
      (SettingsModal.open oneView) in
  views (SettingsModal.editingConfig s) = []
  ∧ requests = [OnSave (mkConfig (js "PROJ") (js "example.atlassian.net") [] None)]
  ∧ validateConfig (SettingsModal.editingConfig s)
    = [js "At least one view is required in config.json."]
  ∧ Wizard.removeView (js "1") (js "y") oneView
    = (oneView, false,
       [[10] ++ js "Cannot remove the last view. At least one view is required."]).
Proof. vm_compute. repeat split. Qed.

(** ** Validation of the configuration *)

Lemma viewErrors_prefix (index : nat) (view : View) (e : jsstring) :
  e ∈ viewErrors index view → take 2 e = js "Vi".
Proof.
  unfold viewErrors. intros He.
  destruct (length (trim (view_name view)) =? 0)%nat, (blank (view_jql view)); simpl in He;
    repeat (apply elem_of_cons in He as [->|He]; [reflexivity|]);
    by apply elem_of_nil in He.
Qed.

(** With the activity section disabled or absent, every message of
    [validateConfig] is about the project, the domain or a view. *)
Lemma validateConfig_prefix (c : Config) (e : jsstring) :
  activityErrors c = [] →
  e ∈ validateConfig c → take 2 e = js "Mi" ∨ take 2 e = js "At" ∨ take 2 e = js "Vi".
Proof.
  unfold validateConfig. intros -> He. rewrite (right_id_L [] (++)) in He.
  apply elem_of_app in He as [He|He].
  { destruct (blank (project c)); [|by apply elem_of_nil in He].
    apply list_elem_of_singleton in He as ->. by left. }
  apply elem_of_app in He as [He|He].
  { destruct (blank (domain c)); [|by apply elem_of_nil in He].
    apply list_elem_of_singleton in He as ->. by left. }
  destruct (length (views c) =? 0)%nat.
  { apply list_elem_of_singleton in He as ->. right. by left. }
  right. right. apply list_elem_of_In, in_concat in He as (errs & Herrs & He).
  apply list_elem_of_In, elem_of_lookup_imap in Herrs as (i & v & -> & _).
  eapply viewErrors_prefix. by apply list_elem_of_In.
Qed.

(** C9.  When the activity section is present with [enabled] false,
    [validateConfig] reports what it reports for the same configuration
    without an activity section, and neither of the two activity messages,
    whatever the polling interval and the activity query are.  When
    [enabled] is true, an interval that is zero, negative or not a number
    and a blank query are each reported. *)
Theorem C9_disabled_activity_not_validated (c : Config) (a : ActivityConfig) :
  activity c = Some a →
  (enabled a = false →
     validateConfig c = validateConfig (SettingsModal.with_activity None c)
     ∧ (js "Activity polling interval must be a positive number." ∉ validateConfig c)
     ∧ (js "Activity JQL query is required when activity is enabled." ∉ validateConfig c))
  ∧ (enabled a = true →
       ((numberFalsy (pollingIntervalMinutes a)
         || numberLeZero (pollingIntervalMinutes a)) = true →
          js "Activity polling interval must be a positive number." ∈ validateConfig c)
       ∧ (blank (activity_jql a) = true →
            js "Activity JQL query is required when activity is enabled." ∈ validateConfig c)).
Proof.
  intros Ha. split.
  - intros Hoff.
    assert (activityErrors c = []) as Hnone by (unfold activityErrors; by rewrite Ha, Hoff).
    split; [|split].
    + unfold validateConfig. by rewrite Hnone.
    + intros He. by destruct (validateConfig_prefix c _ Hnone He) as [H|[H|H]].
    + intros He. by destruct (validateConfig_prefix c _ Hnone He) as [H|[H|H]].
  - intros Hon. unfold validateConfig, activityErrors. rewrite Ha, Hon. split.
    + intros ->. rewrite !elem_of_app. do 3 right. left. by apply list_elem_of_singleton.
    + intros ->. rewrite !elem_of_app. do 4 right. by apply list_elem_of_singleton.
Qed.

Lemma C9_disabled_activity_not_validated_witness :
  validateConfig disabledActivity = []
  ∧ validateConfig disabledActivity
    = validateConfig (SettingsModal.with_activity None disabledActivity)
  ∧ (js "Activity polling interval must be a positive number."
     ∉ validateConfig disabledActivity)
  ∧ (js "Activity JQL query is required when activity is enabled."
     ∉ validateConfig disabledActivity).
Proof.
  split; [vm_compute; reflexivity|].
  apply (proj1 (C9_disabled_activity_not_validated disabledActivity
                  (mkActivityConfig false (Num (inject_Z (-3))) (js "   ")) eq_refl)).
  reflexivity.
Defined.

(** ** Paged search *)

Lemma tokenFor_sent (pages : list JqlSearchResponse) (n : nat) :
  Forall (λ p, hasToken (response_nextPageToken p) = true) pages →
  (if hasToken (tokenFor pages n) then tokenFor pages n else None) = tokenFor pages n.
Proof.
  intros Htok. destruct n as [|n]; [done|]. simpl.
  destruct (pages !! n) as [p|] eqn:Hp; [|done]. simpl.
  by rewrite (proj1 (Forall_lookup _ _) Htok n p Hp).
Qed.

Lemma searchPages_from (fetch : nat → option jsstring → outcome JqlSearchResponse)
    (pages : list JqlSearchResponse) (final : outcome JqlSearchResponse) :
  ∀ (before : list JqlSearchResponse) (fuel : nat) (allIssues : list JiraIssue),
    Forall (λ p, hasToken (response_nextPageToken p) = true) (before ++ pages) →
    (∀ n p, pages !! n = Some p →
       fetch (length before + n)%nat (tokenFor (before ++ pages) (length before + n))
       = Returned p) →
    fetch (length (before ++ pages)) (tokenFor (before ++ pages) (length (before ++ pages)))
    = final →
    (length pages < fuel)%nat →
    searchPages fetch fuel (length before)
      (tokenFor (before ++ pages) (length before)) allIssues
    = match final with
      | Thrown message => Some (Thrown message)
      | Returned last =>
          if hasToken (response_nextPageToken last)
          then searchPages fetch (fuel - S (length pages)) (S (length (before ++ pages)))
                 (response_nextPageToken last)
                 (allIssues ++ concat (response_issues <$> pages) ++ response_issues last)
          else Some (Returned (allIssues ++ concat (response_issues <$> pages)
                               ++ response_issues last))
      end.
Proof.
  induction pages as [|page pages IH]; intros before fuel allIssues Htok Hfetch Hfinal Hfuel.
  - rewrite (right_id_L [] (++)) in *. destruct fuel as [|fuel]; [simpl in Hfuel; lia|].
    simpl searchPages.
    rewrite tokenFor_sent by done.
    rewrite Hfinal. destruct final as [last|message]; [|done].
    simpl. by rewrite Nat.sub_0_r.
  - destruct fuel as [|fuel]; [simpl in Hfuel; lia|].
    simpl searchPages.
    rewrite tokenFor_sent by done.
    pose proof (Hfetch 0%nat page eq_refl) as H0. rewrite Nat.add_0_r in H0. rewrite H0.
    assert (hasToken (response_nextPageToken page) = true) as Hp.
    { rewrite Forall_app, Forall_cons in Htok. tauto. }
    rewrite Hp.
    assert (before ++ page :: pages = (before ++ [page]) ++ pages) as Heq
      by (by rewrite <- (assoc_L (++))).
    assert (response_nextPageToken page
            = tokenFor ((before ++ [page]) ++ pages) (length (before ++ [page]))) as Hnext.
    { rewrite length_app. simpl length. rewrite Nat.add_1_r. simpl tokenFor.
      rewrite <- Heq. by rewrite (list_lookup_middle before pages page). }
    rewrite Hnext at 1.
    assert (S (length before) = length (before ++ [page])) as ->
      by (rewrite length_app; simpl; lia).
    rewrite (IH (before ++ [page]) fuel (allIssues ++ response_issues page)).
    + rewrite <- Heq. destruct final as [last|message]; [|done].
      simpl length. rewrite fmap_cons. simpl concat. rewrite <- !(assoc_L (++)).
      replace (S fuel - S (S (length pages)))%nat with (fuel - S (length pages))%nat by lia.
      done.
    + by rewrite <- Heq.
    + intros n p Hn. rewrite <- Heq. rewrite length_app. simpl length.
      replace (length before + 1 + n)%nat with (length before + S n)%nat by lia.
      by apply Hfetch.
    + by rewrite <- Heq.
    + simpl in Hfuel. lia.
Qed.

(** X1.  A search whose answers come in pages: when the service answers
    the first request (sent without a token) and every request that
    carries the token of the page before, when every page but the last
    names a next page and the last one names none (or an empty token), the
    search sends one request per page and returns the issues of all pages
    in order. *)
Theorem searchIssues_concatenates_pages
    (fetch : nat → option jsstring → outcome JqlSearchResponse)
    (pages : list JqlSearchResponse) (last : JqlSearchResponse) (fuel : nat) :
  Forall (λ p, hasToken (response_nextPageToken p) = true) pages →
  hasToken (response_nextPageToken last) = false →
  (∀ n p, (pages ++ [last]) !! n = Some p → fetch n (tokenFor pages n) = Returned p) →
  (length pages < fuel)%nat →
  searchIssues fetch fuel
  = Some (Returned (concat (response_issues <$> pages ++ [last]))).
Proof.
  intros Htok Hlast Hfetch Hfuel. unfold searchIssues.
  etrans; [apply (searchPages_from fetch pages (Returned last) [] fuel []); try done|].
  - intros n p Hn. simpl. apply Hfetch. by apply lookup_app_l_Some.
  - simpl. apply Hfetch. by rewrite list_lookup_middle.
  - rewrite Hlast. simpl. by rewrite fmap_app, concat_app; simpl; rewrite (right_id_L [] (++)).
Qed.

Lemma searchIssues_concatenates_pages_witness :
  searchIssues twoPages 2 = Some (Returned [issueA; issueB; issueC]).
Proof.
  apply (searchIssues_concatenates_pages twoPages
           [mkSearchResponse [issueA; issueB] (Some (js "page-2"))]
           (mkSearchResponse [issueC] None) 2).
  - by repeat constructor.
  - reflexivity.
  - intros [|[|n]] p Hn; simpl in Hn; by simplify_eq.
  - simpl. lia.
Defined.

(** X2.  A page that fails ends the search with the failure: the issues of
    the pages already received are not returned. *)
Theorem searchIssues_failing_page
    (fetch : nat → option jsstring → outcome JqlSearchResponse)
    (pages : list JqlSearchResponse) (message : jsstring) (fuel : nat) :
  Forall (λ p, hasToken (response_nextPageToken p) = true) pages →
  (∀ n p, pages !! n = Some p → fetch n (tokenFor pages n) = Returned p) →
  fetch (length pages) (tokenFor pages (length pages)) = Thrown message →
  (length pages < fuel)%nat →
  searchIssues fetch fuel = Some (Thrown message).
Proof.
  intros Htok Hfetch Hfail Hfuel. unfold searchIssues.
  by etrans; [apply (searchPages_from fetch pages (Thrown message) [] fuel [])|].
Qed.

Lemma searchIssues_failing_page_witness :
  searchIssues secondPageFails 5
  = Some (Thrown (js "Jira API error: 503 Service Unavailable - ")).
Proof.
  apply (searchIssues_failing_page secondPageFails
           [mkSearchResponse [issueA; issueB] (Some (js "page-2"))]).
  - by repeat constructor.
  - intros [|n] p Hn; simpl in Hn; by simplify_eq.
  - reflexivity.
  - simpl. lia.
Defined.

Lemma searchPages_endless (fetch : nat → option jsstring → outcome JqlSearchResponse) :
  (∀ n token, ∃ p, fetch n token = Returned p ∧ hasToken (response_nextPageToken p) = true) →
  ∀ fuel n token allIssues, searchPages fetch fuel n token allIssues = None.
Proof.
  intros Hfetch. induction fuel as [|fuel IH]; intros n token allIssues; [done|].
  simpl. destruct (Hfetch n (if hasToken token then token else None)) as (p & -> & ->).
  apply IH.
Qed.

(** X3.  The search has no bound of its own on the number of pages: against
    a service that names a next page in every answer it is still running
    after any number of requests. *)
Theorem searchIssues_never_stops_by_itself
    (fetch : nat → option jsstring → outcome JqlSearchResponse) (fuel : nat) :
  (∀ n token, ∃ p, fetch n token = Returned p ∧ hasToken (response_nextPageToken p) = true) →
  searchIssues fetch fuel = None.
Proof. intros Hfetch. by apply searchPages_endless. Qed.

Lemma searchIssues_never_stops_by_itself_witness :
  searchIssues endlessPages 1000 = None.
Proof.
  apply searchIssues_never_stops_by_itself. intros n token. by eexists.
Defined.

(** ** Validation results *)

(** In what [JiraClient.validateJql] returns there is one result per
    answer of the service, in the same order, and a result is marked valid
    exactly when it carries no error message. *)
Theorem validateJql_valid_iff_no_errors (jira : Jira) (queries : list jsstring)
    (results : list JqlValidationResult) :
  validateJql jira queries = Returned results →
  (∃ answers, parse jira queries = Returned answers
              ∧ length results = length answers
              ∧ result_query <$> results = parse_query <$> answers)
  ∧ Forall (λ r, valid r = true ↔ errors r = []) results.
Proof.
  unfold validateJql. destruct (parse jira queries) as [answers|message]; [|done].
  intros [= <-]. split.
  - exists answers. split; [done|]. split; [by rewrite length_fmap|].
    by rewrite <- list_fmap_compose.
  - apply Forall_fmap, Forall_forall. intros r _. unfold toValidationResult. simpl.
    destruct (parse_errors r) as [[|e es]|]; simpl; split; done.
Qed.

Lemma validateJql_valid_iff_no_errors_witness :
  Forall (λ r, valid r = true ↔ errors r = [])
    [mkValidationResult (js "status = Open") false [js "Field 'statu' does not exist."] []].
Proof.
  apply (validateJql_valid_iff_no_errors
           (jiraRejecting (js "Field 'statu' does not exist.")) [js "status = Open"]).
  reflexivity.
Defined.


(** ** A configuration that passes *)

Lemma number_positive (n : number) :
  numberFalsy n || numberLeZero n = negb (numberGtZero n).
Proof.
  destruct n as [|q]; simpl; [done|]. rewrite negb_involutive.
  destruct (Qle_bool q 0) eqn:Hle; [by rewrite orb_true_r|]. rewrite orb_false_r.
  destruct (Qeq_bool q 0) eqn:Heq; [|done].
  apply Qeq_bool_iff in Heq. assert (Qle_bool q 0 = true); [|congruence].
  apply Qle_bool_iff. rewrite Heq. apply Qle_refl.
Qed.

Lemma viewErrors_nil (index : nat) (view : View) :
  viewErrors index view = [] ↔ ValidView view.
Proof.
  unfold viewErrors, ValidView, blank.
  destruct (length (trim (view_name view)) =? 0)%nat,
           (length (trim (view_jql view)) =? 0)%nat; simpl; naive_solver.
Qed.

Lemma viewErrors_all_nil (vs : list View) :
  concat (imap viewErrors vs) = [] ↔ Forall ValidView vs.
Proof.
  assert (∀ f : nat → View → list jsstring,
            (∀ i v, f i v = [] ↔ ValidView v) →
            concat (imap f vs) = [] ↔ Forall ValidView vs) as H.
  { induction vs as [|v vs IH]; intros f Hf; simpl.
    - split; [constructor|done].
    - rewrite Forall_cons, app_nil, Hf, (IH (f ∘ S)); [done|]. intros i v'. apply Hf. }
  apply H, viewErrors_nil.
Qed.

Lemma activityErrors_nil (c : Config) :
  activityErrors c = [] ↔ ∀ a, activity c = Some a → ValidActivity a.
Proof.
  unfold activityErrors, ValidActivity. destruct (activity c) as [a|]; [|naive_solver].
  destruct (enabled a) eqn:Hon.
  - rewrite number_positive.
    destruct (numberGtZero (pollingIntervalMinutes a)) eqn:Hi,
             (blank (activity_jql a)) eqn:Hq; simpl;
      (split; [intros H a' [= <-] _; first [done | by split]
              |intros H; try done; destruct (H a eq_refl Hon); congruence]).
  - split; [|done]. intros _ a' [= <-] Ha. congruence.
Qed.

(** X4.  [validateConfig] reports nothing exactly for the configurations
    whose project key and domain are not blank, that have at least one
    view, every view with a name and a query that are not blank, and whose
    activity section, when present and enabled, has a positive polling
    interval and a query that is not blank. *)
Theorem validateConfig_passes_iff (c : Config) :
  validateConfig c = [] ↔ ValidConfig c.
Proof.
  unfold validateConfig, ValidConfig. rewrite !app_nil, activityErrors_nil.
  destruct (blank (project c)), (blank (domain c)); try naive_solver.
  destruct (views c) as [|v vs] eqn:Hv; simpl length; cbn [Nat.eqb]; [naive_solver|].
  rewrite viewErrors_all_nil. naive_solver.
Qed.

Lemma ValidConfig_queries (c : Config) :
  ValidConfig c → (length (buildValidationQueries c) =? 0)%nat = false.
Proof.
  intros (_ & _ & Hv & _). unfold buildValidationQueries.
  destruct (views c); [done|]. reflexivity.
Qed.

(** X5.  The queries sent for validation are those of the tabs shown, one
    per tab and under the name of the tab; so a configuration that
    [validateConfig] accepts always has a query to validate, and the
    message about a configuration without views is never the outcome of
    the start-up checks. *)
Theorem buildValidationQueries_covers_tabs (c : Config) :
  query_name <$> buildValidationQueries c = tabs c
  ∧ (validateConfig c = [] → buildValidationQueries c ≠ []).
Proof.
  split.
  - unfold buildValidationQueries, tabs, activityEnabledOf.
    rewrite fmap_app, <- list_fmap_compose.
    destruct (activity c) as [a|]; [|done]. by destruct (enabled a).
  - intros Hc%validateConfig_passes_iff%ValidConfig_queries.
    by destruct (buildValidationQueries c).
Qed.

(** X6.  The wizard is started on its own only for a configuration that
    [validateConfig] rejects: one without views, or whose views all have a
    blank query. *)
Theorem shouldAutoRunWizard_only_if_invalid (c : Config) :
  shouldAutoRunWizard c = true → validateConfig c ≠ [].
Proof.
  intros Hw Hc%validateConfig_passes_iff. destruct Hc as (_ & _ & Hne & Hvs & _).
  unfold shouldAutoRunWizard in Hw. destruct (views c) as [|v vs]; [done|].
  simpl in Hw. apply Forall_cons in Hvs as [[_ Hv] _]. by rewrite Hv in Hw.
Qed.

Lemma shouldAutoRunWizard_only_if_invalid_witness :
  shouldAutoRunWizard noViews = true ∧ validateConfig noViews ≠ [].
Proof.
  split; [reflexivity|]. by apply shouldAutoRunWizard_only_if_invalid.
Defined.

(** ** Start-up *)

Lemma filter_nil_Forall {A} (P : A → Prop) `{∀ x, Decision (P x)} (l : list A) :
  filter P l = [] ↔ Forall (λ x, ¬ P x) l.
Proof.
  induction l as [|x l IH]; simpl.
  - split; [constructor|done].
  - rewrite filter_cons, Forall_cons. destruct (decide (P x)) as [HP|HP].
    + split; [done|]. by intros [? _].
    + rewrite IH. tauto.
Qed.

Lemma preflight_passes (loaded : outcome Config) (credentials : bool) (jira : Jira) :
  preflightConfigAndJql loaded credentials jira = Returned tt →
  ∃ c results,
    loaded = Returned c ∧ validateConfig c = [] ∧ credentials = true
    ∧ validateJql jira (query_jql <$> buildValidationQueries c) = Returned results
    ∧ ∀ i r, results !! i = Some r → (i < length (buildValidationQueries c))%nat →
             valid r = true.
Proof.
  unfold preflightConfigAndJql. destruct loaded as [c|message]; [|done].
  destruct (validateConfig c) as [|e es] eqn:Hc; [|done]. simpl.
  destruct (length (buildValidationQueries c) =? 0)%nat; [done|].
  destruct credentials; [|done]. simpl.
  destruct (validateJql jira _) as [results|message] eqn:Hresults; [|done].
  destruct (filter _ _) as [|failure failures] eqn:Hf; [|done]. intros _.
  exists c, results. do 4 (split; [done|]).
  intros i r Hr Hi. apply filter_nil_Forall in Hf.
  apply lookup_lt_is_Some_2 in Hi as [q Hq].
  pose proof (proj1 (Forall_lookup _ _) Hf i (r, Some q)) as Hno. simpl in Hno.
  destruct (valid r) eqn:Hv; [done|]. exfalso. apply Hno; [|by split].
  by rewrite list_lookup_imap, Hr, Hq.
Qed.

Lemma passes_preflight (c : Config) (jira : Jira) (results : list JqlValidationResult) :
  validateConfig c = [] →
  validateJql jira (query_jql <$> buildValidationQueries c) = Returned results →
  (∀ i r, results !! i = Some r → (i < length (buildValidationQueries c))%nat →
          valid r = true) →
  preflightConfigAndJql (Returned c) true jira = Returned tt.
Proof.
  intros Hc Hresults Hvalid. unfold preflightConfigAndJql. rewrite Hc. simpl.
  rewrite ValidConfig_queries by by apply validateConfig_passes_iff.
  rewrite Hresults.
  assert (filter (λ entry : JqlValidationResult * option NamedQuery,
                    is_Some entry.2 ∧ valid entry.1 = false)
            (imap (λ index result, (result, buildValidationQueries c !! index)) results)
          = []) as ->; [|done].
  apply filter_nil_Forall, Forall_lookup. intros i [r q] Hi [Hq Hv]. simpl in *.
  rewrite list_lookup_imap in Hi. destruct (results !! i) as [r'|] eqn:Hr; [|done].
  simpl in Hi. simplify_eq. rewrite (Hvalid i r Hr) in Hv; [done|].
  by apply lookup_lt_is_Some_1.
Qed.

(** X7.  The start-up check passes exactly when the configuration is read,
    [validateConfig] has nothing to report, the credentials are set, the
    validation request is answered, and every answer that stands at the
    position of a query is valid.  Answers are matched to queries by
    position only: a query without an answer passes. *)
Theorem preflight_passes_iff (loaded : outcome Config) (credentials : bool) (jira : Jira) :
  preflightConfigAndJql loaded credentials jira = Returned tt
  ↔ ∃ c results,
      loaded = Returned c ∧ validateConfig c = [] ∧ credentials = true
      ∧ validateJql jira (query_jql <$> buildValidationQueries c) = Returned results
      ∧ ∀ i r, results !! i = Some r → (i < length (buildValidationQueries c))%nat →
               valid r = true.
Proof.
  split; [apply preflight_passes|].
  intros (c & results & -> & Hc & -> & Hresults & Hvalid). by eapply passes_preflight.
Qed.

(** X8.  [main] renders the application only as prevalidated, and only when
    the wizard was not asked for, the configuration file exists and, as
    read for the check, passes [validateConfig] and has its queries
    answered as valid. *)
Theorem main_renders_only_validated (argv : list jsstring) (configExists : bool)
    (first second : outcome Config) (credentials : bool) (jira : Jira)
    (prevalidated : bool) :
  main argv configExists first second credentials jira = Render prevalidated →
  prevalidated = true ∧ (js "--config" ∉ argv) ∧ configExists = true
  ∧ ∃ c results,
      second = Returned c ∧ validateConfig c = []
      ∧ validateJql jira (query_jql <$> buildValidationQueries c) = Returned results
      ∧ ∀ i r, results !! i = Some r → (i < length (buildValidationQueries c))%nat →
               valid r = true.
Proof.
  unfold main. case_bool_decide as Hargv; [done|].
  destruct configExists; [|done]. simpl.
  destruct (match first with Returned c => shouldAutoRunWizard c | Thrown _ => false end);
    [done|].
  destruct (preflightConfigAndJql second credentials jira) as [[]|message] eqn:Hpre; [|done].
  intros [= <-]. apply preflight_passes in Hpre as (c & results & -> & Hc & _ & Hr & Hv).
  do 3 (split; [done|]). by exists c, results.
Qed.

Lemma main_renders_only_validated_witness :
  main [] true (Returned oneView) (Returned oneView) true jiraWarning = Render true
  ∧ validateConfig oneView = [].
Proof.
  split; [reflexivity|].
  destruct (main_renders_only_validated [] true (Returned oneView) (Returned oneView)
              true jiraWarning true eq_refl)
    as (_ & _ & _ & c & results & Hc & Hv & _).
  by injection Hc as <-.
Defined.

(** ** The issue table *)

Lemma truncateOrPad_cut (text : jsstring) (width : Z) :
  (width < Z.of_nat (length text))%Z →
  truncateOrPad text width = sliceTo text (width - 3) ++ js "...".
Proof. intros H. unfold truncateOrPad. by destruct (Z.ltb_spec width (Z.of_nat (length text))); [|lia]. Qed.

(** X.  The width of what [truncateOrPad] gives.  In a column of three
    cells or more it is exactly the width of the column: the text
    followed by spaces when it fits, its first cells followed by three
    dots when it does not.  In a column of fewer than three cells a text
    that does not fit is not cut to the width: what is shown keeps all
    but the last cells of the text, is at least three cells long and
    overflows the column. *)
Theorem truncateOrPad_width (text : jsstring) (width : Z) :
  ((3 ≤ width)%Z →
   Z.of_nat (length (truncateOrPad text width)) = width
   ∧ (if (width <? Z.of_nat (length text))%Z
      then truncateOrPad text width = take (Z.to_nat (width - 3)) text ++ js "..."
      else take (length text) (truncateOrPad text width) = text
           ∧ Forall (λ c, c = 32) (drop (length text) (truncateOrPad text width))))
  ∧ ((width < 3)%Z → (width < Z.of_nat (length text))%Z →
     (3 ≤ Z.of_nat (length (truncateOrPad text width)))%Z
     ∧ (width < Z.of_nat (length (truncateOrPad text width)))%Z).
Proof.
  split.
  - intros Hw. unfold truncateOrPad, sliceTo, padEnd.
    destruct (Z.ltb_spec width (Z.of_nat (length text))) as [Hlt|Hge].
    + destruct (Z.ltb_spec (width - 3) 0); [lia|]. split; [|done].
      rewrite length_app, length_take. change (length (js "...")) with 3%nat. lia.
    + split; [rewrite length_app, length_replicate; lia|].
      rewrite take_app_length, drop_app_length. split; [done|].
      apply Forall_forall. intros c Hc. by apply elem_of_replicate in Hc as [-> _].
  - intros Hw Hlen. rewrite truncateOrPad_cut by done.
    rewrite length_app. change (length (js "...")) with 3%nat. lia.
Qed.

Example truncateOrPad_examples :
  truncateOrPad (js "Printer on fire") 12 = js "Printer o..."
  ∧ truncateOrPad (js "Open") 12 = js "Open        "
  ∧ truncateOrPad (js "Printer on fire") 0 = js "Printer on f...".
Proof. by vm_compute. Qed.

(** With at least one tab, the tab key and shift-tab keep the selected
    tab among the tabs and undo each other. *)
Theorem tab_keys_cycle (n prev : Z) :
  (0 ≤ prev < n)%Z →
  (0 ≤ nextTab n prev < n)%Z ∧ (0 ≤ previousTab n prev < n)%Z
  ∧ previousTab n (nextTab n prev) = prev ∧ nextTab n (previousTab n prev) = prev.
Proof.
  intros Hp. unfold nextTab, previousTab.
  repeat match goal with |- context [(?a <? ?b)%Z] => destruct (Z.ltb_spec a b) end; lia.
Qed.

Lemma tab_keys_cycle_witness :
  nextTab 3 2 = 0%Z ∧ previousTab 3 0 = 2%Z ∧ previousTab 3 (nextTab 3 2) = 2%Z.
Proof.
  split; [reflexivity|]. split; [reflexivity|].
  apply (tab_keys_cycle 3 2). lia.
Defined.

(** ** Flagged issues *)

Lemma setAdd_elem (x y : jsstring) (s : list jsstring) :
  y ∈ setAdd x s ↔ y = x ∨ y ∈ s.
Proof.
  unfold setAdd. case_bool_decide as Hx.
  - split; [by right|]. by intros [->|].
  - rewrite elem_of_app, list_elem_of_singleton. tauto.
Qed.

Lemma setAdd_NoDup (x : jsstring) (s : list jsstring) : NoDup s → NoDup (setAdd x s).
Proof.
  intros Hs. unfold setAdd. case_bool_decide as Hx; [done|].
  apply NoDup_app. split; [done|]. split; [|apply NoDup_singleton].
  intros y Hy ->%list_elem_of_singleton. done.
Qed.

Lemma newSet_from (array s : list jsstring) :
  NoDup s →
  NoDup (foldl (λ s x, setAdd x s) s array)
  ∧ ∀ y, y ∈ foldl (λ s x, setAdd x s) s array ↔ y ∈ s ∨ y ∈ array.
Proof.
  revert s. induction array as [|x array IH]; intros s Hs; simpl.
  - split; [done|]. intros y. rewrite elem_of_nil. tauto.
  - destruct (IH (setAdd x s) (setAdd_NoDup x s Hs)) as [Hnd Hin]. split; [done|].
    intros y. rewrite Hin, setAdd_elem, elem_of_cons. tauto.
Qed.

Lemma newSet_NoDup (array : list jsstring) : NoDup (newSet array).
Proof. apply (newSet_from array []), NoDup_nil_2. Qed.

Lemma newSet_elem (array : list jsstring) (y : jsstring) : y ∈ newSet array ↔ y ∈ array.
Proof.
  unfold newSet. rewrite (proj2 (newSet_from array [] (NoDup_nil_2))), elem_of_nil. tauto.
Qed.

Lemma setDelete_elem (x y : jsstring) (s : list jsstring) :
  y ∈ setDelete x s ↔ y ≠ x ∧ y ∈ s.
Proof. unfold setDelete. by rewrite list_elem_of_filter. Qed.

(** X11.  Flagging toggles the key of the selected issue and no other: the
    key is among the flagged keys afterwards exactly when it was not
    before, every other key is kept or left out as before, and the keys
    written to the state file hold no key twice. *)
Theorem toggleFlag_flips_selected_key (issue : JiraIssue) (flagged : list jsstring) :
  ∃ result,
    toggleFlagSelectedIssue (Some issue) flagged = Some result
    ∧ NoDup result
    ∧ (issue_key issue ∈ result ↔ issue_key issue ∉ flagged)
    ∧ ∀ key, key ≠ issue_key issue → (key ∈ result ↔ key ∈ flagged).
Proof.
  eexists. split; [reflexivity|]. case_bool_decide as Hin.
  - split; [apply NoDup_filter, newSet_NoDup|]. rewrite newSet_elem in Hin. split.
    + rewrite setDelete_elem. split; [by intros [? _]|intros H; by destruct (H Hin)].
    + intros key Hk. rewrite setDelete_elem, newSet_elem. tauto.
  - split; [apply setAdd_NoDup, newSet_NoDup|]. rewrite newSet_elem in Hin. split.
    + rewrite setAdd_elem. split; [done|by left].
    + intros key Hk. rewrite setAdd_elem, newSet_elem. tauto.
Qed.

(** ** What a fetch leaves alone *)

Lemma sameSession_refl st : sameSession st st.
Proof. by repeat split. Qed.

Lemma sameSession_trans st1 st2 st3 :
  sameSession st1 st2 → sameSession st2 st3 → sameSession st1 st3.
Proof.
  intros (?&?&?&?&?&?&?) (?&?&?&?&?&?&?). repeat split; congruence.
Qed.

Lemma sameSession_trackNewIssues issues isInitial st :
  sameSession st (trackNewIssues issues isInitial st).
Proof.
  unfold trackNewIssues. destruct (trackLoop _ _ _ _) as [known newIds].
  destruct (0 <? length newIds)%nat; by repeat split.
Qed.

Lemma sameSession_fetchIssuesForTab (jira : Jira) (j : nat) (st : App) :
  sameSession st (fetchIssuesForTab jira j st).1.
Proof.
  unfold fetchIssuesForTab.
  set (st0 := if jiraClient st then st else set_jiraClient true st).
  assert (sameSession st st0) as H0 by (unfold st0; destruct (jiraClient st); by repeat split).
  eapply sameSession_trans; [exact H0|].
  destruct (activity (config st0)) as [a|]; [case_bool_decide|];
    try destruct (views (config st0) !! j); by repeat split.
Qed.

Lemma sameSession_fetchTabs (jira : Jira) (now : Z) (isInitial force : bool)
    (indices : list nat) (newCache : gmap nat IssueCacheEntry) (didFetch : bool) (st : App) :
  sameSession st (fetchTabs jira now isInitial force indices newCache didFetch st).1.
Proof.
  revert newCache didFetch st.
  induction indices as [|i rest IH]; intros newCache didFetch st; simpl.
  - apply sameSession_refl.
  - case_bool_decide; [apply IH|].
    destruct (freshEntry isInitial force now (issueCacheRef st !! i)); [apply IH|].
    unfold bind, modify.
    pose proof (sameSession_fetchIssuesForTab jira i
                  (set_loadingProgress (loadingMessage (config st) i) st)) as H1.
    destruct (fetchIssuesForTab jira i _) as [st1 [issues|message]]; simpl in *.
    + eapply sameSession_trans; [|apply IH].
      eapply sameSession_trans; [|apply sameSession_trackNewIssues].
      eapply sameSession_trans; [|exact H1]. by repeat split.
    + eapply sameSession_trans; [|exact H1]. by repeat split.
Qed.

(** Apart from [loading], a pass over the views is such a fetch. *)
Lemma fetchAllTabs_session (jira : Jira) (now later : Z) (isInitial force : bool) (st : App) :
  let st' := fetchAllTabs jira now later isInitial force st in
  validationDone st' = validationDone st
  ∧ prevalidatedInitial st' = prevalidatedInitial st
  ∧ configFile st' = configFile st
  ∧ showSettings st' = showSettings st ∧ showJqlModal st' = showJqlModal st
  ∧ validationErrors st' = validationErrors st ∧ config st' = config st.
Proof.
  intros st'. unfold st', fetchAllTabs.
  pose proof (sameSession_fetchTabs jira now isInitial force
                (seq 0 (length (tabs (config st)))) ∅ false st) as (?&?&?&?&?&?&?).
  pose proof (fetchTabs_sameCaches jira now isInitial force
                (seq 0 (length (tabs (config st)))) ∅ false st) as (?&_).
  destruct (fetchTabs _ _ _ _ _ _ _ st) as [st1 [[newCache didFetch]|message]]; simpl in *.
  - destruct (didFetch || isInitial); by repeat split.
  - by repeat split.
Qed.

Lemma fetchActivityIssues_session (jira : Jira) (now : Z) (isInitial : bool) (st : App) :
  sameSession st (fetchActivityIssues jira now isInitial st)
  ∧ config (fetchActivityIssues jira now isInitial st) = config st
  ∧ error (fetchActivityIssues jira now isInitial st) = error st
  ∧ lastRefresh (fetchActivityIssues jira now isInitial st) = lastRefresh st.
Proof.
  unfold fetchActivityIssues.
  destruct (activity (config st)) as [a|]; [|by repeat split].
  destruct (activityTabIndex (config st)) as [index|]; [|by repeat split].
  destruct (jiraClient st); [|by repeat split].
  unfold searchWithProjectConstraint.
  destruct (search jira _ _) as [issues|message]; [|by repeat split].
  pose proof (sameSession_trackNewIssues issues isInitial
                (set_searchLog (searchLog st ++ [(index,
                   injectProjectConstraintAtEnd (activity_jql a) (project (config st)))]) st))
    as (?&?&?&?&?&?&?).
  pose proof (sameCaches_trackNewIssues issues isInitial
                (set_searchLog (searchLog st ++ [(index,
                   injectProjectConstraintAtEnd (activity_jql a) (project (config st)))]) st))
    as (?&?&?&?&?&?).
  by repeat split.
Qed.

(** ** What a pass over the views leaves in the cache *)

Lemma entryOfPass_same (jira : Jira) (now : Z) (isInitial force : bool) (st st2 : App)
    (i : nat) (view : View) (entry : option IssueCacheEntry) :
  sameCaches st st2 →
  entryOfPass jira now isInitial force st2 i view entry →
  entryOfPass jira now isInitial force st i view entry.
Proof. intros (Hc & Hr & _). unfold entryOfPass. by rewrite Hc, Hr. Qed.

Lemma view_not_activity (c : Config) (i : nat) (view : View) :
  views c !! i = Some view → Some i ≠ activityTabIndex c.
Proof.
  intros Hv%lookup_lt_Some. rewrite activityTabIndex_views.
  destruct (activityEnabledOf c); [|done]. intros [= ->]. lia.
Qed.

Lemma fetchTabs_entries (jira : Jira) (now : Z) (isInitial force : bool)
    (indices : list nat) :
  ∀ newCache didFetch st st' newCache' didFetch',
    NoDup indices →
    fetchTabs jira now isInitial force indices newCache didFetch st
    = (st', Returned (newCache', didFetch')) →
    ∀ i,
      (i ∉ indices ∨ Some i = activityTabIndex (config st) →
       newCache' !! i = newCache !! i)
      ∧ ∀ view, i ∈ indices → views (config st) !! i = Some view →
          entryOfPass jira now isInitial force st i view (newCache' !! i).
Proof.
  induction indices as [|i0 rest IH];
    intros newCache didFetch st st' newCache' didFetch' Hnd Hrun i; simpl in Hrun.
  - injection Hrun as <- <- <-. split; [done|]. intros view Hi. by apply elem_of_nil in Hi.
  - apply NoDup_cons in Hnd as [Hi0 Hnd]. case_bool_decide as Hact.
    { destruct (IH _ _ _ _ _ _ Hnd Hrun i) as [Hkeep Hfill]. split.
      - intros [Hi|Hi]; apply Hkeep; [|by right].
        left. intros Hin. apply Hi. by right.
      - intros view [->|Hi]%elem_of_cons Hv; [|by eapply Hfill].
        by destruct (view_not_activity _ _ _ Hv). }
    destruct (freshEntry isInitial force now (issueCacheRef st !! i0)) as [e|] eqn:Hfresh.
    { destruct (IH _ _ _ _ _ _ Hnd Hrun i) as [Hkeep Hfill]. split.
      - intros [Hi|Hi].
        + rewrite Hkeep by (left; intros Hin; apply Hi; by right).
          apply lookup_insert_ne. intros ->. apply Hi. by left.
        + rewrite Hkeep by by right. apply lookup_insert_ne. intros ->. done.
      - intros view [->|Hi]%elem_of_cons Hv; [|by eapply Hfill].
        destruct (IH _ _ _ _ _ _ Hnd Hrun i0) as [Hkeep0 _].
        rewrite Hkeep0 by by left. rewrite lookup_insert_eq.
        unfold entryOfPass. by rewrite Hfresh. }
    unfold bind, modify in Hrun.
    set (st1 := set_loadingProgress (loadingMessage (config st) i0) st) in Hrun.
    pose proof (fetchIssuesForTab_sameCaches jira i0 st1) as Hsame.
    pose proof (fetchIssuesForTab_view jira i0 st1 Hact) as Hfetch. simpl in Hfetch.
    destruct (fetchIssuesForTab jira i0 st1) as [st2 [issues|message]] eqn:Hf;
      simpl in Hrun; [|done].
    assert (sameCaches st (trackNewIssues issues isInitial st2)) as Hsame'.
    { eapply sameCaches_trans; [|apply sameCaches_trackNewIssues].
      eapply sameCaches_trans; [|exact Hsame]. by repeat split. }
    destruct (IH _ _ _ _ _ _ Hnd Hrun i) as [Hkeep Hfill].
    destruct Hsame' as (Hc & Hsame').
    rewrite Hc in Hkeep. split.
    + intros [Hi|Hi].
      * rewrite Hkeep by (left; intros Hin; apply Hi; by right).
        apply lookup_insert_ne. intros ->. apply Hi. by left.
      * rewrite Hkeep by by right. apply lookup_insert_ne. intros ->. done.
    + intros view [->|Hi]%elem_of_cons Hv.
      2: { eapply entryOfPass_same; [by split|]. apply Hfill; [done|]. by rewrite Hc. }
      destruct (IH _ _ _ _ _ _ Hnd Hrun i0) as [Hkeep0 _].
      rewrite Hkeep0 by by left. rewrite lookup_insert_eq.
      unfold entryOfPass. rewrite Hfresh. exists issues.
      rewrite (requestOf_view _ _ _ Hv) in Hfetch. simpl in Hfetch.
      injection Hfetch as _ Hsearch. eexists. split; [done|]. by rewrite Hsearch.
Qed.

Lemma fetchTabs_returns (jira : Jira) (now : Z) (isInitial force : bool)
    (indices : list nat) :
  (∀ n q, ∃ issues, search jira n q = Returned issues) →
  ∀ newCache didFetch st,
    ∃ st' r, fetchTabs jira now isInitial force indices newCache didFetch st
             = (st', Returned r).
Proof.
  intros Hup. induction indices as [|i0 rest IH]; intros newCache didFetch st; simpl.
  - by eexists _, _.
  - case_bool_decide as Hact; [apply IH|].
    destruct (freshEntry isInitial force now (issueCacheRef st !! i0)); [apply IH|].
    unfold bind, modify.
    rewrite (fetchIssuesForTab_view jira i0
               (set_loadingProgress (loadingMessage (config st) i0) st) Hact). simpl.
    destruct (requestOf (config st) i0) as [r|]; [|apply IH].
    destruct (Hup (length (searchLog st)) r.2) as [issues ->]. apply IH.
Qed.

(** X12.  A pass over the views against a service that answers leaves, for
    every view, either the fresh entry it reused or the issues the service
    returned for the scoped query of the view, stamped with the time the
    pass started; it raises no error and ends the loading state. *)
Theorem fetchAllTabs_fills_every_view (jira : Jira) (now later : Z)
    (isInitial force : bool) (st : App) :
  (∀ n q, ∃ issues, search jira n q = Returned issues) →
  let st' := fetchAllTabs jira now later isInitial force st in
  error st' = error st ∧ loading st' = false
  ∧ ∀ i view, views (config st) !! i = Some view →
      entryOfPass jira now isInitial force st i view (issueCache st' !! i).
Proof.
  intros Hup st'. unfold st', fetchAllTabs.
  destruct (fetchTabs_returns jira now isInitial force (seq 0 (length (tabs (config st))))
              Hup ∅ false st) as (st1 & [newCache didFetch] & Hrun).
  pose proof (fetchTabs_sameCaches jira now isInitial force
                (seq 0 (length (tabs (config st)))) ∅ false st) as (_ & _ & Hcache & He & _).
  rewrite Hrun in *. simpl in *.
  split; [by destruct (didFetch || isInitial)|]. split; [done|].
  intros i view Hv.
  destruct (fetchTabs_entries _ _ _ _ _ _ _ _ _ _ _ (NoDup_seq _ _) Hrun i) as [_ Hfill].
  assert (i ∈ seq 0 (length (tabs (config st)))) as Hi.
  { apply elem_of_seq. apply lookup_lt_Some in Hv. rewrite length_tabs. lia. }
  specialize (Hfill view Hi Hv).
  assert (is_Some (newCache !! i)) as Hsome.
  { unfold entryOfPass in Hfill. destruct (freshEntry _ _ _ _); [by eexists|].
    destruct Hfill as (? & ? & -> & _). by eexists. }
  assert (issueCache
            (if didFetch || isInitial
             then set_lastRefresh later (set_issueCache (newCache ∪ issueCache st1) st1)
             else set_issueCache (newCache ∪ issueCache st1) st1) !! i
          = newCache !! i) as ->; [|done].
  destruct (didFetch || isInitial); simpl; by apply lookup_union_l'.
Qed.

Lemma fetchAllTabs_fills_every_view_witness :
  issueCache (fetchAllTabs jiraABC 100000 100001 false true loadedApp) !! 0%nat
  = Some (entryABC 100000)
  ∧ error (fetchAllTabs jiraABC 100000 100001 false true loadedApp) = error loadedApp.
Proof.
  split; [vm_compute; reflexivity|].
  apply (fetchAllTabs_fills_every_view jiraABC 100000 100001 false true loadedApp).
  intros n q. by eexists.
Defined.

(** X13.  A pass over the views never touches the entry of the activity tab,
    nor any entry beyond the views: whether it succeeds or fails, such an
    entry is afterwards what it was. *)
Theorem fetchAllTabs_leaves_activity_entry (jira : Jira) (now later : Z)
    (isInitial force : bool) (st : App) (i : nat) :
  (length (views (config st)) ≤ i)%nat →
  issueCache (fetchAllTabs jira now later isInitial force st) !! i = issueCache st !! i.
Proof.
  intros Hi. unfold fetchAllTabs.
  pose proof (fetchTabs_sameCaches jira now isInitial force
                (seq 0 (length (tabs (config st)))) ∅ false st) as (_ & _ & Hcache & _).
  destruct (fetchTabs _ _ _ _ _ _ _ st) as [st1 [[newCache didFetch]|message]] eqn:Hrun;
    simpl in *; [|by rewrite Hcache].
  destruct (fetchTabs_entries _ _ _ _ _ _ _ _ _ _ _ (NoDup_seq _ _) Hrun i) as [Hkeep _].
  assert (newCache !! i = None) as Hnone.
  { rewrite Hkeep; [done|]. rewrite activityTabIndex_views, elem_of_seq, length_tabs.
    destruct (activityEnabledOf (config st)); [|left; lia].
    destruct (decide (i = length (views (config st)))) as [->|]; [by right|left; lia]. }
  destruct (didFetch || isInitial); simpl; rewrite lookup_union_r by done; by rewrite Hcache.
Qed.

Lemma fetchAllTabs_leaves_activity_entry_witness :
  issueCache loadedWithActivity !! 1%nat = Some (entryABC 1002)
  ∧ issueCache (fetchAllTabs jiraABC 100000 100001 false true loadedWithActivity) !! 1%nat
    = issueCache loadedWithActivity !! 1%nat.
Proof.
  split; [vm_compute; reflexivity|].
  apply (fetchAllTabs_leaves_activity_entry jiraABC 100000 100001 false true
           loadedWithActivity 1).
  vm_compute. lia.
Defined.

Lemma trackNewIssues_issueCache issues isInitial st :
  issueCache (trackNewIssues issues isInitial st) = issueCache st.
Proof. by destruct (sameCaches_trackNewIssues issues isInitial st) as (_ & _ & ? & _). Qed.

(** X14.  The activity fetch touches nothing but the entry of the activity
    tab, the seen ids and the highlights: the entries of the views, the
    error, the time of the last refresh and the screen shown are what they
    were, also when the fetch fails. *)
Theorem fetchActivityIssues_only_activity_entry (jira : Jira) (now : Z) (isInitial : bool)
    (st : App) :
  let st' := fetchActivityIssues jira now isInitial st in
  screen st' = screen st ∧ error st' = error st ∧ lastRefresh st' = lastRefresh st
  ∧ ∀ i, activityTabIndex (config st) ≠ Some i → issueCache st' !! i = issueCache st !! i.
Proof.
  intros st'.
  destruct (fetchActivityIssues_session jira now isInitial st)
    as ((_ & _ & _ & _ & _ & Hv & Hl) & _ & He & Hr).
  fold st' in Hv, Hl, He, Hr. split; [|split; [done|split; [done|]]].
  { unfold screen. by rewrite Hv, Hl, He. }
  intros i Hi. unfold st', fetchActivityIssues.
  destruct (activity (config st)) as [a|]; [|done].
  destruct (activityTabIndex (config st)) as [index|]; [|done].
  destruct (jiraClient st); [|done]. unfold searchWithProjectConstraint.
  destruct (search jira _ _) as [issues|message]; [|done]. simpl.
  rewrite lookup_insert_ne by congruence. by rewrite trackNewIssues_issueCache.
Qed.

(** ** Start-up validation in the application *)

Lemma validateAndFetch_session (jira : Jira) (now later : Z) (st : App) :
  let st' := validateAndFetch jira now later st in
  configFile st' = configFile st ∧ config st' = config st
  ∧ showSettings st' = showSettings st ∧ showJqlModal st' = showJqlModal st
  ∧ (validationDone st' = true).
Proof.
  intros st'. unfold st', validateAndFetch.
  destruct (validationDone st) eqn:Hdone; [done|].
  destruct (0 <? length (validateConfig (config (set_validationDone true st))))%nat;
    [done|].
  destruct (prevalidatedInitial (set_validationDone true st)).
  { pose proof (fetchAllTabs_session jira now later true false
                  (set_prevalidatedInitial false (set_validationDone true st)))
      as (?&?&?&?&?&?&?). done. }
  set (st1 := set_loadingProgress _ _).
  assert (configFile st1 = configFile st ∧ config st1 = config st
          ∧ showSettings st1 = showSettings st ∧ showJqlModal st1 = showJqlModal st
          ∧ validationDone st1 = true) as (H1 & H2 & H3 & H4 & H5).
  { unfold st1. by destruct (jiraClient (set_validationDone true st)). }
  destruct (length (buildValidationQueries (config st1)) =? 0)%nat; [done|].
  destruct (validateJql jira _) as [results|message]; [|done].
  destruct (existsb _ _); [done|].
  pose proof (fetchAllTabs_session jira now later true false st1) as (?&?&?&?&?&?&?).
  repeat split; congruence.
Qed.

(** X15.  The start-up validation runs once: run again, for whatever the
    service then answers, it changes nothing, until a settings commit
    arms it again. *)
Theorem validateAndFetch_runs_once (jira jira' : Jira) (now later now' later' : Z)
    (newConfig : Config) (st : App) :
  validateAndFetch jira' now' later' (validateAndFetch jira now later st)
  = validateAndFetch jira now later st
  ∧ validationDone (handleSettingsSave newConfig (validateAndFetch jira now later st))
    = false.
Proof.
  split; [|done].
  destruct (validateAndFetch_session jira now later st) as (_ & _ & _ & _ & Hdone).
  unfold validateAndFetch at 1. by rewrite Hdone.
Qed.

(** X16.  The start-up validation sends a search request only for a
    configuration that [validateConfig] accepts and that was either
    validated before the application was rendered or has every query
    answered as valid now. *)
Theorem validateAndFetch_fetches_only_validated (jira : Jira) (now later : Z) (st : App) :
  searchLog (validateAndFetch jira now later st) ≠ searchLog st →
  validationDone st = false ∧ validateConfig (config st) = []
  ∧ (prevalidatedInitial st = true
     ∨ ∃ results,
         validateJql jira (query_jql <$> buildValidationQueries (config st))
         = Returned results
         ∧ ∀ i r, results !! i = Some r →
                  (i < length (buildValidationQueries (config st)))%nat → valid r = true).
Proof.
  unfold validateAndFetch. destruct (validationDone st) eqn:Hdone; [done|].
  intros Hlog. split; [done|].
  change (config (set_validationDone true st)) with (config st) in Hlog.
  change (prevalidatedInitial (set_validationDone true st))
    with (prevalidatedInitial st) in Hlog.
  destruct (validateConfig (config st)) as [|e es] eqn:Hc; [|done]. split; [done|].
  cbn [length Nat.ltb Nat.leb] in Hlog.
  destruct (prevalidatedInitial st) eqn:Hpre; [by left|]. right.
  set (st1 := set_loadingProgress _ _) in Hlog.
  assert (config st1 = config st) as Hcfg
    by (unfold st1; by destruct (jiraClient (set_validationDone true st))).
  assert (searchLog st1 = searchLog st) as Hsl
    by (unfold st1; by destruct (jiraClient (set_validationDone true st))).
  rewrite Hcfg in Hlog.
  destruct (length (buildValidationQueries (config st)) =? 0)%nat; [done|].
  destruct (validateJql jira _) as [results|message] eqn:Hresults; [|done].
  destruct (existsb _ _) eqn:Hex; [done|].
  exists results. split; [done|]. intros i r Hr Hi.
  destruct (valid r) eqn:Hv; [done|]. exfalso.
  apply lookup_lt_is_Some_2 in Hi as [q Hq].
  apply not_true_iff_false in Hex. apply Hex, existsb_exists.
  exists (mkViewValidation (query_name q) (query_jql q) (valid r) (errors r) (warnings r)).
  split; [|simpl; by rewrite Hv].
  apply list_elem_of_In, list_elem_of_filter. split; [simpl; by rewrite Hv|].
  apply list_elem_of_omap. eexists. split; [|reflexivity].
  apply elem_of_lookup_imap. exists i, r. split; [|done].
  unfold toViewValidation. by rewrite Hq.
Qed.

Lemma validateAndFetch_fetches_only_validated_witness :
  validateConfig (config (initialApp oneView false 0)) = []
  ∧ searchLog (validateAndFetch jiraWarning 1000 1001 (initialApp oneView false 0))
    = [(0%nat, js "(status = Open) AND project = PROJ ORDER BY created DESC")].
Proof.
  split; [|vm_compute; reflexivity].
  apply (validateAndFetch_fetches_only_validated jiraWarning 1000 1001
           (initialApp oneView false 0)).
  intros H. vm_compute in H. discriminate H.
Defined.

(** ** The configuration changes only by a settings commit *)

Lemma step_config (ev : AppEvent) (st : App) :
  (∀ newConfig, ev ≠ SettingsSave newConfig) →
  config (step ev st) = config st ∧ configFile (step ev st) = configFile st.
Proof.
  intros Hev. unfold step. simpl. destruct ev; simpl.
  - by destruct (validateAndFetch_session jira now later st) as (? & ? & _).
  - by destruct (fetchAllTabs_session jira now later false false st) as (_&_&?&_&_&_&?).
  - by destruct (fetchActivityIssues_session jira now true st) as ((_&_&?&_) & ? & _).
  - by destruct (fetchActivityIssues_session jira now false st) as ((_&_&?&_) & ? & _).
  - destruct (mainKeys st); [|done].
    by destruct (fetchAllTabs_session jira now later false true (set_loading true st))
      as (_&_&?&_&_&_&?).
  - by destruct (mainKeys st).
  - by destruct (mainKeys st).
  - by destruct (mainKeys st).
  - by destruct (negb (showSettings st) && showJqlModal st).
  - by destruct (Hev newConfig).
  - done.
Qed.

(** X17.  The configuration held by the application and the configuration
    file change only by a settings commit: whatever else happens (the
    effects and timers fire, keys are pressed, the service fails), both
    are afterwards what they were. *)
Theorem config_changes_only_by_settings_save (evs : list AppEvent) (st : App) :
  Forall (λ ev, ∀ newConfig, ev ≠ SettingsSave newConfig) evs →
  config (run evs st) = config st ∧ configFile (run evs st) = configFile st.
Proof.
  revert st. induction evs as [|ev evs IH]; intros st Hevs; [done|].
  apply Forall_cons in Hevs as [Hev Hevs]. unfold run. simpl.
  destruct (step_config ev st Hev) as [<- <-]. by apply IH.
Qed.

Lemma config_changes_only_by_settings_save_witness :
  config (run [RefreshTick jiraDown 100000 100001; KeyClear; KeySettings; SettingsClose]
            loadedApp) = oneView.
Proof.
  apply (config_changes_only_by_settings_save
           [RefreshTick jiraDown 100000 100001; KeyClear; KeySettings; SettingsClose]
           loadedApp).
  repeat constructor; intros newConfig H; discriminate H.
Defined.

(** ** The settings modal stays in range *)

Lemma validateJql_single (jira : Jira) (query : jsstring) (answer : JqlParseResult) :
  parse jira [query] = Returned [answer] →
  validateJql jira [query] = Returned [toValidationResult answer].
Proof. intros Hparse. unfold validateJql. by rewrite Hparse. Qed.

Section Modal.

Import SettingsModal.

Lemma applyEdit_in_range (s : State) : ModalInRange s → ModalInRange (applyEdit s).
Proof.
  intros (Hc & Hm & Hf & Hv). unfold applyEdit, ModalInRange.
  destruct (editField s) as [[| | | |]|], (mode s); try destruct (isNewView s);
    try destruct (numberGtZero _); simpl;
    rewrite ?length_app, ?length_alter; simpl; lia.
Qed.

Lemma editKeys_in_range (clipboard : outcome jsstring) (key : KeyEvent) (field : EditField)
    (s : State) :
  ModalInRange s → ModalInRange (editKeys clipboard key field s).1.
Proof.
  intros Hs. pose proof (applyEdit_in_range s Hs) as Ha.
  destruct Hs as (Hc & Hm & Hf & Hv). unfold editKeys.
  repeat match goal with
         | |- context [if ?b then _ else _] => destruct b eqn:?
         | |- context [match ?x with _ => _ end] => destruct x eqn:?
         end; simpl; try done; unfold ModalInRange, insertAtCursor; simpl;
    rewrite ?length_app, ?length_take, ?length_drop; repeat split; try lia;
    simpl length; rewrite ?length_app, ?length_drop; lia.
Qed.

Lemma menuKeys_in_range (key : KeyEvent) (s : State) :
  ModalInRange s → ModalInRange (menuKeys key s).1.
Proof.
  intros (Hc & Hm & Hf & Hv).
  unfold menuKeys, handleMenuSelect, handleViewSelect, handleEditViewSelect,
    handleActivitySelect.
  repeat match goal with
         | |- context [if ?b then _ else _] => destruct b eqn:?
         | |- context [match ?x with _ => _ end] => destruct x eqn:?
         end; cbn -[Nat.min]; try done; unfold ModalInRange; cbn -[Nat.min];
    repeat split; try lia.
Qed.

(** X18.  Whatever key is pressed and whatever a validation answers, the
    settings modal stays in range: the cursor stays within the text being
    edited, and the selections stay within the menu, the fields of a view
    and the list of views. *)
Theorem settings_modal_stays_in_range (clipboard : outcome jsstring) (key : KeyEvent)
    (error : option jsstring) (numberToString : number → jsstring) (s : State) :
  ModalInRange s →
  ModalInRange (handler clipboard key s).1
  ∧ ModalInRange (validated error s)
  ∧ ∀ s', activityHandler numberToString key s = Some s' → ModalInRange s'.
Proof.
  intros Hs. split; [|split].
  - unfold handler. destruct (validating s); [done|].
    destruct (editField s); [by apply editKeys_in_range|by apply menuKeys_in_range].
  - unfold validated. destruct (truthy error); [done|].
    apply (applyEdit_in_range (set_validating false s)), Hs.
  - intros s'. unfold activityHandler. destruct Hs as (Hc & Hm & Hf & Hv).
    destruct (activity (editingConfig s)) as [a|]; [|done].
    destruct (enabled a); [|done].
    destruct (isKey key "i"); [by intros [= <-]; repeat split|].
    destruct (isKey key "j" || isKey key "J"); [by intros [= <-]; repeat split|done].
Qed.

Lemma settings_modal_stays_in_range_witness :
  ModalInRange (SettingsModal.open oneView)
  ∧ ModalInRange (SettingsModal.handler (Returned []) (named "up")
                    (SettingsModal.open oneView)).1.
Proof.
  assert (ModalInRange (SettingsModal.open oneView)) as H.
  { unfold ModalInRange. simpl. lia. }
  split; [exact H|].
  exact (proj1 (settings_modal_stays_in_range (Returned []) (named "up") None (λ _, [])
                  (SettingsModal.open oneView) H)).
Defined.


(** ** What the settings modal asks for *)

(** X19.  The requests of the settings modal: a validation is asked only
    for the text of a query under edit, on the return key, and leaves the
    draft as it is; a save hands over the draft, and only from the entry
    of the main menu; the modal closes only from the main menu.  While a
    validation is under way no key does anything. *)
Theorem settings_modal_requests (clipboard : outcome jsstring) (key : KeyEvent)
    (s s' : State) (request : ModalRequest) :
  handler clipboard key s = (s', Some request) →
  validating s = false
  ∧ match request with
    | ValidateJql jql =>
        jql = editValue s
        ∧ (editField s = Some FieldJql ∨ editField s = Some FieldActivityJql)
        ∧ isKey key "return" = true
        ∧ validating s' = true ∧ editingConfig s' = editingConfig s
    | OnSave newConfig =>
        newConfig = editingConfig s ∧ editField s = None ∧ mode s = ModeMenu
        ∧ menuIndex s = 3%nat ∧ s' = s
    | OnClose => editField s = None ∧ mode s = ModeMenu ∧ s' = s
    end.
Proof.
  unfold handler. destruct (validating s) eqn:Hv; [done|]. intros Hr. split; [done|].
  destruct (editField s) as [field|] eqn:Hf.
  - unfold editKeys in Hr.
    repeat match type of Hr with
           | context [if ?b then _ else _] => destruct b eqn:?
           | context [match ?x with _ => _ end] => destruct x eqn:?
           end; simplify_eq; simpl; auto 10.
  - unfold menuKeys, handleMenuSelect in Hr.
    repeat match type of Hr with
           | context [if ?b then _ else _] => destruct b eqn:?
           | context [match ?x with _ => _ end] => destruct x eqn:?
           end; simplify_eq; simpl; auto 10.
Qed.

Lemma settings_modal_requests_witness :
  SettingsModal.validating (editingQuery (js "status = Done")) = false.
Proof.
  eapply (λ s' request H,
            proj1 (settings_modal_requests (Returned []) (named "return")
                     (editingQuery (js "status = Done")) s' request H)).
  vm_compute. reflexivity.
Defined.

(** ** What changes the draft *)

Lemma applyEdit_domain (s : State) :
  domain (editingConfig (applyEdit s)) = domain (editingConfig s).
Proof.
  unfold applyEdit.
  destruct (editField s) as [[| | | |]|], (mode s); try destruct (isNewView s);
    try destruct (numberGtZero _); done.
Qed.

(** X20.  The settings modal never changes the domain of the draft.  The
    keys that type, move the cursor, paste or cancel never change the
    draft: it changes on the return key and on [d] only.  While a query is
    under edit no key changes the draft at all: a query enters the draft
    only by the answer to its validation. *)
Theorem settings_modal_draft_changes (clipboard : outcome jsstring) (key : KeyEvent)
    (error : option jsstring) (s : State) :
  let s' := (handler clipboard key s).1 in
  domain (editingConfig s') = domain (editingConfig s)
  ∧ domain (editingConfig (validated error s)) = domain (editingConfig s)
  ∧ (editingConfig s' ≠ editingConfig s → isKey key "return" = true ∨ isKey key "d" = true)
  ∧ (editField s = Some FieldJql ∨ editField s = Some FieldActivityJql →
     editingConfig s' = editingConfig s).
Proof.
  intros s'. split; [|split; [|split]].
  - unfold s', handler. destruct (validating s); [done|].
    destruct (editField s) as [field|].
    + pose proof (applyEdit_domain s) as Ha. unfold editKeys.
      repeat match goal with
             | |- context [if ?b then _ else _] => destruct b eqn:?
             | |- context [match ?x with _ => _ end] => destruct x eqn:?
             end; done.
    + unfold menuKeys, handleMenuSelect, handleViewSelect, handleEditViewSelect,
        handleActivitySelect.
      repeat match goal with
             | |- context [if ?b then _ else _] => destruct b eqn:?
             | |- context [match ?x with _ => _ end] => destruct x eqn:?
             end; done.
  - unfold validated. destruct (truthy error); [done|].
    apply (applyEdit_domain (set_validating false s)).
  - unfold s', handler. destruct (validating s); [done|].
    destruct (editField s) as [field|].
    + unfold editKeys.
      repeat match goal with
             | |- context [if ?b then _ else _] => destruct b eqn:?
             | |- context [match ?x with _ => _ end] => destruct x eqn:?
             end; simpl; try (by left); by intros [].
    + unfold menuKeys, handleMenuSelect, handleViewSelect, handleEditViewSelect,
        handleActivitySelect.
      repeat match goal with
             | |- context [if ?b then _ else _] => destruct b eqn:?
             | |- context [match ?x with _ => _ end] => destruct x eqn:?
             end; simpl; try (by left); try (by intros []).
      all: repeat match goal with
                  | H : _ && _ = true |- _ => apply andb_true_iff in H as [? ?]
                  end; by right.
  - unfold s', handler. destruct (validating s); [done|].
    intros [Hf|Hf]; rewrite Hf; unfold editKeys;
      repeat match goal with
             | |- context [if ?b then _ else _] => destruct b eqn:?
             | |- context [match ?x with _ => _ end] => destruct x eqn:?
             end; done.
Qed.

(** ** The polling interval stays positive *)

Lemma applyEdit_interval (s : State) :
  ModalIntervalPositive s → ModalIntervalPositive (applyEdit s).
Proof.
  intros [Hpos Hact]. unfold applyEdit, ModalIntervalPositive.
  destruct (editField s) as [[| | | |]|] eqn:Hf; [| | | |destruct Hact as [a Ha]; [done|]|];
    destruct (mode s); try destruct (isNewView s);
    try destruct (numberGtZero (parseInt (editValue s))) eqn:Hn; simpl;
    (split; [|done]); try done.
  all: try (intros a' [= <-]; simpl; first [done | unfold spreadActivity; rewrite Ha; simpl; by apply Hpos]).
Qed.

(** X21.  Through the settings modal the polling interval never becomes
    zero, negative or not a number: when the interval of the draft is
    positive (or the draft has no activity section), it is so after every
    key and every answer of a validation. *)
Theorem settings_modal_keeps_interval_positive (clipboard : outcome jsstring)
    (key : KeyEvent) (error : option jsstring) (numberToString : number → jsstring)
    (s : State) :
  ModalIntervalPositive s →
  ModalIntervalPositive (handler clipboard key s).1
  ∧ ModalIntervalPositive (validated error s)
  ∧ ∀ s', activityHandler numberToString key s = Some s' → ModalIntervalPositive s'.
Proof.
  intros Hs. pose proof (applyEdit_interval s Hs) as Ha.
  split; [|split].
  - destruct Hs as [Hpos Hact]. unfold handler. destruct (validating s); [done|].
    destruct (editField s) as [field|] eqn:Hf.
    + unfold editKeys.
      repeat match goal with
             | |- context [if ?b then _ else _] => destruct b eqn:?
             | |- context [match ?x with _ => _ end] => destruct x eqn:?
             end; simpl; try done; split; simpl; try done;
        intros H; apply Hact; congruence.
    + unfold menuKeys, handleMenuSelect, handleViewSelect, handleEditViewSelect,
        handleActivitySelect.
      repeat match goal with
             | |- context [if ?b then _ else _] => destruct b eqn:?
             | |- context [match ?x with _ => _ end] => destruct x eqn:?
             end; simpl; try done; split; simpl; try done; try congruence.
      all: try (intros a' [= <-]; simpl; first [done | by apply Hpos]).

  - unfold validated. destruct (truthy error); [done|].
    apply (applyEdit_interval (set_validating false s)), Hs.
  - intros s'. destruct Hs as [Hpos Hact]. unfold activityHandler.
    destruct (activity (editingConfig s)) as [a|] eqn:Hsome; [|done].
    destruct (enabled a); [|done].
    destruct (isKey key "i").
    { intros [= <-]. split; simpl; [by rewrite Hsome|done]. }
    destruct (isKey key "j" || isKey key "J"); [|done].
    intros [= <-]. split; simpl; [by rewrite Hsome|]. intros _. by rewrite Hsome.
Qed.

Lemma settings_modal_keeps_interval_positive_witness :
  ModalIntervalPositive
    (SettingsModal.validated None
       (pressAll [named "down"; named "down"; named "return"]
          (SettingsModal.open withActivity)).1).
Proof.
  apply (λ H, proj1 (proj2 (settings_modal_keeps_interval_positive (Returned [])
                               (named "return") None (λ _, []) _ H))).
  split.
  - intros a H. vm_compute in H. injection H as <-. reflexivity.
  - intros H. vm_compute in H. discriminate H.
Defined.

(** ** What the settings modal lets into the draft *)

Lemma execFrom_spaces (prevWord : bool) (s : jsstring) (k : nat) :
  Forall (λ c, isWhiteSpace c = true) s → execFrom prevWord s k = None.
Proof.
  intros Hs. revert prevWord k. induction Hs as [|c s Hc _ IH]; intros prevWord k; [done|].
  cbn [execFrom].
  assert (matchHere prevWord (c :: s) = false) as ->; [|apply IH].
  unfold matchHere. destruct prevWord; [done|]. cbn [negb andb].
  change (js "order") with (111 :: js "rder"). cbn [matchLit].
  destruct (ciEq 111 c) eqn:Ho; [|done].
  apply ciEq_spec in Ho as [->| ->]; done.
Qed.

Lemma inject_blank (q p : jsstring) :
  blank q = true → injectProjectConstraintAtEnd q p = js "project = " ++ p.
Proof.
  unfold blank. intros Hq%Nat.eqb_eq%nil_length_inv.
  unfold injectProjectConstraintAtEnd, splitOrderBy, execOrderBy.
  rewrite execFrom_spaces by by apply trim_nil_iff. by rewrite Hq.
Qed.

Lemma blank_view_invalid (c : Config) (i : nat) (view : View) :
  views c !! i = Some view → blank (view_jql view) = true → validateConfig c ≠ [].
Proof.
  intros Hv Hb Hc%validateConfig_passes_iff. destruct Hc as (_ & _ & _ & Hvs & _).
  destruct (proj1 (Forall_lookup _ _) Hvs i view Hv) as [_ Hq]. congruence.
Qed.

(** X22.  The modal validates a query as scoped to the project, so a blank
    query passes whenever the service accepts the bare project
    constraint: the blank query is written into the view, and the draft
    is then one that [validateConfig] rejects. *)
Theorem settings_modal_accepts_blank_query (jira : Jira) (s : State) (view : View)
    (answer : JqlParseResult) :
  mode s = ModeEditView → editField s = Some FieldJql →
  views (editingConfig s) !! viewIndex s = Some view →
  blank (editValue s) = true →
  parse jira [js "project = " ++ project (editingConfig s)] = Returned [answer] →
  valid (toValidationResult answer) = true →
  let s' := validated (validateJql jira (editValue s) s) s in
  views (editingConfig s') !! viewIndex s = Some (mkView (view_name view) (editValue s))
  ∧ validateConfig (editingConfig s') ≠ [].
Proof.
  intros Hm Hf Hv Hb Hparse Hvalid s'.
  assert (validateJql jira (editValue s) s = None) as Hnone.
  { unfold validateJql. rewrite inject_blank by done.
    rewrite (validateJql_single _ _ _ Hparse). cbn [head]. by rewrite Hvalid. }
  assert (views (editingConfig s') !! viewIndex s
          = Some (mkView (view_name view) (editValue s))) as Hview.
  { unfold s'. rewrite Hnone. unfold validated, applyEdit. simpl. rewrite Hf, Hm. simpl.
    by rewrite list_lookup_alter_eq, Hv. }
  split; [done|]. by eapply blank_view_invalid.
Qed.

Lemma settings_modal_accepts_blank_query_witness :
  validateConfig
    (SettingsModal.editingConfig
       (SettingsModal.validated
          (SettingsModal.validateJql jiraWarning
             (SettingsModal.editValue (editingQuery (js "  ")))
             (editingQuery (js "  ")))
          (editingQuery (js "  ")))) ≠ [].
Proof.
  apply (settings_modal_accepts_blank_query jiraWarning (editingQuery (js "  "))
           (mkView (js "Open") (js "status = Open ORDER BY created DESC"))
           (mkParseResult (js "project = PROJ") None (Some [js "deprecated field"])));
    vm_compute; reflexivity.
Defined.

Lemma pressAll_app (keys1 keys2 : list KeyEvent) (s : State) :
  pressAll (keys1 ++ keys2) s
  = ((pressAll keys2 (pressAll keys1 s).1).1,
     (pressAll keys1 s).2 ++ (pressAll keys2 (pressAll keys1 s).1).2).
Proof.
  revert s. induction keys1 as [|key keys1 IH]; intros s; simpl.
  - by destruct (pressAll keys2 s).
  - destruct (handler (Returned []) key s) as [s1 request]. rewrite IH.
    destruct (pressAll keys1 s1) as [s2 requests]. simpl.
    destruct (pressAll keys2 s2) as [s3 requests']. simpl. by rewrite (assoc_L (++)).
Qed.

(** A printable code unit typed into the field under edit. *)
Lemma handler_typed (c : N) (field : EditField) (s : State) :
  validating s = false → editField s = Some field → 32 ≤ c →
  handler (Returned []) (typed c) s = (insertAtCursor [c] s, None).
Proof.
  intros Hv Hf Hc. unfold handler. rewrite Hv, Hf. unfold editKeys, isKey, strEq.
  cbn [typed key_ctrl key_meta key_sequence key_name orb andb].
  repeat (rewrite bool_decide_eq_false_2
            by (intros H; vm_compute in H; discriminate H)).
  cbn [orb andb].
  rewrite filter_cons_True by exact Hc. by rewrite filter_nil.
Qed.

Lemma pressAll_cons (key : KeyEvent) (rest : list KeyEvent) (s : State) :
  pressAll (key :: rest) s
  = ((pressAll rest (handler (Returned []) key s).1).1,
     option_list (handler (Returned []) key s).2
     ++ (pressAll rest (handler (Returned []) key s).1).2).
Proof.
  cbn [pressAll]. destruct (handler (Returned []) key s) as [s1 request]. cbn [fst snd].
  by destruct (pressAll rest s1).
Qed.

Lemma pressAll_typed (text : jsstring) (field : EditField) (s : State) :
  validating s = false → editField s = Some field → Forall (λ c, 32 ≤ c) text →
  cursorPos s = length (editValue s) →
  let s' := (pressAll (typed <$> text) s).1 in
  (pressAll (typed <$> text) s).2 = []
  ∧ editValue s' = editValue s ++ text ∧ cursorPos s' = length (editValue s')
  ∧ validating s' = false ∧ editField s' = Some field ∧ mode s' = mode s
  ∧ editingConfig s' = editingConfig s ∧ isNewView s' = isNewView s
  ∧ viewIndex s' = viewIndex s.
Proof.
  revert s. induction text as [|c text IH]; intros s Hv Hf Htext Hcur.
  - simpl. by rewrite (right_id_L [] (++)).
  - apply Forall_cons in Htext as [Hc Htext].
    rewrite fmap_cons, pressAll_cons, (handler_typed c field s Hv Hf Hc). cbn [fst snd].
    assert (editValue (insertAtCursor [c] s) = editValue s ++ [c]) as Hval.
    { unfold insertAtCursor. simpl. by rewrite Hcur, take_ge, drop_ge by lia. }
    assert (cursorPos (insertAtCursor [c] s) = length (editValue (insertAtCursor [c] s)))
      as Hcur'.
    { rewrite Hval, length_app. unfold insertAtCursor. simpl. lia. }
    destruct (IH (insertAtCursor [c] s) Hv Hf Htext Hcur')
      as (H1 & H2 & H3 & H4 & H5 & H6 & H7 & H8 & H9).
    rewrite H1. split; [done|]. split; [|done].
    rewrite H2, Hval. by rewrite <- (assoc_L (++)).
Qed.

(** X23.  A view that is added and abandoned at its query stays in the
    draft: after the name of a new view is confirmed and the query prompt
    that follows is left with the escape key, the draft holds the view
    with an empty query, no validation was asked for, and the draft is
    one that [validateConfig] rejects. *)
Theorem settings_modal_keeps_abandoned_new_view (s : State) (name : jsstring) :
  mode s = ModeViews → editField s = None → validating s = false →
  viewIndex s = length (views (editingConfig s)) →
  Forall (λ c, 32 ≤ c) name →
  let keys := [named "return"] ++ (typed <$> name) ++ [named "return"; named "escape"] in
  (pressAll keys s).2 = []
  ∧ views (editingConfig (pressAll keys s).1) = views (editingConfig s) ++ [mkView name []]
  ∧ editField (pressAll keys s).1 = None
  ∧ validateConfig (editingConfig (pressAll keys s).1) ≠ [].
Proof.
  intros Hm Hf Hv Hi Hname keys. unfold keys. rewrite !pressAll_app.
  set (s1 := (pressAll [named "return"] s).1).
  assert (pressAll [named "return"] s
          = (startEditing FieldName []
               (set_fieldIndex 0 (set_isNewView true (set_mode ModeEditView s))), []))
    as Hs1.
  { rewrite pressAll_cons. cbn [pressAll]. unfold handler. rewrite Hv, Hf. unfold menuKeys.
    repeat match goal with
           | |- context [isKey (named ?a) ?b] =>
               let x := eval vm_compute in (isKey (named a) b) in
               change (isKey (named a) b) with x
           end.
    cbn [orb andb]. rewrite Hm. unfold handleViewSelect. by rewrite Hi, Nat.eqb_refl. }
  unfold s1. rewrite Hs1. cbn [fst snd].
  set (s1' := startEditing _ _ _).
  destruct (pressAll_typed name FieldName s1')
    as (H1 & H2 & H3 & H4 & H5 & H6 & H7 & H8 & H9); try done.
  set (s2 := (pressAll (typed <$> name) s1').1) in *.
  rewrite H1.
  assert (pressAll [named "return"; named "escape"] s2
          = (clearEditState
               (set_isNewView false
                  (startEditing FieldJql []
                     (set_editingConfig
                        (with_views (views (editingConfig s) ++ [mkView name []])
                           (editingConfig s))
                        (set_viewIndex
                           (length (views (editingConfig s) ++ [mkView name []]) - 1)
                           s2)))), [])) as Hs3.
  { rewrite pressAll_cons. unfold handler at 1 2 3. rewrite H4, H5. unfold editKeys.
    repeat match goal with
           | |- context [isKey (named ?a) ?b] =>
               let x := eval vm_compute in (isKey (named a) b) in
               change (isKey (named a) b) with x
           end.
    cbn [orb andb fst snd].
    assert (applyEdit s2
            = set_isNewView false
                (startEditing FieldJql []
                   (set_editingConfig
                      (with_views (views (editingConfig s) ++ [mkView name []])
                         (editingConfig s))
                      (set_viewIndex
                         (length (views (editingConfig s) ++ [mkView name []]) - 1)
                         s2)))) as ->.
    { unfold applyEdit. by rewrite H5, H6, H8, H7, H2. }
    set (s3 := set_isNewView false _).
    rewrite pressAll_cons. cbn [pressAll fst snd].
    assert (handler (Returned []) (named "escape") s3 = (clearEditState s3, None)) as ->.
    { unfold handler. change (validating s3) with (validating s2). rewrite H4.
      change (editField s3) with (Some FieldJql). unfold editKeys.
      change (isKey (named "escape") "escape") with true. done. }
    done. }
  rewrite Hs3. cbn [fst snd]. split; [done|]. split; [done|]. split; [done|].
  apply (blank_view_invalid _ (length (views (editingConfig s))) (mkView name [])).
  - simpl. by rewrite list_lookup_middle.
  - reflexivity.
Qed.

Lemma settings_modal_keeps_abandoned_new_view_witness :
  views (SettingsModal.editingConfig
           (pressAll ([named "return"] ++ (typed <$> js "Mine")
                      ++ [named "return"; named "escape"])
              (pressAll [named "down"; named "return"; named "down"]
                 (SettingsModal.open oneView)).1).1)
  = views oneView ++ [mkView (js "Mine") []].
Proof.
  apply (settings_modal_keeps_abandoned_new_view
           (pressAll [named "down"; named "return"; named "down"]
              (SettingsModal.open oneView)).1 (js "Mine"));
    try (vm_compute; reflexivity).
  vm_compute. repeat constructor; discriminate.
Defined.

End Modal.

(** ** The wizard keeps the configuration valid *)

Lemma blank_trim (s : jsstring) : blank (trim s) = blank s.
Proof. unfold blank. by rewrite trim_idemp. Qed.

Lemma ValidView_trimmed (name jql : jsstring) :
  blank name = false → blank jql = false → ValidView (mkView (trim name) (trim jql)).
Proof. intros Hn Hq. split; simpl; by rewrite blank_trim. Qed.

Lemma ValidConfig_views (c : Config) (vs : list View) :
  ValidConfig c → vs ≠ [] → Forall ValidView vs →
  ValidConfig (SettingsModal.with_views vs c).
Proof. intros (Hp & Hd & _ & _ & Ha) Hne Hvs. by do 4 (split; [done|]). Qed.

Lemma addView_valid (jira : Jira) (viewName jql : jsstring) (c : Config) :
  ValidConfig c → ValidConfig (ConfigWizard.addView jira viewName jql c).1.
Proof.
  intros Hc. unfold ConfigWizard.addView.
  destruct (blank viewName) eqn:Hn; [done|]. destruct (blank jql) eqn:Hq; [done|].
  destruct (negb _); [done|]. simpl.
  apply ValidConfig_views; [done|by destruct (views c)|].
  destruct Hc as (_ & _ & _ & Hvs & _).
  apply Forall_app. split; [done|]. apply Forall_singleton. by apply ValidView_trimmed.
Qed.

Lemma rename_valid (newName : jsstring) (choice : nat) (c : Config) :
  ValidConfig c → blank newName = false →
  ValidConfig (SettingsModal.with_views
                 (alter (λ view, mkView (trim newName) (view_jql view)) choice (views c)) c).
Proof.
  intros Hc Hn. pose proof Hc as (_ & _ & Hne & Hvs & _).
  apply ValidConfig_views; [done| |].
  - intros H%(f_equal length). rewrite length_alter in H. by destruct (views c).
  - apply Forall_alter; [done|]. intros v _ [_ Hq]. split; simpl; [by rewrite blank_trim|done].
Qed.

Lemma requery_valid (newJql : jsstring) (choice : nat) (c : Config) :
  ValidConfig c → blank newJql = false →
  ValidConfig (SettingsModal.with_views
                 (alter (λ view, mkView (view_name view) (trim newJql)) choice (views c)) c).
Proof.
  intros Hc Hn. pose proof Hc as (_ & _ & Hne & Hvs & _).
  apply ValidConfig_views; [done| |].
  - intros H%(f_equal length). rewrite length_alter in H. by destruct (views c).
  - apply Forall_alter; [done|]. intros v _ [Hq _]. split; simpl; [done|by rewrite blank_trim].
Qed.

Lemma editView_valid (jira : Jira) (menuAnswer editAnswer newName newJql : jsstring)
    (c : Config) :
  ValidConfig c →
  ValidConfig (ConfigWizard.editView jira menuAnswer editAnswer newName newJql c).1.
Proof.
  intros Hc. unfold ConfigWizard.editView.
  destruct (length (views c) =? 0)%nat; [done|].
  destruct (Wizard.askMenu menuAnswer _) as [choice|]; [|done].
  destruct (choice =? _)%nat; [done|].
  destruct (views c !! choice) as [view|]; [|done].
  destruct (Wizard.askMenu editAnswer _) as [editChoice|]; [|done].
  destruct (editChoice =? 3)%nat; [done|].
  set (c1 := if _ && negb (blank newName) then _ else c).
  assert (ValidConfig c1) as Hc1.
  { unfold c1. destruct (_ || _); simpl; [|done].
    destruct (blank newName) eqn:Hn; simpl; [done|]. by apply rename_valid. }
  clearbody c1. destruct (_ || _); simpl; [|done].
  destruct (blank newJql) eqn:Hq; simpl; [done|].
  destruct (negb _); [done|]. simpl. by apply requery_valid.
Qed.

Lemma removeView_valid (menuAnswer confirmAnswer : jsstring) (c : Config) :
  ValidConfig c → ValidConfig (Wizard.removeView menuAnswer confirmAnswer c).1.1.
Proof.
  intros Hc. unfold Wizard.removeView.
  destruct (length (views c) =? 0)%nat; [done|].
  destruct (length (views c) =? 1)%nat eqn:H1; [done|].
  destruct (Wizard.askMenu menuAnswer _) as [choice|]; [|done].
  destruct (choice =? _)%nat; [done|].
  destruct (views c !! choice) as [view|] eqn:Hv; [|done].
  destruct (Wizard.askYesNo confirmAnswer); [|done]. simpl.
  pose proof Hc as (_ & _ & Hne & Hvs & _).
  apply ValidConfig_views; [done| |by apply Forall_delete].
  intros H%(f_equal length). rewrite length_delete in H by by eexists.
  apply Nat.eqb_neq in H1. simpl in H. destruct (views c) as [|? [|? ?]]; simpl in *; done.
Qed.

Lemma changeProject_valid (newProject confirmAnswer : jsstring) (c : Config) :
  ValidConfig c → ValidConfig (ConfigWizard.changeProject newProject confirmAnswer c).1.
Proof.
  intros Hc. unfold ConfigWizard.changeProject.
  destruct (blank newProject) eqn:Hp; [done|].
  destruct (negb _); [done|]. simpl.
  destruct Hc as (_ & Hd & Hne & Hvs & Ha). split; [|by do 3 (split; [done|])].
  simpl. by rewrite blank_trim.
Qed.

Lemma defaultJql_not_blank : blank ConfigWizard.defaultJql = false.
Proof. vm_compute. reflexivity. Qed.

Lemma configureActivity_valid (jira : Jira) (menuAnswer intervalInput jql : jsstring)
    (c : Config) (a : ActivityConfig) :
  ValidActivity a →
  ValidActivity (ConfigWizard.configureActivity jira menuAnswer intervalInput jql c a).1.
Proof.
  intros Ha. unfold ConfigWizard.configureActivity.
  destruct (enabled a) eqn:Hon.
  - destruct (Ha Hon) as [Hi Hq].
    destruct (Wizard.askMenu menuAnswer _) as [[|[|[|choice]]]|]; simpl; try assumption.
    + by intros [=].
    + destruct (numberGtZero (parseInt (trim intervalInput))) eqn:Hn; simpl; [|assumption].
      intros _. by split.
    + destruct (blank jql) eqn:Hb; simpl; [assumption|].
      destruct (negb _); simpl; [assumption|].
      intros _. split; simpl; [done|by rewrite blank_trim].
  - destruct (Wizard.askMenu menuAnswer _) as [[|[|choice]]|]; simpl; try assumption.
    + intros _. split; [done|apply defaultJql_not_blank].
    + destruct (blank jql) eqn:Hb; simpl; [assumption|].
      destruct (negb _); simpl; [assumption|]. intros _. simpl.
      split; [|by rewrite blank_trim].
      by destruct (numberGtZero (parseInt (trim intervalInput))) eqn:Hn.
Qed.

(** X24.  The operations of the wizard's menu keep a valid configuration
    valid: whatever is typed and whatever the service answers, after
    adding, editing or removing a view, changing the project key or
    configuring the activity panel, the configuration is one that
    [validateConfig] accepts when it was one before. *)
Theorem wizard_keeps_config_valid (jira : Jira)
    (viewName jql menuAnswer editAnswer newName newJql confirmAnswer newProject
       intervalInput : jsstring) (c : Config) :
  ValidConfig c →
  ValidConfig (ConfigWizard.addView jira viewName jql c).1
  ∧ ValidConfig (ConfigWizard.editView jira menuAnswer editAnswer newName newJql c).1
  ∧ ValidConfig (Wizard.removeView menuAnswer confirmAnswer c).1.1
  ∧ ValidConfig (ConfigWizard.changeProject newProject confirmAnswer c).1
  ∧ ∀ a, activity c = Some a →
         ValidConfig (ConfigWizard.withConfiguredActivity jira menuAnswer intervalInput
                        jql c a).
Proof.
  intros Hc. split; [by apply addView_valid|]. split; [by apply editView_valid|].
  split; [by apply removeView_valid|]. split; [by apply changeProject_valid|].
  intros a Ha. destruct Hc as (Hp & Hd & Hne & Hvs & Hact).
  do 4 (split; [done|]). intros a' [= <-].
  apply configureActivity_valid. by apply Hact.
Qed.

Lemma wizard_keeps_config_valid_witness :
  ValidConfig twoViews
  ∧ ValidConfig
      (ConfigWizard.addView jiraWarning (js "Closed") (js "status = Closed") twoViews).1
  ∧ ValidConfig (Wizard.removeView (js "1") (js "y") twoViews).1.1.
Proof.
  assert (ValidConfig twoViews) as H
    by (apply validateConfig_passes_iff; vm_compute; reflexivity).
  split; [exact H|].
  pose proof (wizard_keeps_config_valid jiraWarning (js "Closed") (js "status = Closed")
                (js "1") [] [] [] (js "y") [] [] twoViews H) as (Hadd & _ & Hremove & _).
  by split.
Defined.

(** ** The full wizard *)

Lemma addViews_valid (jira : Jira) (domain project : jsstring)
    (rounds : list ConfigWizard.Round)
    (vs vs' : list View) :
  Forall ValidView vs →
  ConfigWizard.addViews jira domain project rounds vs = Some vs' →
  Forall ValidView vs' ∧ vs' ≠ [].
Proof.
  revert vs. induction rounds as [|round rounds IH]; intros vs Hvs; simpl; [done|].
  destruct (blank (ConfigWizard.round_name round)) eqn:Hn; [by apply IH|].
  destruct (blank (ConfigWizard.round_jql round)) eqn:Hq; [by apply IH|].
  destruct (negb _); [by apply IH|].
  assert (Forall ValidView
            (vs ++ [mkView (trim (ConfigWizard.round_name round))
                      (trim (ConfigWizard.round_jql round))])) as Hvs'.
  { apply Forall_app. split; [done|]. apply Forall_singleton. by apply ValidView_trimmed. }
  destruct (Wizard.askYesNo _); [by apply IH|].
  intros [= <-]. split; [done|]. by destruct vs.
Qed.

(** X25.  The full wizard only ever gives a configuration that
    [validateConfig] accepts: a domain and a project key that are not
    blank, at least one view, every view with a name and a validated
    query, and an activity section with a positive interval and, when
    enabled, a query. *)
Theorem runFullWizard_gives_valid_config (jira : Jira) (existing : option Config)
    (domainAnswer projectAnswer : jsstring) (rounds : list ConfigWizard.Round)
    (enableAnswer useDefaultAnswer activityJqlTyped pollingInput : jsstring)
    (c : Config) :
  ConfigWizard.runFullWizard jira existing domainAnswer projectAnswer rounds enableAnswer
    useDefaultAnswer activityJqlTyped pollingInput = Some (Some c) →
  validateConfig c = [].
Proof.
  unfold ConfigWizard.runFullWizard.
  set (d := trim (if (0 <? length (trim domainAnswer))%nat then _ else _)).
  destruct (length d =? 0)%nat eqn:Hd; [done|].
  destruct (blank projectAnswer) eqn:Hp; [done|].
  destruct (ConfigWizard.addViews _ _ _ _ _) as [vs|] eqn:Hvs; [|done].
  destruct (addViews_valid _ _ _ _ _ _ (Forall_nil_2 _) Hvs) as [Hall Hne].
  destruct (length vs =? 0)%nat; [done|].
  intros [= <-]. apply validateConfig_passes_iff.
  split; [simpl; by rewrite blank_trim|].
  split; [simpl; unfold blank, d; by rewrite trim_idemp|].
  split; [done|]. split; [done|]. intros a [= <-] Hon. simpl in *. rewrite Hon. split.
  - by destruct (numberGtZero (parseInt (trim pollingInput))) eqn:Hn.
  - destruct (Wizard.askYesNo useDefaultAnswer); [apply defaultJql_not_blank|].
    destruct (blank activityJqlTyped) eqn:Hb; simpl; [apply defaultJql_not_blank|].
    destruct (negb _); [apply defaultJql_not_blank|]. by rewrite blank_trim.
Qed.

Lemma runFullWizard_gives_valid_config_witness :
  validateConfig
    (mkConfig (js "PROJ") (js "example.atlassian.net")
       [mkView (js "Open") (js "status = Open")]
       (Some (mkActivityConfig false (Num 5) []))) = [].
Proof.
  apply (runFullWizard_gives_valid_config jiraWarning None (js " example.atlassian.net ")
           (js "PROJ") [ConfigWizard.mkRound (js "Open") (js "status = Open") (js "n")]
           (js "n") [] [] []).
  vm_compute. reflexivity.
Defined.

(** ** Validation in the wizard *)

(** The verdict of the wizard's [validateJql] and its messages agree:
    a query is reported valid exactly when there is no message to print.
    It is reported valid only when the domain is not blank and the
    service answered the scoped query with a result that carries no
    error; a blank domain, a failed request and an answer without
    result each give a message of their own. *)
Theorem wizard_validateJql_verdict (jira : Jira) (domain jql project : jsstring) :
  let validation := ConfigWizard.validateJql jira domain jql project in
  (validation.1 = true ↔ validation.2 = [])
  ∧ (validation.1 = true →
     blank domain = false
     ∧ ∃ answer answers,
         parse jira [injectProjectConstraintAtEnd jql project] = Returned (answer :: answers)
         ∧ default [] (parse_errors answer) = []).
Proof.
  intros validation. unfold validation, ConfigWizard.validateJql, validateJql.
  destruct (blank domain); [split; [by split|done]|].
  destruct (parse jira _) as [[|answer answers]|message]; simpl;
    [split; [by split|done]| |split; [by split|done]].
  unfold toValidationResult. simpl.
  destruct (parse_errors answer) as [[|e es]|] eqn:He; simpl; (split; [by split|]);
    try done; intros _; (split; [done|]); exists answer, answers; by rewrite He.
Qed.

(** ** Switching the activity panel off and on *)

(** X26.  Disabling the activity panel in the wizard erases its query, and
    enabling it again with the defaults sets the interval to five minutes
    and the query to the default one: the custom query and interval are
    gone.  In the settings modal, switching the panel off and on gives
    back the section as it was. *)
Theorem activity_off_and_on (jira : Jira) (intervalInput jql : jsstring) (c : Config)
    (a : ActivityConfig) (s : SettingsModal.State) :
  enabled a = true →
  let disabled := (ConfigWizard.configureActivity jira (js "1") intervalInput jql c a).1 in
  let enabledAgain :=
    (ConfigWizard.configureActivity jira (js "1") intervalInput jql c disabled).1 in
  disabled = mkActivityConfig false (pollingIntervalMinutes a) []
  ∧ enabledAgain = mkActivityConfig true (Num 5) ConfigWizard.defaultJql
  ∧ (activity (SettingsModal.editingConfig s) = Some a →
     activity (SettingsModal.editingConfig
                 (SettingsModal.handleActivitySelect (SettingsModal.handleActivitySelect s)))
     = Some a).
Proof.
  intros Hon disabled enabledAgain.
  assert (disabled = mkActivityConfig false (pollingIntervalMinutes a) []) as Hd.
  { unfold disabled, ConfigWizard.configureActivity. rewrite Hon. reflexivity. }
  split; [done|]. split.
  - unfold enabledAgain. rewrite Hd. reflexivity.
  - intros Ha. unfold SettingsModal.handleActivitySelect at 2. rewrite Ha.
    unfold SettingsModal.handleActivitySelect. simpl. rewrite negb_involutive.
    by destruct a.
Qed.

Lemma activity_off_and_on_witness :
  (ConfigWizard.configureActivity jiraWarning (js "1") [] []
     withActivity
     (ConfigWizard.configureActivity jiraWarning (js "1") [] [] withActivity
        (mkActivityConfig true (Num (inject_Z 15)) (js "updated >= -1h"))).1).1
  = mkActivityConfig true (Num 5) ConfigWizard.defaultJql.
Proof.
  apply (activity_off_and_on jiraWarning [] [] withActivity
           (mkActivityConfig true (Num (inject_Z 15)) (js "updated >= -1h"))
           (SettingsModal.open withActivity)).
  reflexivity.
Defined.

(** ** Reading a query *)

Lemma readLines_text (lines rest gathered : list jsstring) :
  Forall (λ line, line ≠ []) lines → gathered ++ lines ≠ [] →
  ConfigWizard.readLines (lines ++ [] :: rest) gathered
  = Some (trim (join [10] (gathered ++ lines)), rest).
Proof.
  revert gathered. induction lines as [|line lines IH]; intros gathered Hlines Hne.
  - rewrite (right_id_L [] (++)) in *. simpl.
    destruct gathered; [done|]. reflexivity.
  - apply Forall_cons in Hlines as [Hline Hlines]. simpl.
    destruct line as [|ch line]; [done|]. simpl.
    rewrite IH; [by rewrite <- (assoc_L (++))|done|].
    by destruct gathered.
Qed.

(** X27.  [readMultilineJql] skips the empty lines typed before the first
    line of text, gathers the lines up to the first empty line after it,
    and gives them joined by line feeds and trimmed; the lines typed
    after that empty line are left for the prompts that follow. *)
Theorem readMultilineJql_reads_to_empty_line (skipped : nat) (lines rest : list jsstring) :
  lines ≠ [] → Forall (λ line, line ≠ []) lines →
  ConfigWizard.readMultilineJql (replicate skipped [] ++ lines ++ [] :: rest)
  = Some (trim (join [10] lines), rest).
Proof.
  intros Hne Hlines. unfold ConfigWizard.readMultilineJql.
  induction skipped as [|skipped IH]; simpl; [|done].
  by apply (readLines_text lines rest []).
Qed.

Lemma readMultilineJql_reads_to_empty_line_witness :
  ConfigWizard.readMultilineJql
    ([[]] ++ [js "status = Open "; js "ORDER BY created DESC"] ++ [] :: [js "y"])
  = Some (trim (join [10] [js "status = Open "; js "ORDER BY created DESC"]), [js "y"]).
Proof.
  apply (readMultilineJql_reads_to_empty_line 1
           [js "status = Open "; js "ORDER BY created DESC"] [js "y"]).
  - discriminate.
  - repeat constructor; discriminate.
Defined.

(** ** A rejected edit of a view *)

(** X28.  When both the name and the query of a view are edited in the
    wizard and the new query is rejected, the view keeps its old query
    but has the new name already, and the configuration is not saved:
    what the wizard holds and what the file holds differ. *)
Theorem editView_rejected_query_keeps_new_name (jira : Jira)
    (menuAnswer newName newJql : jsstring) (c : Config) (choice : nat) (view : View) :
  Wizard.askMenu menuAnswer ((view_name <$> views c) ++ [js "Cancel"]) = Some choice →
  views c !! choice = Some view →
  blank newName = false → blank newJql = false →
  (ConfigWizard.validateJql jira (domain c) newJql (project c)).1 = false →
  let after := ConfigWizard.editView jira menuAnswer (js "3") newName newJql c in
  after.2 = false
  ∧ views after.1 !! choice = Some (mkView (trim newName) (view_jql view))
  ∧ ∀ i, i ≠ choice → views after.1 !! i = views c !! i.
Proof.
  intros Hmenu Hview Hn Hq Hrejected after. unfold after, ConfigWizard.editView.
  rewrite Hmenu, Hview. pose proof (lookup_lt_Some _ _ _ Hview) as Hlt.
  destruct (length (views c) =? 0)%nat eqn:H0; [apply Nat.eqb_eq in H0; lia|].
  rewrite length_app, length_fmap. simpl length.
  destruct (choice =? length (views c) + 1 - 1)%nat eqn:Hc; [apply Nat.eqb_eq in Hc; lia|].
  change (Wizard.askMenu (js "3") ConfigWizard.editOptions) with (Some 2%nat).
  cbn [Nat.eqb orb andb]. rewrite Hn, Hq. cbn [negb andb].
  change (domain (SettingsModal.with_views ?v c)) with (domain c).
  change (project (SettingsModal.with_views ?v c)) with (project c).
  rewrite Hrejected. cbn [negb fst snd]. split; [done|]. simpl. split.
  - by rewrite list_lookup_alter_eq, Hview.
  - intros i Hi. by rewrite list_lookup_alter_ne.
Qed.

Lemma editView_rejected_query_keeps_new_name_witness :
  (ConfigWizard.editView (jiraRejecting (js "Field 'statu' does not exist."))
     (js "2") (js "3") (js "Done") (js "statu = Done") twoViews).2 = false
  ∧ views (ConfigWizard.editView (jiraRejecting (js "Field 'statu' does not exist."))
             (js "2") (js "3") (js "Done") (js "statu = Done") twoViews).1 !! 1%nat
    = Some (mkView (trim (js "Done")) (js "assignee = currentUser()")).
Proof.
  destruct (editView_rejected_query_keeps_new_name
              (jiraRejecting (js "Field 'statu' does not exist."))
              (js "2") (js "Done") (js "statu = Done") twoViews 1
              (mkView (js "Mine") (js "assignee = currentUser()")))
    as (H1 & H2 & _); try (vm_compute; reflexivity).
  by split.
Defined.

(** ** Escaping a query for the configuration file *)

(** The two escapes of [escapeForJson], code unit by code unit. *)
Lemma escapes_pointwise (s : jsstring) :
  replaceAll 34 [92; 34] (replaceAll 92 [92; 92] s)
  = s ≫= escapeUnit.
Proof.
  unfold replaceAll, escapeUnit. induction s as [|x s IH]; [done|].
  rewrite !bind_cons, bind_app, IH. f_equal.
  destruct (N.eqb_spec x 92) as [->|H92]; [done|].
  simpl. by rewrite (right_id_L [] (++)).
Qed.

Lemma collapse_elem (s : jsstring) (c : N) :
  c ∈ collapseWhiteSpace s → (c ∈ s ∧ isWhiteSpace c = false) ∨ c = 32.
Proof.
  induction s as [|x s IH]; simpl; [by intros ?%elem_of_nil|].
  destruct (isWhiteSpace x) eqn:Hx.
  - destruct s as [|d s']; [intros ->%list_elem_of_singleton; by right|].
    destruct (isWhiteSpace d) eqn:Hd.
    + intros [[H ?]|H]%IH; [left; split; [by right|done]|by right].
    + intros [->|[[H ?]|H]%IH]%elem_of_cons; [by right|left; split; [by right|done]|by right].
  - intros [->|[[H ?]|H]%IH]%elem_of_cons;
      [left; split; [by left|done]|left; split; [by right|done]|by right].
Qed.

Lemma collapse_pairs (s : jsstring) (i : nat) (c d : N) :
  collapseWhiteSpace s !! i = Some c → collapseWhiteSpace s !! S i = Some d →
  isWhiteSpace c = true → isWhiteSpace d = false.
Proof.
  revert i. induction s as [|x s IH]; intros i; [done|]. cbn [collapseWhiteSpace].
  destruct (isWhiteSpace x) eqn:Hx.
  - destruct s as [|y s']; [by destruct i|].
    destruct (isWhiteSpace y) eqn:Hy; [apply IH|].
    destruct i as [|i]; [|apply (IH i)].
    intros _ Hd _. cbn [collapseWhiteSpace] in Hd. rewrite Hy in Hd.
    simpl in Hd. by injection Hd as <-.
  - destruct i as [|i]; [|apply (IH i)]. simpl. intros [= <-]. congruence.
Qed.

Lemma collapse_head (s : jsstring) (c : N) :
  head (collapseWhiteSpace s) = Some c → isWhiteSpace c = true → c = 32.
Proof.
  intros Hc Hws. assert (c ∈ collapseWhiteSpace s) as Hin.
  { destruct (collapseWhiteSpace s); simplify_eq/=. by left. }
  apply collapse_elem in Hin as [[_ ?]|?]; [congruence|done].
Qed.

Lemma squeeze_sub (s : jsstring) :
  ∃ lead trail x,
    x = lead ++ squeeze s ++ trail
    ∧ (∀ c, c ∈ x → (c ∈ s ∧ isWhiteSpace c = false) ∨ c = 32)
    ∧ (∀ i c d, x !! i = Some c → x !! S i = Some d →
                isWhiteSpace c = true → isWhiteSpace d = false).
Proof.
  unfold squeeze.
  set (t := replaceAll 9 [32] (replaceAll 13 [] (replaceAll 10 [32] s))).
  destruct (trim_split (collapseWhiteSpace t)) as (lead & trail & Heq & _).
  exists lead, trail, (collapseWhiteSpace t). split; [done|]. split.
  - intros c [[Hc Hws]|Hc]%collapse_elem; [|by right]. left. split; [|done].
    unfold t, replaceAll in Hc.
    apply list_elem_of_bind in Hc as (c1 & Hc & Hc1).
    apply list_elem_of_bind in Hc1 as (c2 & Hc1 & Hc2).
    apply list_elem_of_bind in Hc2 as (c3 & Hc2 & Hc3).
    destruct (c3 =? 10); [apply list_elem_of_singleton in Hc2 as ->|
                          apply list_elem_of_singleton in Hc2 as ->].
    + destruct (32 =? 13) eqn:E; [done|]. apply list_elem_of_singleton in Hc1 as ->.
      destruct (32 =? 9) eqn:E'; [done|]. apply list_elem_of_singleton in Hc as ->. done.
    + destruct (c3 =? 13); [by apply elem_of_nil in Hc1|].
      apply list_elem_of_singleton in Hc1 as ->.
      destruct (c3 =? 9); apply list_elem_of_singleton in Hc as ->; done.
  - apply collapse_pairs.
Qed.

(** X29.  The white space of what [escapeForJson] gives: it is a single
    line whose only white space is the space character, never two in a
    row and none at either end. *)
Theorem escapeForJson_white_space (jql : jsstring) :
  let escaped := escapeForJson jql in
  (∀ c, c ∈ escaped → isWhiteSpace c = true → c = 32)
  ∧ (∀ i c d, escaped !! i = Some c → escaped !! S i = Some d →
              isWhiteSpace c = true → isWhiteSpace d = false)
  ∧ (∀ c, head escaped = Some c → isWhiteSpace c = false)
  ∧ (∀ c, last escaped = Some c → isWhiteSpace c = false).
Proof.
  intros escaped. unfold escaped, escapeForJson.
  set (s := replaceAll 34 [92; 34] (replaceAll 92 [92; 92] jql)).
  destruct (squeeze_sub s) as (lead & trail & x & Hx & Hin & Hpairs).
  split; [|split; [|split]].
  - intros c Hc Hws. destruct (Hin c) as [[_ ?]|?]; [|congruence|done].
    rewrite Hx, !elem_of_app. right. by left.
  - intros i c d Hc Hd. apply (Hpairs (length lead + i)%nat).
    + rewrite Hx, lookup_app_r by lia. replace (length lead + i - length lead)%nat with i by lia.
      by apply lookup_app_l_Some.
    + replace (S (length lead + i)) with (length lead + S i)%nat by lia.
      rewrite Hx, lookup_app_r by lia.
      replace (length lead + S i - length lead)%nat with (S i) by lia.
      by apply lookup_app_l_Some.
  - apply trim_head.
  - apply trim_last.
Qed.

(** ** The escaped query as a JSON string *)

Lemma replaceAll_bind (c : N) (replacement : jsstring) (f : N → jsstring) (s : jsstring) :
  f c = [c] → replacement ≫= f = replacement →
  (∀ x, x ≠ c → replaceAll c replacement (f x) = f x) →
  replaceAll c replacement (s ≫= f) = replaceAll c replacement s ≫= f.
Proof.
  intros Hc Hr Hf. unfold replaceAll in *. induction s as [|x s IH]; [done|].
  rewrite !bind_cons, !bind_app, IH. f_equal.
  destruct (N.eqb_spec x c) as [->|Hx].
  - rewrite Hc, bind_singleton, N.eqb_refl. done.
  - rewrite Hf by done. by rewrite bind_singleton.
Qed.

Lemma collapse_nonspace_app (a r : jsstring) :
  Forall (λ c, isWhiteSpace c = false) a →
  collapseWhiteSpace (a ++ r) = a ++ collapseWhiteSpace r.
Proof.
  induction 1 as [|c a Hc _ IH]; [done|]. cbn [app collapseWhiteSpace].
  by rewrite Hc, IH.
Qed.

Section Escapes.

(** A way to write code units out that leaves white space alone and
    writes every other code unit as code units that are not white space. *)
Variable f : N → jsstring.
Hypothesis f_space : ∀ c, isWhiteSpace c = true → f c = [c].
Hypothesis f_other :
  ∀ c, isWhiteSpace c = false → f c ≠ [] ∧ Forall (λ d, isWhiteSpace d = false) (f c).

Lemma bind_head_space (s : jsstring) :
  (∀ c, head s = Some c → isWhiteSpace c = false) →
  ∀ c, head (s ≫= f) = Some c → isWhiteSpace c = false.
Proof.
  destruct s as [|x s]; [done|]. intros Hx c. rewrite bind_cons.
  destruct (f_other x (Hx x eq_refl)) as [Hne Hall].
  destruct (f x) as [|d r]; [done|]. simpl. intros [= <-]. by inversion Hall.
Qed.

Lemma collapse_bind (s : jsstring) :
  collapseWhiteSpace (s ≫= f) = collapseWhiteSpace s ≫= f.
Proof.
  induction s as [|x s IH]; [done|]. rewrite bind_cons.
  destruct (isWhiteSpace x) eqn:Hx.
  - rewrite (f_space x Hx). cbn [app collapseWhiteSpace]. rewrite Hx.
    destruct s as [|y s']; [by rewrite bind_singleton, (f_space 32)|].
    rewrite bind_cons in *. destruct (isWhiteSpace y) eqn:Hy.
    + rewrite (f_space y Hy) in *. cbn [app] in *. by rewrite Hy, IH.
    + destruct (f_other y Hy) as [Hne Hall].
      destruct (f y) as [|d r] eqn:Hfy; [done|]. cbn [app] in *.
      rewrite (Forall_inv Hall). rewrite bind_cons, (f_space 32) by done.
      cbn [app]. f_equal. by rewrite <- IH.
  - destruct (f_other x Hx) as [_ Hall]. rewrite collapse_nonspace_app by done.
    cbn [collapseWhiteSpace]. rewrite Hx, bind_cons. by rewrite IH.
Qed.

Lemma trimStart_bind (s : jsstring) : trimStart (s ≫= f) = trimStart s ≫= f.
Proof.
  induction s as [|x s IH]; [done|]. rewrite bind_cons. cbn [trimStart].
  destruct (isWhiteSpace x) eqn:Hx.
  - rewrite (f_space x Hx). cbn [app trimStart]. by rewrite Hx.
  - rewrite bind_cons. apply trimStart_id. intros c.
    destruct (f_other x Hx) as [Hne Hall].
    destruct (f x) as [|d r]; [done|]. simpl. intros [= <-]. by inversion Hall.
Qed.

Lemma bind_spaces (ws : jsstring) :
  Forall (λ c, isWhiteSpace c = true) ws → ws ≫= f = ws.
Proof.
  induction 1 as [|c ws Hc _ IH]; [done|]. by rewrite bind_cons, IH, (f_space c).
Qed.

Lemma trimEnd_bind (s : jsstring) : trimEnd (s ≫= f) = trimEnd s ≫= f.
Proof.
  destruct (trimEnd_split s) as (ws & Hs & Hws).
  rewrite Hs at 1. rewrite bind_app, (bind_spaces ws Hws), trimEnd_app_spaces by done.
  apply trimEnd_id. intros c Hc.
  pose proof (trimEnd_last s) as Hlast.
  destruct (trimEnd s) as [|x t _] using rev_ind; [done|].
  rewrite bind_app, bind_singleton in Hc.
  assert (isWhiteSpace x = false) as Hx by (apply Hlast; by rewrite last_snoc).
  destruct (f_other x Hx) as [Hne Hall].
  destruct (f x) as [|d r _] using rev_ind; [done|].
  rewrite (assoc_L (++)), last_snoc in Hc. injection Hc as <-.
  apply Forall_app in Hall as [_ Hd]. by inversion Hd.
Qed.

Lemma trim_bind (s : jsstring) : trim (s ≫= f) = trim s ≫= f.
Proof. unfold trim. by rewrite trimStart_bind, trimEnd_bind. Qed.

End Escapes.

Lemma escapeUnit_space (c : N) : isWhiteSpace c = true → escapeUnit c = [c].
Proof.
  intros Hc. unfold escapeUnit.
  destruct (N.eqb_spec c 92) as [->|_]; [done|].
  by destruct (N.eqb_spec c 34) as [->|_].
Qed.

Lemma escapeUnit_other (c : N) :
  isWhiteSpace c = false →
  escapeUnit c ≠ [] ∧ Forall (λ d, isWhiteSpace d = false) (escapeUnit c).
Proof.
  intros Hc. unfold escapeUnit.
  destruct (c =? 92); [split; [done|by repeat constructor]|].
  destruct (c =? 34); split; try done; by repeat constructor.
Qed.

Lemma replaceAll_escapeUnit (c : N) (replacement s : jsstring) :
  isWhiteSpace c = true → Forall (λ d, isWhiteSpace d = true) replacement →
  replaceAll c replacement (s ≫= escapeUnit)
  = replaceAll c replacement s ≫= escapeUnit.
Proof.
  intros Hc Hr. apply replaceAll_bind.
  - by apply escapeUnit_space.
  - by apply bind_spaces; [apply escapeUnit_space|].
  - intros x Hx. unfold replaceAll, escapeUnit.
    assert ((92 =? c) = false) as H92 by (apply N.eqb_neq; by intros <-).
    assert ((34 =? c) = false) as H34 by (apply N.eqb_neq; by intros <-).
    assert ((x =? c) = false) as Hxc by by apply N.eqb_neq.
    destruct (x =? 92); [|destruct (x =? 34)];
      rewrite ?bind_cons, ?bind_nil; cbv beta; by rewrite ?H92, ?H34, ?Hxc.
Qed.

(** The escapes can as well be applied last. *)
Lemma escapeForJson_squeeze (jql : jsstring) :
  escapeForJson jql = squeeze jql ≫= escapeUnit.
Proof.
  unfold escapeForJson, squeeze. rewrite escapes_pointwise.
  rewrite !replaceAll_escapeUnit by (try done; by repeat constructor).
  rewrite (collapse_bind _ escapeUnit_space escapeUnit_other).
  by rewrite (trim_bind _ escapeUnit_space escapeUnit_other).
Qed.

Lemma jsonStringValue_escaped (s : jsstring) :
  Forall (λ c, 32 ≤ c) s → jsonStringValue (s ≫= escapeUnit) = Some s.
Proof.
  induction 1 as [|c s Hc _ IH]; [done|]. rewrite bind_cons. unfold escapeUnit at 1.
  destruct (N.eqb_spec c 92) as [->|H92]; [simpl; by rewrite IH|].
  destruct (N.eqb_spec c 34) as [->|H34]; [simpl; by rewrite IH|].
  cbn [app jsonStringValue].
  rewrite (proj2 (N.eqb_neq c 92) H92), (proj2 (N.eqb_neq c 34) H34).
  rewrite (proj2 (N.ltb_ge c 32) Hc). simpl. by rewrite IH.
Qed.

(** X30.  When the only control characters of a query are white space, what
    [escapeForJson] gives is the contents of a JSON string, and the value
    of that string is the query with every run of white space (line
    breaks and tabs among it) turned into one space, carriage returns
    taken out, and the white space at both ends dropped. *)
Theorem escapeForJson_is_json_string (jql : jsstring) :
  (∀ c, c ∈ jql → c < 32 → isWhiteSpace c = true) →
  jsonStringValue (escapeForJson jql) = Some (squeeze jql).
Proof.
  intros Hctl. rewrite escapeForJson_squeeze. apply jsonStringValue_escaped.
  apply Forall_forall. intros c Hc.
  destruct (squeeze_sub jql) as (lead & trail & x & Hx & Hin & _).
  destruct (Hin c) as [[Hjql Hws]|Heq]; [| |by rewrite Heq].
  - rewrite Hx, !elem_of_app. right. by left.
  - destruct (N.le_gt_cases 32 c) as [|Hlt]; [done|].
    rewrite (Hctl c Hjql Hlt) in Hws. done.
Qed.

Lemma escapeForJson_is_json_string_witness :
  escapeForJson (js "summary ~ " ++ [34] ++ js "a  b" ++ [34; 13; 10; 9]
                 ++ js "ORDER BY created ")
  = js "summary ~ " ++ [92; 34] ++ js "a b" ++ [92; 34] ++ js " ORDER BY created"
  ∧ jsonStringValue
      (escapeForJson (js "summary ~ " ++ [34] ++ js "a  b" ++ [34; 13; 10; 9]
                      ++ js "ORDER BY created "))
    = Some (squeeze (js "summary ~ " ++ [34] ++ js "a  b" ++ [34; 13; 10; 9]
                     ++ js "ORDER BY created ")).
Proof.
  split; [vm_compute; reflexivity|].
  apply escapeForJson_is_json_string.
  apply (proj1 (Forall_forall (λ c, c < 32 → isWhiteSpace c = true) _)).
  vm_compute. repeat constructor; intros H; first [reflexivity | discriminate H].
Defined.

(** ** A session of the helper *)

Lemma typeLines_from (lines : list jsstring) (h : Helper) (printed : list jsstring) :
  foldl (λ run line, ((onLine line run.1).1, run.2 ++ (onLine line run.1).2))
    (h, printed) lines
  = ((typeLines lines h).1, printed ++ (typeLines lines h).2).
Proof.
  revert h printed. induction lines as [|line lines IH]; intros h printed.
  - simpl. by rewrite (right_id_L [] (++)).
  - assert (typeLines (line :: lines) h
            = ((typeLines lines (onLine line h).1).1,
               (onLine line h).2 ++ (typeLines lines (onLine line h).1).2)) as ->
      by apply IH.
    cbn [foldl fst snd]. rewrite IH. by rewrite (assoc_L (++)).
Qed.

Lemma typeLines_app (lines1 lines2 : list jsstring) (h : Helper) :
  typeLines (lines1 ++ lines2) h
  = ((typeLines lines2 (typeLines lines1 h).1).1,
     (typeLines lines1 h).2 ++ (typeLines lines2 (typeLines lines1 h).1).2).
Proof.
  unfold typeLines at 1. rewrite foldl_app. fold (typeLines lines1 h).
  destruct (typeLines lines1 h) as [h1 printed1]. apply typeLines_from.
Qed.

Lemma typeLines_empty (skipped : nat) :
  typeLines (replicate skipped []) (mkHelper [] false []) = (mkHelper [] false [], []).
Proof. induction skipped as [|skipped IH]; [done|]. exact IH. Qed.

Lemma typeLines_text (lines gathered : list jsstring) (collected : jsstring) :
  Forall (λ line, line ≠ []) lines →
  typeLines lines (mkHelper gathered false collected)
  = (mkHelper (gathered ++ lines) false collected, []).
Proof.
  revert gathered. induction lines as [|line lines IH]; intros gathered Hlines.
  - by rewrite (right_id_L [] (++)).
  - apply Forall_cons in Hlines as [Hline Hlines].
    change (line :: lines) with ([line] ++ lines). rewrite typeLines_app.
    assert (typeLines [line] (mkHelper gathered false collected)
            = (mkHelper (gathered ++ [line]) false collected, [])) as ->.
    { unfold typeLines, onLine. simpl. by destruct line. }
    simpl. rewrite IH by done. by rewrite <- (assoc_L (++)).
Qed.

(** X.  A session of the helper: empty lines typed before the query are
    ignored; the lines of the query, an empty line and a name print the
    prompt for the name, then the entry and the escaped query for the
    lines joined by single spaces, under the name typed (trimmed) or, when
    that is blank, under "My View"; and the helper is then as it started,
    ready for another query. *)
Theorem helper_session (skipped : nat) (lines : list jsstring) (nameLine : jsstring) :
  lines ≠ [] → Forall (λ line, line ≠ []) lines →
  let name := if (0 <? length (trim nameLine))%nat then trim nameLine else js "My View" in
  typeLines (replicate skipped [] ++ lines ++ [[]; nameLine]) (mkHelper [] false [])
  = (mkHelper [] false [],
     [[10] ++ js "Enter a name for this view (default: My View):";
      [10] ++ js "--- Config Entry ---" ++ [10];
      formatConfigEntry name (join [32] lines);
      [10] ++ js "--- Raw Escaped JQL ---" ++ [10];
      escapeForJson (join [32] lines);
      [10];
      js "Enter another JQL query, or Ctrl+C to exit." ++ [10]]).
Proof.
  intros Hne Hlines name.
  rewrite typeLines_app, typeLines_empty. cbn [fst snd].
  rewrite typeLines_app, typeLines_text by done. cbn [fst snd app].
  unfold typeLines. cbn [foldl fst snd]. unfold onLine at 3 4. cbn [awaitingName length Nat.eqb jqlLines].
  destruct lines as [|line lines']; [done|]. cbn [length Nat.eqb fst snd app].
  unfold onLine. cbn [awaitingName collectedJql fst snd app]. done.
Qed.

Lemma helper_session_witness :
  (typeLines (replicate 1 [] ++ [js "status = Open"; js "  ORDER BY created DESC"]
              ++ [[]; js " Open issues "])
     (mkHelper [] false [])).2 !! 4%nat
  = Some (js "status = Open ORDER BY created DESC").
Proof.
  rewrite (helper_session 1 [js "status = Open"; js "  ORDER BY created DESC"]
             (js " Open issues ")).
  - vm_compute. reflexivity.
  - discriminate.
  - repeat constructor; discriminate.
Defined.
